(** * metaetcd proxy server: clock service, revision resolver and request
    translation layer ([internal/proxysvr/server.go]).

    The proxy federates several etcd clusters ("members") behind one etcd
    API and one global revision (the meta-revision), kept on a further
    etcd cluster (the "coordinator").

    The embedding is shallow.  Go's [int64] is [Z] with the wrap-around
    written out where the code computes; [[]byte] and [string] are lists
    of 8-bit [Z]; etcd's protobuf messages are records; [oneof] fields
    are inductive types; pointers that the code dereferences are
    [option]s.  The handlers run in a state and error monad over a
    [World]: the coordinator, the member pool and the random source.
    Every read, write and lease RPC that the proxy issues is recorded in
    the receiving cluster's call log (a compaction shows in the cluster's
    compacted revision), and every RPC can fail as that cluster's fault
    schedule says.

    Logging and metrics calls are left out: they do not touch the values
    the handlers compute.  [Watch] (goroutines over a gRPC stream and the
    watch multiplexer of package [membership]) and the gRPC set-up are
    not part of this development. *)

From Stdlib Require Import ZArith Lia List Bool String.
From stdpp Require Import base list sorting.
Import ListNotations.
Local Open Scope Z_scope.

(** ** Machine integers *)

Definition MaxInt64 : Z := 2 ^ 63 - 1.
Definition MinInt64 : Z := - 2 ^ 63.

(** [int64(z)]: the two's complement value of the low 64 bits. *)
Definition int64 (z : Z) : Z := (z + 2 ^ 63) mod 2 ^ 64 - 2 ^ 63.

(** [uint64(z)]: the low 64 bits. *)
Definition uint64 (z : Z) : Z := z mod 2 ^ 64.

Definition in_int64 (z : Z) : Prop := MinInt64 <= z <= MaxInt64.

(** ** Bytes and [encoding/binary] *)

Definition bytes := list Z.

(** [byte(v)] *)
Definition byte_of (v : Z) : Z := Z.land v 255.

(** [binary.LittleEndian.PutUint64(buf, v)] on a fresh 8-byte buffer. *)
Definition PutUint64 (v : Z) : bytes :=
  [ byte_of v; byte_of (Z.shiftr v 8); byte_of (Z.shiftr v 16);
    byte_of (Z.shiftr v 24); byte_of (Z.shiftr v 32); byte_of (Z.shiftr v 40);
    byte_of (Z.shiftr v 48); byte_of (Z.shiftr v 56) ].

(** [binary.LittleEndian.Uint64(b)]: reads [b[0..7]]; a shorter slice makes
    the bounds check fail (a run-time panic), which is [None] here. *)
Definition Uint64 (b : bytes) : option Z :=
  match b with
  | b0 :: b1 :: b2 :: b3 :: b4 :: b5 :: b6 :: b7 :: _ =>
      Some (Z.lor b0 (Z.lor (Z.shiftl b1 8) (Z.lor (Z.shiftl b2 16)
           (Z.lor (Z.shiftl b3 24) (Z.lor (Z.shiftl b4 32)
           (Z.lor (Z.shiftl b5 40) (Z.lor (Z.shiftl b6 48) (Z.shiftl b7 56))))))))
  | _ => None
  end.

(** [bytes.Compare(a, b)]: lexicographic, a proper prefix is smaller. *)
Fixpoint bytes_Compare (a b : bytes) : Z :=
  match a, b with
  | [], [] => 0
  | [], _ :: _ => -1
  | _ :: _, [] => 1
  | x :: a', y :: b' =>
      if x <? y then -1 else if y <? x then 1 else bytes_Compare a' b'
  end.

Definition bytes_eqb (a b : bytes) : bool := bool_decide (a = b).

(** ** etcd messages ([mvccpb], [etcdserverpb]) *)

Record KeyValue := mkKeyValue {
  Key : bytes;
  CreateRevision : Z;
  ModRevision : Z;
  Version : Z;
  Value : bytes;
  Lease : Z }.

Record ResponseHeader := mkResponseHeader {
  ClusterId : Z;
  MemberId : Z;
  Revision : Z;
  RaftTerm : Z }.

(** [&etcdserverpb.ResponseHeader{Revision: r}] *)
Definition header_at (r : Z) : ResponseHeader := mkResponseHeader 0 0 r 0.

Record RangeRequest := mkRangeRequest {
  rr_Key : bytes;
  rr_RangeEnd : bytes;
  rr_Limit : Z;
  rr_Revision : Z;
  rr_KeysOnly : bool;
  rr_CountOnly : bool }.

Record RangeResponse := mkRangeResponse {
  rs_Header : option ResponseHeader;
  rs_Kvs : list KeyValue;
  rs_More : bool;
  rs_Count : Z }.

Record PutRequest := mkPutRequest {
  pr_Key : bytes;
  pr_Value : bytes;
  pr_Lease : Z;
  pr_PrevKv : bool;
  pr_IgnoreValue : bool;
  pr_IgnoreLease : bool }.

Record PutResponse := mkPutResponse {
  ps_Header : option ResponseHeader;
  ps_PrevKv : option KeyValue }.

Record DeleteRangeRequest := mkDeleteRangeRequest {
  dr_Key : bytes;
  dr_RangeEnd : bytes;
  dr_PrevKv : bool }.

Record DeleteRangeResponse := mkDeleteRangeResponse {
  ds_Header : option ResponseHeader;
  ds_Deleted : Z;
  ds_PrevKvs : list KeyValue }.

Inductive CompareResult := EQUAL | GREATER | LESS | NOT_EQUAL.

(** [Compare.TargetUnion] *)
Inductive TargetUnion :=
| Compare_Version (v : Z)
| Compare_CreateRevision (r : Z)
| Compare_ModRevision (r : Z)
| Compare_Value (v : bytes)
| Compare_Lease (l : Z).

Inductive CompareTarget := VERSION | CREATE | MOD | VALUE | LEASE.

Record Compare := mkCompare {
  cmp_Result : CompareResult;
  cmp_Target : CompareTarget;
  cmp_Key : bytes;
  cmp_RangeEnd : bytes;
  cmp_TargetUnion : TargetUnion }.

(** [RequestOp.Request].  A nested transaction is carried as its wire
    bytes: nothing in this package looks inside one. *)
Inductive RequestOp :=
| RequestOp_RequestRange (r : RangeRequest)
| RequestOp_RequestPut (p : PutRequest)
| RequestOp_RequestDeleteRange (d : DeleteRangeRequest)
| RequestOp_RequestTxn (raw : bytes).

Record TxnRequest := mkTxnRequest {
  tx_Compare : list Compare;
  tx_Success : list RequestOp;
  tx_Failure : list RequestOp }.

(** [ResponseOp.Response] *)
Inductive ResponseOp :=
| ResponseOp_ResponseRange (r : RangeResponse)
| ResponseOp_ResponsePut (p : PutResponse)
| ResponseOp_ResponseDeleteRange (d : DeleteRangeResponse)
| ResponseOp_ResponseTxn (raw : bytes).

Record TxnResponse := mkTxnResponse {
  ts_Header : option ResponseHeader;
  ts_Succeeded : bool;
  ts_Responses : list ResponseOp }.

Record LeaseGrantRequest := mkLeaseGrantRequest {
  lg_TTL : Z;
  lg_ID : Z }.

Record LeaseGrantResponse := mkLeaseGrantResponse {
  ls_Header : option ResponseHeader;
  ls_ID : Z;
  ls_TTL : Z;
  ls_Error : string }.

(** ** Errors and results *)

Inductive error :=
| ErrKeyNotFound                    (* rpctypes.ErrKeyNotFound *)
| ErrCompacted                      (* rpctypes.ErrCompacted *)
| ErrFutureRev                      (* rpctypes.ErrFutureRev *)
| ErrUnavailable                    (* any transport or context error *)
| ErrInvalidCrossShardTxn           (* scheme: invalid-cross-shard-txn *)
| ErrGettingClock (e : error)       (* "getting clock: %w" *)
| ErrTickingClock (e : error)       (* "ticking clock: %w" *)
| ErrRanging (memberRev : Z) (e : error) (* "ranging at member rev %d: %w" *)
| ErrLease (msg : string).          (* "lease error: %s" *)

(** [errors.Is(err, rpctypes.ErrKeyNotFound)]: looks through [%w]. *)
Fixpoint is_ErrKeyNotFound (e : error) : bool :=
  match e with
  | ErrKeyNotFound => true
  | ErrGettingClock e' | ErrTickingClock e' | ErrRanging _ e' => is_ErrKeyNotFound e'
  | _ => false
  end.

(** What a call does: return a value, return an error, panic (nil
    dereference, index or slice bounds), or still be running when the
    model's fuel is spent. *)
Inductive result (A : Type) :=
| Ok (a : A)
| Err (e : error)
| Panic
| OutOfFuel.
Arguments Ok {A} a.
Arguments Err {A} e.
Arguments Panic {A}.
Arguments OutOfFuel {A}.

(** ** An etcd cluster as the proxy sees it *)

(** The RPCs the proxy issues. *)
Inductive Call :=
| CallGet (key : bytes) (rev : option Z)   (* Get(key) / Get(key, WithRev(rev)) *)
| CallPut (key value : bytes)              (* Put(key, value) *)
| CallTick (key : bytes)                   (* Txn: put key ignore-value; get key *)
| CallRange (req : RangeRequest)
| CallTxn (req : TxnRequest)
| CallLeaseGrant (req : LeaseGrantRequest)
| CallLock
| CallUnlock.

(** One revision of one key in the MVCC history. *)
Record Entry := mkEntry {
  entry_kv : KeyValue;
  entry_deleted : bool }.

Record Store := mkStore {
  Rev : Z;                                 (* current revision *)
  CompactRev : Z;                          (* revisions below are compacted *)
  History : list Entry;                    (* newest first *)
  Faults : list (option error);            (* outcome of the next RPCs *)
  Calls : list Call;                       (* RPCs received, latest first *)
  RangeReply : RangeRequest -> RangeResponse;
  TxnReply : TxnRequest -> TxnResponse;
  LeaseGrantReply : LeaseGrantRequest -> LeaseGrantResponse }.

Definition St (A : Type) : Type := Store -> result A * Store.

(** Every RPC is logged and consumes one entry of the fault schedule. *)
Definition rpc {A} (c : Call) (body : St A) : St A := fun s =>
  let s1 := mkStore (Rev s) (CompactRev s) (History s) (tail (Faults s))
                    (c :: Calls s) (RangeReply s) (TxnReply s) (LeaseGrantReply s) in
  match Faults s with
  | Some e :: _ => (Err e, s1)
  | _ => body s1
  end.

(** The live value of [key] as of revision [rev]. *)
Fixpoint lookup_at (key : bytes) (rev : Z) (h : list Entry) : list KeyValue :=
  match h with
  | [] => []
  | e :: h' =>
      if bytes_eqb (Key (entry_kv e)) key && (ModRevision (entry_kv e) <=? rev)
      then (if entry_deleted e then [] else [entry_kv e])
      else lookup_at key rev h'
  end.

Definition get_response (s : Store) (kvs : list KeyValue) : RangeResponse :=
  mkRangeResponse (Some (header_at (Rev s))) kvs false (Z.of_nat (length kvs)).

(** [client.Get(ctx, key)] and [client.Get(ctx, key, WithRev(rev))]. *)
Definition store_Get (key : bytes) (rev : option Z) : St RangeResponse :=
  rpc (CallGet key rev) (fun s =>
    match rev with
    | None => (Ok (get_response s (lookup_at key (Rev s) (History s))), s)
    | Some r =>
        if r <? CompactRev s then (Err ErrCompacted, s)
        else if Rev s <? r then (Err ErrFutureRev, s)
        else (Ok (get_response s (lookup_at key r (History s))), s)
    end).

Definition push_entry (s : Store) (e : Entry) : Store :=
  mkStore (ModRevision (entry_kv e)) (CompactRev s) (e :: History s) (Faults s)
          (Calls s) (RangeReply s) (TxnReply s) (LeaseGrantReply s).

(** [client.KV.Put(ctx, key, value)] *)
Definition store_Put (key value : bytes) : St unit :=
  rpc (CallPut key value) (fun s =>
    let r := Rev s + 1 in
    let kv := match lookup_at key (Rev s) (History s) with
              | old :: _ => mkKeyValue key (CreateRevision old) r (Version old + 1) value 0
              | [] => mkKeyValue key r r 1 value 0
              end in
    (Ok tt, push_entry s (mkEntry kv false))).

(** [client.KV.Txn(ctx).Then(OpPut(key, "", WithIgnoreValue()), OpGet(key)).Commit()]:
    etcd refuses an ignore-value put of a key that does not exist; otherwise
    the key keeps its value under a new revision and the get sees it. *)
Definition store_Tick (key : bytes) : St KeyValue :=
  rpc (CallTick key) (fun s =>
    match lookup_at key (Rev s) (History s) with
    | [] => (Err ErrKeyNotFound, s)
    | old :: _ =>
        let kv := mkKeyValue key (CreateRevision old) (Rev s + 1) (Version old + 1)
                             (Value old) (Lease old) in
        (Ok kv, push_entry s (mkEntry kv false))
    end).

(** [client.KV.Range], [client.KV.Txn] and [client.Lease.LeaseGrant] on a
    member: the reply is the member's; what the member does with the
    request is not the proxy's code. *)
Definition store_Range (req : RangeRequest) : St RangeResponse :=
  rpc (CallRange req) (fun s => (Ok (RangeReply s req), s)).

Definition store_Txn (req : TxnRequest) : St TxnResponse :=
  rpc (CallTxn req) (fun s => (Ok (TxnReply s req), s)).

Definition store_LeaseGrant (req : LeaseGrantRequest) : St LeaseGrantResponse :=
  rpc (CallLeaseGrant req) (fun s => (Ok (LeaseGrantReply s req), s)).

(** ** The state and error monad *)

Definition StateErr (S A : Type) : Type := S -> result A * S.

Definition ret {S A} (a : A) : StateErr S A := fun s => (Ok a, s).

Definition fail {S A} (e : error) : StateErr S A := fun s => (Err e, s).

Definition panic {S A} : StateErr S A := fun s => (Panic, s).

Definition bind {S A B} (m : StateErr S A) (k : A -> StateErr S B) : StateErr S B :=
  fun s =>
    match m s with
    | (Ok a, s') => k a s'
    | (Err e, s') => (Err e, s')
    | (Panic, s') => (Panic, s')
    | (OutOfFuel, s') => (OutOfFuel, s')
    end.

(** [if err != nil { return ..., f(err) }] *)
Definition wrap_err {S A} (f : error -> error) (m : StateErr S A) : StateErr S A :=
  fun s =>
    match m s with
    | (Err e, s') => (Err (f e), s')
    | other => other
    end.

(** A call whose error result the caller drops. *)
Definition ignore_result {S A} (m : StateErr S A) : StateErr S unit :=
  fun s => (Ok tt, snd (m s)).

Declare Scope go_scope.
Delimit Scope go_scope with go.
Notation "x <- m ;; k" := (bind m (fun x => k))
  (at level 100, m at next level, right associativity) : go_scope.
Local Open Scope go_scope.

(** ** The world of one proxy *)

(** The coordinator, the member pool and the random source.

    Modelled from the spec: the member pool of package [membership], which
    is not in this file.  It maps a key to its owning member
    ([GetMemberForKey], [nil] when there is none: an index past the end
    here) and iterates over all members ([IterateMembers]). *)
Record World := mkWorld {
  coordinator : Store;
  members : list Store;
  GetMemberForKey : bytes -> nat;
  rand_source : nat -> Z;                  (* the stream behind math/rand *)
  rand_used : nat }.

Definition M (A : Type) : Type := StateErr World A.

Definition onCoordinator {A} (op : St A) : M A := fun w =>
  let (r, s) := op (coordinator w) in
  (r, mkWorld s (members w) (GetMemberForKey w) (rand_source w) (rand_used w)).

(** A call through a member's client set; a [nil] client panics. *)
Definition onMember {A} (client : nat) (op : St A) : M A := fun w =>
  match members w !! client with
  | None => (Panic, w)
  | Some s =>
      let (r, s') := op s in
      (r, mkWorld (coordinator w) (<[client := s']> (members w))
                  (GetMemberForKey w) (rand_source w) (rand_used w))
  end.

(** [rand.Int63()]: a non-negative 63-bit integer. *)
Definition rand_Int63 : M Z := fun w =>
  (Ok (rand_source w (rand_used w) mod 2 ^ 63),
   mkWorld (coordinator w) (members w) (GetMemberForKey w) (rand_source w)
           (S (rand_used w))).

(** Modelled from the spec: [Pool.IterateMembers] of package [membership],
    which is not in this file: "parallel fan-out with error aggregation
    (first-error-wins ...)".  The callbacks share [a] (under the callers'
    mutexes); the list order stands for the order in which the callbacks
    take effect; a callback cancelled by a sibling's error is a callback
    whose RPC fails.  The first error is returned with the accumulator. *)
Fixpoint iterate {A} (fn : nat -> A -> M A) (clients : list nat) (a : A)
    (first : option error) : M (A * option error) :=
  match clients with
  | [] => ret (a, first)
  | c :: cs => fun w =>
      match fn c a w with
      | (Ok a', w') => iterate fn cs a' first w'
      | (Err e, w') =>
          iterate fn cs a (match first with None => Some e | Some _ => first end) w'
      | (Panic, w') => (Panic, w')
      | (OutOfFuel, w') => (OutOfFuel, w')
      end
  end.

(** Modelled from the spec: [Pool.IterateMembers], over all the members
    of the pool. *)
Definition IterateMembers {A} (fn : nat -> A -> M A) (a : A) : M (A * option error) :=
  fun w => iterate fn (seq 0 (length (members w))) a None w.

(** ** Package [scheme] *)

(** Modelled from the spec: package [scheme] is not in this file.  The
    server below is written against its interface (section 4.1 of the
    specification); what the specification says of each function is
    stated further down, and assumed only where a statement says so. *)
Class Scheme := {
  MetaKey : bytes;
  ResolveModRev : KeyValue -> KeyValue;
  ResolveMetaRev : KeyValue -> Z;
  AppendMetaRevToTxOps : bytes -> list RequestOp -> list RequestOp;
  ValidateTxComparisons : list Compare -> result bytes;
  ValidateTxOps : bytes -> list RequestOp -> result bytes;
  PreflightTxn : Z -> TxnRequest -> RangeResponse -> Z * option TxnResponse }.

(** Lifts a call that returns [(value, error)] and touches no cluster. *)
Definition pure_call {S A} (r : result A) : StateErr S A := fun s => (r, s).

(** ** The server *)

Section Server.

Context {scheme : Scheme}.

(** [sort.Slice]: some sorting algorithm, not a stable one. *)
Variable sort_Slice : (KeyValue -> KeyValue -> bool) -> list KeyValue -> list KeyValue.

(** *** Clock service *)

(** The callback of [reconstituteClock]: one member's meta-clock value. *)
Definition readMemberClock (client : nat) (latestMetaRev : Z) : M Z :=
  r <- onMember client (store_Get MetaKey None) ;;
  match rs_Kvs r with
  | [] => ret latestMetaRev
  | kv :: _ =>
      if Z.of_nat (length (Value kv)) <? 8 then ret latestMetaRev
      else
        match Uint64 (Value kv) with
        | None => panic
        | Some u =>
            let rev := int64 u in
            ret (if rev >? latestMetaRev then rev else latestMetaRev)
        end
  end.

Definition reconstituteClock (delta : Z) : M Z := fun w =>
  let w1 := snd (onCoordinator (rpc CallLock (ret tt)) w) in
  let body : M Z :=
    resp <- wrap_err ErrGettingClock (onCoordinator (store_Get MetaKey None)) ;;
    match rs_Kvs resp with
    | kv :: _ => ret (ResolveMetaRev kv)
    | [] =>
        r <- IterateMembers readMemberClock 0 ;;     (* the error is dropped *)
        let latestMetaRev := int64 (fst r + delta) in
        let buf := PutUint64 (uint64 (uint64 latestMetaRev - 1)) in
        _ <- onCoordinator (store_Put MetaKey buf) ;;
        ret latestMetaRev
    end in
  let (r, w2) := body w1 in
  (r, snd (onCoordinator (rpc CallUnlock (ret tt)) w2)).

Definition tick : M Z := fun w =>
  match onCoordinator (store_Tick MetaKey) w with
  | (Err e, w') =>
      if is_ErrKeyNotFound e then reconstituteClock 1 w'
      else (Err (ErrTickingClock e), w')
  | (Ok kv, w') => (Ok (ResolveMetaRev kv), w')
  | (Panic, w') => (Panic, w')
  | (OutOfFuel, w') => (OutOfFuel, w')
  end.

Definition now : M Z :=
  resp <- wrap_err ErrGettingClock (onCoordinator (store_Get MetaKey None)) ;;
  match rs_Kvs resp with
  | [] => reconstituteClock 0
  | kv :: _ => ret (ResolveMetaRev kv)
  end.

(** *** Revision resolver *)

(** The loop of [getMemberRev]; [zeroKeyRev] is the probed revision. *)
Fixpoint getMemberRev_loop (fuel : nat) (metaRev zeroKeyRev : Z) : St Z :=
  match fuel with
  | O => fun s => (OutOfFuel, s)
  | S fuel' =>
      let opts := if zeroKeyRev >? 0 then Some zeroKeyRev else None in
      resp <- store_Get MetaKey opts ;;
      match rs_Kvs resp with
      | [] =>
          match rs_Header resp with
          | Some h => ret (Revision h)
          | None => panic
          end
      | kv :: _ =>
          match Uint64 (Value kv) with
          | None => panic
          | Some u =>
              let lastMetaRev := int64 u in
              if lastMetaRev >? metaRev
              then getMemberRev_loop fuel' metaRev (int64 (ModRevision kv - 1))
              else ret (ModRevision kv)
          end
      end
  end.

Definition getMemberRev (fuel : nat) (metaRev : Z) : St Z :=
  getMemberRev_loop fuel metaRev 0.

(** *** Range *)

Definition rangeWithClient (fuel : nat) (req : RangeRequest) (metaRev : Z)
    (client : nat) (resp : RangeResponse) : M RangeResponse :=
  memberRev <- onMember client (getMemberRev fuel metaRev) ;;
  let reqCopy := mkRangeRequest (rr_Key req) (rr_RangeEnd req) (rr_Limit req)
                                memberRev (rr_KeysOnly req) (rr_CountOnly req) in
  r <- wrap_err (ErrRanging memberRev) (onMember client (store_Range reqCopy)) ;;
  let count := int64 (rs_Count resp + rs_Count r) in
  if rr_CountOnly req
  then ret (mkRangeResponse (rs_Header resp) (rs_Kvs resp) (rs_More resp) count)
  else ret (mkRangeResponse (rs_Header resp)
                            (rs_Kvs resp ++ map ResolveModRev (rs_Kvs r))
                            (rs_More resp) count).

(** [bytes.Compare(resp.Kvs[i].Key, resp.Kvs[j].Key) < 0] *)
Definition key_less (a b : KeyValue) : bool := bytes_Compare (Key a) (Key b) <? 0.

Definition Range (fuel : nat) (req : RangeRequest) : M RangeResponse :=
  metaRev <- (if negb (rr_Revision req =? 0) then ret (rr_Revision req) else now) ;;
  let resp := mkRangeResponse (Some (header_at metaRev)) [] false 0 in
  if Z.of_nat (length (rr_RangeEnd req)) =? 0
  then fun w => rangeWithClient fuel req metaRev (GetMemberForKey w (rr_Key req)) resp w
  else
    r <- IterateMembers (rangeWithClient fuel req metaRev) resp ;;
    let (resp, err) := r : RangeResponse * option error in
    resp <- (if negb (rr_Limit req =? 0)
                && (Z.of_nat (length (rs_Kvs resp)) >? rr_Limit req)
             then
               let sorted := sort_Slice key_less (rs_Kvs resp) in
               if rr_Limit req <? 0 then panic      (* resp.Kvs[:req.Limit] *)
               else ret (mkRangeResponse (rs_Header resp)
                           (firstn (Z.to_nat (rr_Limit req)) sorted)
                           true (rs_Count resp))
             else ret resp) ;;
    match err with
    | Some e => fail e
    | None => ret resp
    end.

(** *** Txn *)

Definition resolveModComparison (client : nat) (key : bytes) (metaRev : Z)
    (req : TxnRequest) : M (Z * option TxnResponse) :=
  resp <- onMember client (store_Get key None) ;;
  match rs_Kvs resp with
  | [] => ret (0, None)
  | kv :: _ =>
      match snd (PreflightTxn metaRev req resp) with
      | Some failureResp => ret (0, Some failureResp)
      | None => ret (ModRevision kv, None)
      end
  end.

Definition set_ModRevision (op : Compare) (memberRev : Z) : Compare :=
  mkCompare (cmp_Result op) (cmp_Target op) (cmp_Key op) (cmp_RangeEnd op)
            (Compare_ModRevision memberRev).

(** The loop over [req.Compare].  [done] are the comparisons already
    visited, rewritten in place; the request that [PreflightTxn] sees has
    them.  [inl resp] is the early return of a response. *)
Fixpoint resolveComparisons (client : nat) (key : bytes) (req : TxnRequest)
    (done rest : list Compare) : M (TxnResponse + list Compare) :=
  match rest with
  | [] => ret (inr done)
  | op :: rest' =>
      match cmp_TargetUnion op with
      | Compare_ModRevision r =>
          if r =? 0 then resolveComparisons client key req (done ++ [op]) rest'
          else
            let cur := mkTxnRequest (done ++ op :: rest') (tx_Success req) (tx_Failure req) in
            res <- resolveModComparison client key r cur ;;
            match snd res with
            | Some resp => ret (inl resp)
            | None =>
                resolveComparisons client key req
                  (done ++ [set_ModRevision op (fst res)]) rest'
            end
      | _ => resolveComparisons client key req (done ++ [op]) rest'
      end
  end.

Definition set_Revision (h : ResponseHeader) (r : Z) : ResponseHeader :=
  mkResponseHeader (ClusterId h) (MemberId h) r (RaftTerm h).

(** The body of the loop over [resp.Responses].  A [nil] header makes
    the assignment to [p.Header.Revision] panic; [ResolveModRev] of a [nil]
    [PrevKv] (a put that did not ask for it) does nothing. *)
Definition rewriteResponse (metaRev : Z) (r : ResponseOp) : result ResponseOp :=
  match r with
  | ResponseOp_ResponsePut p =>
      match ps_Header p with
      | None => Panic
      | Some h =>
          Ok (ResponseOp_ResponsePut
                (mkPutResponse (Some (set_Revision h metaRev))
                               (option_map ResolveModRev (ps_PrevKv p))))
      end
  | ResponseOp_ResponseRange p =>
      Ok (ResponseOp_ResponseRange
            (mkRangeResponse (rs_Header p) (map ResolveModRev (rs_Kvs p))
                             (rs_More p) (rs_Count p)))
  | ResponseOp_ResponseDeleteRange p =>
      match ds_PrevKvs p with
      | [] => Ok r
      | _ :: _ =>
          match ds_Header p with
          | None => Panic
          | Some h =>
              Ok (ResponseOp_ResponseDeleteRange
                    (mkDeleteRangeResponse (Some (set_Revision h metaRev))
                                           (ds_Deleted p)
                                           (map ResolveModRev (ds_PrevKvs p))))
          end
      end
  | ResponseOp_ResponseTxn _ => Ok r
  end.

Fixpoint rewriteResponses (metaRev : Z) (rs : list ResponseOp) : result (list ResponseOp) :=
  match rs with
  | [] => Ok []
  | r :: rs' =>
      match rewriteResponse metaRev r with
      | Ok r' =>
          match rewriteResponses metaRev rs' with
          | Ok rs'' => Ok (r' :: rs'')
          | other => other
          end
      | Err e => Err e
      | Panic => Panic
      | OutOfFuel => OutOfFuel
      end
  end.

Definition updateClockOp (buf : bytes) : RequestOp :=
  RequestOp_RequestPut (mkPutRequest MetaKey buf 0 false false false).

(** The request as [Txn] hands it to the member. *)
Definition memberTxnRequest (cmps : list Compare) (req : TxnRequest) (metaRev : Z)
    : TxnRequest :=
  let buf := PutUint64 (uint64 metaRev) in
  mkTxnRequest cmps
    (AppendMetaRevToTxOps buf (tx_Success req) ++ [updateClockOp buf])
    (AppendMetaRevToTxOps buf (tx_Failure req) ++ [updateClockOp buf]).

Definition validateTxn (req : TxnRequest) : result bytes :=
  match ValidateTxComparisons (tx_Compare req) with
  | Ok key =>
      match ValidateTxOps key (tx_Success req) with
      | Ok key => ValidateTxOps key (tx_Failure req)
      | other => other
      end
  | other => other
  end.

Definition Txn (req : TxnRequest) : M TxnResponse :=
  key <- pure_call (validateTxn req) ;;
  fun w =>
  let client := GetMemberForKey w key in
  (resolved <- resolveComparisons client key req [] (tx_Compare req) ;;
   match resolved with
   | inl resp => ret resp
   | inr cmps =>
       metaRev <- tick ;;
       resp <- onMember client (store_Txn (memberTxnRequest cmps req metaRev)) ;;
       responses <- pure_call (rewriteResponses metaRev (ts_Responses resp)) ;;
       ret (mkTxnResponse (Some (header_at metaRev)) (ts_Succeeded resp) responses)
   end) w.

(** *** LeaseGrant *)

Definition grantOnMember (req : LeaseGrantRequest) (cs : nat) (_ : unit) : M unit :=
  resp <- onMember cs (store_LeaseGrant req) ;;
  if negb (String.eqb (ls_Error resp) EmptyString)
  then fail (ErrLease (ls_Error resp))
  else ret tt.

Definition LeaseGrant (req : LeaseGrantRequest) : M LeaseGrantResponse :=
  req <- (if lg_ID req =? 0
          then id <- rand_Int63 ;; ret (mkLeaseGrantRequest (lg_TTL req) id)
          else ret req) ;;
  r <- IterateMembers (grantOnMember req) tt ;;
  match snd r with
  | Some e => fail e
  | None => ret (mkLeaseGrantResponse (Some (header_at 0)) (lg_ID req) (lg_TTL req)
                                      EmptyString)
  end.

End Server.

(** ** What the specification says of package [scheme] *)

(** Modelled from the spec: [AppendMetaRevToTxOps(buf, ops)], not in this
    file: "for each put op in [ops], append the 8-byte [buf] to its
    value". *)
Definition appendMetaRev (buf : bytes) (op : RequestOp) : RequestOp :=
  match op with
  | RequestOp_RequestPut p =>
      RequestOp_RequestPut
        (mkPutRequest (pr_Key p) (pr_Value p ++ buf) (pr_Lease p) (pr_PrevKv p)
                      (pr_IgnoreValue p) (pr_IgnoreLease p))
  | _ => op
  end.

(** Modelled from the spec: the sentence above, as a property of the
    [AppendMetaRevToTxOps] of a package [scheme]. *)
Definition AppendMetaRevToTxOps_spec (scheme : Scheme) : Prop :=
  forall buf ops, AppendMetaRevToTxOps buf ops = map (appendMetaRev buf) ops.

(** Modelled from the spec: [PreflightTxn(metaRev, req, currentKVsResp)],
    not in this file: "if any comparison is provably false, synthesize a
    failure [TxnResponse] with [Succeeded = false] and revision
    [metaRev]". *)
Definition PreflightTxn_spec (scheme : Scheme) : Prop :=
  forall metaRev req resp actual failureResp,
    PreflightTxn metaRev req resp = (actual, Some failureResp) ->
    ts_Succeeded failureResp = false /\
    option_map Revision (ts_Header failureResp) = Some metaRev.

(** Modelled from the spec: [ValidateTxComparisons(cmps)] and
    [ValidateTxOps(key, ops)], not in this file: "verify that every key
    referenced by the transaction hashes to the same single owning key (the
    first key encountered becomes the txn's anchor); fail with
    invalid-cross-shard-txn otherwise.  Return that anchor key."  A [nil]
    anchor is the empty key. *)
Fixpoint validate_keys (anchor : bytes) (keys : list bytes) : result bytes :=
  match keys with
  | [] => Ok anchor
  | k :: keys' =>
      if Z.of_nat (length anchor) =? 0 then validate_keys k keys'
      else if bytes_eqb anchor k then validate_keys anchor keys'
      else Err ErrInvalidCrossShardTxn
  end.

(** The key that an operation of a transaction names. *)
Definition op_keys (op : RequestOp) : list bytes :=
  match op with
  | RequestOp_RequestRange r => [rr_Key r]
  | RequestOp_RequestPut p => [pr_Key p]
  | RequestOp_RequestDeleteRange d => [dr_Key d]
  | RequestOp_RequestTxn _ => []
  end.

(** Modelled from the spec: the sentence above, as a property of the
    [ValidateTxComparisons] and [ValidateTxOps] of a package [scheme]. *)
Definition ValidateTx_spec (scheme : Scheme) : Prop :=
  (forall cmps, ValidateTxComparisons cmps = validate_keys [] (map cmp_Key cmps)) /\
  (forall key ops, ValidateTxOps key ops = validate_keys key (flat_map op_keys ops)).

(** *** One package [scheme], to run the server on concrete inputs *)

(** Modelled from the spec: the constant [scheme.MetaKey], not in this
    file, the "well-known key in every store"; its spelling is a guess
    that nothing below depends on. *)
Definition spec_MetaKey : bytes := [47; 109; 101; 116; 97].          (* "/meta" *)

(** The last 8 bytes of a stored value, and what comes before them. *)
Definition suffix (v : bytes) : bytes := skipn (length v - 8) v.
Definition payload (v : bytes) : bytes := firstn (length v - 8) v.

(** Modelled from the spec: [ResolveMetaRev(kv)], not in this file: "as
    above but returns the meta-rev", that is, of a value of 8 bytes or
    more, the last 8 bytes decoded little-endian. *)
Definition spec_ResolveMetaRev (kv : KeyValue) : Z :=
  if Z.of_nat (length (Value kv)) <? 8 then 0
  else match Uint64 (suffix (Value kv)) with
       | Some u => int64 u
       | None => 0
       end.

(** Modelled from the spec: [ResolveModRev(kv)], not in this file: "if the
    value is >= 8 bytes, decode the last 8 bytes as meta-rev
    (little-endian) and overwrite [kv.ModRevision] with it; truncate the
    value to the original payload". *)
Definition spec_ResolveModRev (kv : KeyValue) : KeyValue :=
  if Z.of_nat (length (Value kv)) <? 8 then kv
  else mkKeyValue (Key kv) (CreateRevision kv) (spec_ResolveMetaRev kv) (Version kv)
                  (payload (Value kv)) (Lease kv).

(** Whether [actual <r> target] holds. *)
Definition holds (r : CompareResult) (actual target : Z) : bool :=
  match r with
  | EQUAL => actual =? target
  | GREATER => actual >? target
  | LESS => actual <? target
  | NOT_EQUAL => negb (actual =? target)
  end.

(** A comparison of the mod-revision with [metaRev] that the anchor's
    meta-revision [actual] fails. *)
Definition provably_false (actual metaRev : Z) (c : Compare) : bool :=
  match cmp_TargetUnion c with
  | Compare_ModRevision r => (r =? metaRev) && negb (holds (cmp_Result c) actual metaRev)
  | _ => false
  end.

(** Modelled from the spec: [PreflightTxn(metaRev, req, currentKVsResp)],
    not in this file: "given the member's current value for the anchor
    key, decide whether the txn's meta-rev comparisons would succeed.  If
    any comparison is provably false, synthesize a failure [TxnResponse]
    with [Succeeded = false] and revision [metaRev]". *)
Definition spec_PreflightTxn (metaRev : Z) (req : TxnRequest) (resp : RangeResponse)
    : Z * option TxnResponse :=
  match rs_Kvs resp with
  | [] => (0, None)
  | kv :: _ =>
      let actual := spec_ResolveMetaRev kv in
      if existsb (provably_false actual metaRev) (tx_Compare req)
      then (actual, Some (mkTxnResponse (Some (header_at metaRev)) false []))
      else (actual, None)
  end.

(** Modelled from the spec: package [scheme], not in this file, put
    together from the definitions above. *)
Definition SpecScheme : Scheme := {|
  MetaKey := spec_MetaKey;
  ResolveModRev := spec_ResolveModRev;
  ResolveMetaRev := spec_ResolveMetaRev;
  AppendMetaRevToTxOps := fun buf ops => map (appendMetaRev buf) ops;
  ValidateTxComparisons := fun cmps => validate_keys [] (map cmp_Key cmps);
  ValidateTxOps := fun key ops => validate_keys key (flat_map op_keys ops);
  PreflightTxn := spec_PreflightTxn |}.

(** ** Definitions that the statements below use *)

(** The error, if any, that the [n]-th next RPC to [s] meets. *)
Definition fault_at (s : Store) (n : nat) : option error :=
  match Faults s !! n with
  | Some (Some e) => Some e
  | _ => None
  end.

(** The live value of [key], a read of the current revision. *)
Definition current (key : bytes) (s : Store) : list KeyValue :=
  lookup_at key (Rev s) (History s).

(** [s] after one more RPC [c]; its data are the same. *)
Definition called (c : Call) (s : Store) : Store :=
  mkStore (Rev s) (CompactRev s) (History s) (tail (Faults s)) (c :: Calls s)
          (RangeReply s) (TxnReply s) (LeaseGrantReply s).

Definition set_coordinator (w : World) (s : Store) : World :=
  mkWorld s (members w) (GetMemberForKey w) (rand_source w) (rand_used w).

Definition set_members (w : World) (ms : list Store) : World :=
  mkWorld (coordinator w) ms (GetMemberForKey w) (rand_source w) (rand_used w).

Section Reference.

Context {scheme : Scheme}.

(** The decoded meta-clock value that a read of member [s] contributes to
    [reconstituteClock]: none when the read fails, when the member has no
    meta-clock key, or when its value is shorter than 8 bytes. *)
Definition member_clock (s : Store) : option Z :=
  match fault_at s 0 with
  | Some _ => None
  | None =>
      match current MetaKey s with
      | [] => None
      | kv :: _ =>
          if Z.of_nat (length (Value kv)) <? 8 then None
          else option_map int64 (Uint64 (Value kv))
      end
  end.

(** The largest of the values, and 0 when there is none. *)
Definition max0 (vs : list Z) : Z := fold_right Z.max 0 vs.

Definition member_clocks (w : World) : list Z := omap member_clock (members w).

Definition acc_clock (latest : Z) (s : Store) : Z :=
  match member_clock s with
  | Some rev => if rev >? latest then rev else latest
  | None => latest
  end.

(** The coordinator after [reconstituteClock] has rebuilt the clock to
    hold [buf]: the lock, the read, the put and the unlock were received,
    and the meta-clock key is created with value [buf]. *)
Definition rebuilt (c : Store) (buf : bytes) : Store :=
  let c2 := called (CallPut MetaKey buf)
              (called (CallGet MetaKey None) (called CallLock c)) in
  called CallUnlock
    (push_entry c2 (mkEntry (mkKeyValue MetaKey (Rev c + 1) (Rev c + 1) 1 buf 0) false)).

(** The coordinator after a [reconstituteClock] that wrote nothing. *)
Definition reread (c : Store) : Store :=
  called CallUnlock (called (CallGet MetaKey None) (called CallLock c)).

(** What [reconstituteClock(delta)] returns, as the specification words
    it: the decoded clock when the key is there, and otherwise [M + delta]
    for [M] the largest member clock. *)
Definition reconstituted_value (delta : Z) (w : World) : result Z :=
  let c := coordinator w in
  match fault_at c 1 with
  | Some e => Err (ErrGettingClock e)
  | None =>
      match current MetaKey c with
      | kv :: _ => Ok (ResolveMetaRev kv)
      | [] =>
          match fault_at c 2 with
          | Some e => Err e
          | None => Ok (int64 (max0 (member_clocks w) + delta))
          end
      end
  end.

(** The coordinator that [reconstituteClock(delta)] leaves: written to
    only when the key was missing, and then with [M + delta - 1]. *)
Definition reconstituted_coordinator (delta : Z) (w : World) : Store :=
  let c := coordinator w in
  let buf := PutUint64 (uint64 (max0 (member_clocks w) + delta - 1)) in
  match fault_at c 1 with
  | Some e => reread c
  | None =>
      match current MetaKey c with
      | kv :: _ => reread c
      | [] =>
          match fault_at c 2 with
          | Some e =>
              called CallUnlock (called (CallPut MetaKey buf)
                (called (CallGet MetaKey None) (called CallLock c)))
          | None => rebuilt c buf
          end
      end
  end.

End Reference.

(** etcd numbers its revisions from 1 and gives the first write revision
    2, so a key's mod-revision is at least 2; it is an [int64]. *)
Definition etcd_revisions (s : Store) : Prop :=
  Forall (fun e => 2 <= ModRevision (entry_kv e) <= MaxInt64) (History s).

(** How many revisions of [key] a read as of revision [z] can see. *)
Fixpoint visible (key : bytes) (z : Z) (h : list Entry) : nat :=
  match h with
  | [] => O
  | e :: h' =>
      if bytes_eqb (Key (entry_kv e)) key && (ModRevision (entry_kv e) <=? z)
      then S (visible key z h')
      else visible key z h'
  end.

(** The revisions that [getMemberRev] probed, latest first: the reads
    with [WithRev] in a call log. *)
Definition probe_of (c : Call) : option Z :=
  match c with
  | CallGet _ (Some r) => Some r
  | _ => None
  end.

Definition probes (calls : list Call) : list Z := omap probe_of calls.

Definition key_le (a b : KeyValue) : Prop := key_less b a = false.

(** [s] after [n] reads of [key]. *)
Definition after_reads (key : bytes) (n : nat) (s : Store) : Store :=
  Nat.iter n (called (CallGet key None)) s.

(** A comparison that the loop of [Txn] passes over. *)
Definition skipped (c : Compare) : Prop :=
  match cmp_TargetUnion c with
  | Compare_ModRevision r => r = 0
  | _ => True
  end.

(** The keys that a transaction compares or mutates. *)
Definition mutated_keys (op : RequestOp) : list bytes :=
  match op with
  | RequestOp_RequestPut p => [pr_Key p]
  | RequestOp_RequestDeleteRange d => [dr_Key d]
  | _ => []
  end.

Definition compared_or_mutated (req : TxnRequest) : list bytes :=
  map cmp_Key (tx_Compare req) ++ flat_map mutated_keys (tx_Success req)
    ++ flat_map mutated_keys (tx_Failure req).

(** All the keys that a transaction names. *)
Definition referenced (req : TxnRequest) : list bytes :=
  map cmp_Key (tx_Compare req) ++ flat_map op_keys (tx_Success req)
    ++ flat_map op_keys (tx_Failure req).

(** What the loop of [Txn] makes of a comparison when the anchor key is
    not on the member. *)
Definition zero_target (c : Compare) : Compare :=
  match cmp_TargetUnion c with
  | Compare_ModRevision r => if r =? 0 then c else set_ModRevision c 0
  | _ => c
  end.

(** The comparisons that the loop reads the member for. *)
Definition resolved (c : Compare) : bool :=
  match cmp_TargetUnion c with
  | Compare_ModRevision r => negb (r =? 0)
  | _ => false
  end.

Definition resolved_reads (cmps : list Compare) : nat := length (List.filter resolved cmps).

(** ** Sample worlds and requests, after the scenarios of the specification *)

Definition no_range : RangeRequest -> RangeResponse :=
  fun _ => mkRangeResponse (Some (header_at 1)) [] false 0.
Definition no_txn : TxnRequest -> TxnResponse :=
  fun _ => mkTxnResponse (Some (header_at 1)) true [].
Definition grant : LeaseGrantRequest -> LeaseGrantResponse :=
  fun r => mkLeaseGrantResponse (Some (header_at 1)) (lg_ID r) (lg_TTL r) EmptyString.

(** A cluster nobody has written to: etcd starts at revision 1. *)
Definition fresh_store : Store := mkStore 1 0 [] [] [] no_range no_txn grant.

(** A member whose last write transaction ran under meta-revision 7. *)
Definition member_at_7 : Store :=
  mkStore 5 0
    [ mkEntry (mkKeyValue spec_MetaKey 2 5 3 (PutUint64 7) 0) false;
      mkEntry (mkKeyValue [107] 4 4 1 ([120] ++ PutUint64 6) 0) false;
      mkEntry (mkKeyValue spec_MetaKey 2 3 2 (PutUint64 6) 0) false;
      mkEntry (mkKeyValue spec_MetaKey 2 2 1 (PutUint64 4) 0) false ]
    [] [] no_range no_txn grant.

(** The coordinator has lost its clock; one member has seen writes. *)
Definition clock_lost : World :=
  mkWorld fresh_store [member_at_7; fresh_store] (fun _ => O) (fun _ => 0) O.

(** Nothing was ever written anywhere, and the random source is about to
    return 0. *)
Definition fresh_world : World :=
  mkWorld fresh_store [fresh_store; fresh_store] (fun _ => O) (fun _ => 0) O.

(** A store whose meta-clock key has mod-revision 1, which etcd never
    gives a key. *)
Definition revision_1_store (calls : list Call) : Store :=
  mkStore 1 0 [mkEntry (mkKeyValue spec_MetaKey 1 1 1 (PutUint64 9) 0) false]
          [] calls no_range no_txn grant.

(** Insertion sort: one algorithm that keeps the promise of [sort.Slice]. *)
Fixpoint insert_sorted (less : KeyValue -> KeyValue -> bool) (x : KeyValue)
    (l : list KeyValue) : list KeyValue :=
  match l with
  | [] => [x]
  | y :: l' => if less x y then x :: l else y :: insert_sorted less x l'
  end.

Fixpoint insertion_sort (less : KeyValue -> KeyValue -> bool) (l : list KeyValue)
    : list KeyValue :=
  match l with
  | [] => []
  | x :: l' => insert_sorted less x (insertion_sort less l')
  end.

Definition kv_a : KeyValue := mkKeyValue [97] 2 3 1 ([120] ++ PutUint64 7) 0.
Definition kv_b : KeyValue := mkKeyValue [98] 2 3 1 ([121] ++ PutUint64 8) 0.

Definition member_with (kv : KeyValue) : Store :=
  mkStore 3 0 [] [] [] (fun _ => mkRangeResponse (Some (header_at 3)) [kv] false 1)
          no_txn grant.

(** The member that owns "b" answers first. *)
Definition two_members : World :=
  mkWorld fresh_store [member_with kv_b; member_with kv_a]
          (fun key => match key with [97] => 1%nat | _ => O end) (fun _ => 0) O.

Definition range_a_z : RangeRequest := mkRangeRequest [97] [122] 1 8 false false.

(** The coordinator's clock reads 11. *)
Definition coordinator_at_11 : Store :=
  mkStore 12 0 [mkEntry (mkKeyValue spec_MetaKey 2 12 11 (PutUint64 11) 0) false]
          [] [] no_range no_txn grant.

Definition txn_world : World :=
  mkWorld coordinator_at_11 [member_at_7; fresh_store] (fun _ => O) (fun _ => 0) O.

(** "k" was written at meta-revision 6; the transaction expects 5. *)
Definition stale_compare : Compare := mkCompare EQUAL MOD [107] [] (Compare_ModRevision 5).

Definition stale_txn : TxnRequest :=
  mkTxnRequest [stale_compare]
    [RequestOp_RequestPut (mkPutRequest [107] [121] 0 false false false)] [].

Definition k_on_member : KeyValue := mkKeyValue [107] 4 4 1 ([120] ++ PutUint64 6) 0.

Definition preflight_response : TxnResponse := mkTxnResponse (Some (header_at 5)) false [].

Definition cross_shard_txn : TxnRequest :=
  mkTxnRequest []
    [ RequestOp_RequestPut (mkPutRequest [97] [49] 0 false false false);
      RequestOp_RequestPut (mkPutRequest [98] [50] 0 false false false) ] [].

Definition put_k : TxnRequest :=
  mkTxnRequest []
    [RequestOp_RequestPut (mkPutRequest [107] [121] 0 false false false)]
    [RequestOp_RequestRange (mkRangeRequest [107] [] 0 0 false false)].

(** What the member is sent for [put_k] under meta-revision 11. *)
Definition put_k_sent : TxnRequest :=
  mkTxnRequest []
    [ RequestOp_RequestPut (mkPutRequest [107] ([121] ++ PutUint64 11) 0 false false false);
      RequestOp_RequestPut (mkPutRequest spec_MetaKey (PutUint64 11) 0 false false false) ]
    [ RequestOp_RequestRange (mkRangeRequest [107] [] 0 0 false false);
      RequestOp_RequestPut (mkPutRequest spec_MetaKey (PutUint64 11) 0 false false false) ].

Definition absent_compare : Compare := mkCompare EQUAL MOD [110] [] (Compare_ModRevision 5).

Definition absent_txn : TxnRequest :=
  mkTxnRequest [absent_compare]
    [RequestOp_RequestPut (mkPutRequest [110] [121] 0 false false false)] [].

(** The member deletes "k" at its revision 6. *)
Definition deleting_member : Store :=
  mkStore 5 0 [mkEntry k_on_member false] [] [] no_range
    (fun _ => mkTxnResponse (Some (header_at 6)) true
                [ ResponseOp_ResponseDeleteRange
                    (mkDeleteRangeResponse (Some (header_at 6)) 1 []);
                  ResponseOp_ResponsePut (mkPutResponse (Some (header_at 6)) None) ])
    grant.

Definition delete_world : World :=
  mkWorld coordinator_at_11 [deleting_member] (fun _ => O) (fun _ => 0) O.

Definition delete_k : TxnRequest :=
  mkTxnRequest [] [RequestOp_RequestDeleteRange (mkDeleteRangeRequest [107] [] false)] [].

(** ** Compaction *)

Record CompactionRequest := mkCompactionRequest {
  cr_Revision : Z;
  cr_Physical : bool }.

Record CompactionResponse := mkCompactionResponse {
  cp_Header : option ResponseHeader }.

(** [client.KV.Compact(ctx, req)]: etcd refuses a revision that is
    compacted already ([ErrCompacted]) or that it has not reached yet
    ([ErrFutureRev]); otherwise the reads below [req.Revision] are refused
    from now on.  The call consumes one entry of the fault schedule; it
    shows in [CompactRev], not in the call log. *)
Definition store_Compact (req : CompactionRequest) : St unit := fun s =>
  let s1 := mkStore (Rev s) (CompactRev s) (History s) (tail (Faults s))
                    (Calls s) (RangeReply s) (TxnReply s) (LeaseGrantReply s) in
  match Faults s with
  | Some e :: _ => (Err e, s1)
  | _ =>
      if cr_Revision req <=? CompactRev s then (Err ErrCompacted, s1)
      else if Rev s <? cr_Revision req then (Err ErrFutureRev, s1)
      else (Ok tt,
            mkStore (Rev s) (cr_Revision req) (History s) (tail (Faults s))
                    (Calls s) (RangeReply s) (TxnReply s) (LeaseGrantReply s))
  end.

Section Compaction.

Context {scheme : Scheme}.

(** [getMemberRev] and then [KV.Compact] with [reqCopy], on one cluster. *)
Definition compactAt (fuel : nat) (req : CompactionRequest) : St unit :=
  rev <- getMemberRev fuel (cr_Revision req) ;;
  store_Compact (mkCompactionRequest rev (cr_Physical req)).

(** The callback of [Compact]. *)
Definition compactMember (fuel : nat) (req : CompactionRequest) (cs : nat) (_ : unit)
    : M unit :=
  rev <- onMember cs (getMemberRev fuel (cr_Revision req)) ;;
  onMember cs (store_Compact (mkCompactionRequest rev (cr_Physical req))).

Definition Compact (fuel : nat) (req : CompactionRequest) : M CompactionResponse :=
  r <- IterateMembers (compactMember fuel req) tt ;;
  match snd r with
  | Some e => fail e
  | None =>
      rev <- onCoordinator (getMemberRev fuel (cr_Revision req)) ;;
      _ <- onCoordinator (store_Compact (mkCompactionRequest rev (cr_Physical req))) ;;
      ret (mkCompactionResponse None)
  end.

End Compaction.

(** ** Definitions that the further statements use *)

(** What a fan-out makes of the member list when the callback for a
    member touches that member only: [step s a] is the callback on member
    [s] with the accumulator at [a]. *)
Fixpoint fan_out {A} (step : Store -> A -> result A * Store) (ms : list Store) (a : A)
    (first : option error) : result (A * option error) * list Store :=
  match ms with
  | [] => (Ok (a, first), [])
  | s :: ms' =>
      match step s a with
      | (Ok a', s') =>
          let (r, ms'') := fan_out step ms' a' first in (r, s' :: ms'')
      | (Err e, s') =>
          let (r, ms'') :=
            fan_out step ms' a (match first with None => Some e | Some _ => first end) in
          (r, s' :: ms'')
      | (Panic, s') => (Panic, s' :: ms')
      | (OutOfFuel, s') => (OutOfFuel, s' :: ms')
      end
  end.

(** The calls that read. *)
Definition is_read (c : Call) : Prop :=
  match c with
  | CallGet _ _ | CallRange _ => True
  | _ => False
  end.

(** [s'] is [s] after some reads: the same data, a longer call log. *)
Definition reads_only (s s' : Store) : Prop :=
  Rev s' = Rev s /\ CompactRev s' = CompactRev s /\ History s' = History s /\
  exists new, Calls s' = new ++ Calls s /\ Forall is_read new.

(** The meta-revision that [getMemberRev] decodes from a revision of the
    meta-clock key. *)
Definition clock_value (e : Entry) : option Z :=
  option_map int64 (Uint64 (Value (entry_kv e))).

(** A revision of the meta-clock key that is live and holds a
    meta-revision above [metaRev]. *)
Definition too_new {scheme : Scheme} (metaRev : Z) (e : Entry) : Prop :=
  entry_deleted e = false /\ exists v, clock_value e = Some v /\ metaRev < v.

(** An MVCC history, newest first: revisions do not go up, and go down
    from one revision of a key to the one before. *)
Definition newest_first (h : list Entry) : Prop :=
  StronglySorted
    (fun a b => ModRevision (entry_kv b) <= ModRevision (entry_kv a) /\
                (Key (entry_kv a) = Key (entry_kv b) ->
                 ModRevision (entry_kv b) < ModRevision (entry_kv a))) h.

(** What [getMemberRev] answers for the target [metaRev] on a history
    [h] whose current revision is [rev]: the revision [r] of the newest
    write of the meta-clock key that carries a meta-revision at or below
    the target, or the current revision when the walk back through the
    writes comes to a revision [z] at which the key is not there. *)
Definition resolved_at {scheme : Scheme} (metaRev : Z) (h : list Entry) (rev r : Z) : Prop :=
  (exists e,
      In e h /\ Key (entry_kv e) = MetaKey /\ entry_deleted e = false /\
      ModRevision (entry_kv e) = r /\
      (exists v, clock_value e = Some v /\ v <= metaRev) /\
      forall e', In e' h -> Key (entry_kv e') = MetaKey ->
                 r < ModRevision (entry_kv e') <= rev -> too_new metaRev e')
  \/ (r = rev /\
      exists z, z <= rev /\ lookup_at MetaKey z h = [] /\
        forall e', In e' h -> Key (entry_kv e') = MetaKey ->
                   z < ModRevision (entry_kv e') <= rev -> too_new metaRev e').

(** What [rangeWithClient] does on the member whose client it is given. *)
Definition rangeOnMember {scheme : Scheme} (fuel : nat) (req : RangeRequest) (metaRev : Z)
    (resp : RangeResponse) : St RangeResponse :=
  memberRev <- getMemberRev fuel metaRev ;;
  let reqCopy := mkRangeRequest (rr_Key req) (rr_RangeEnd req) (rr_Limit req)
                                memberRev (rr_KeysOnly req) (rr_CountOnly req) in
  r <- wrap_err (ErrRanging memberRev) (store_Range reqCopy) ;;
  let count := int64 (rs_Count resp + rs_Count r) in
  if rr_CountOnly req
  then ret (mkRangeResponse (rs_Header resp) (rs_Kvs resp) (rs_More resp) count)
  else ret (mkRangeResponse (rs_Header resp)
                            (rs_Kvs resp ++ map ResolveModRev (rs_Kvs r))
                            (rs_More resp) count).

(** The error, if any, that the grant of [req] meets on member [s]: the
    call fails, or the member answers with an error text. *)
Definition grant_error (req : LeaseGrantRequest) (s : Store) : option error :=
  match fault_at s 0 with
  | Some e => Some e
  | None =>
      let resp := LeaseGrantReply s req in
      if negb (String.eqb (ls_Error resp) EmptyString)
      then Some (ErrLease (ls_Error resp))
      else None
  end.

(** [s'] is [s] compacted at the revision that [getMemberRev] resolves
    [metaRev] to. *)
Definition compacted_at {scheme : Scheme} (fuel : nat) (metaRev : Z) (s s' : Store) : Prop :=
  exists rev s1,
    getMemberRev fuel metaRev s = (Ok rev, s1) /\
    CompactRev s < rev <= Rev s /\
    CompactRev s' = rev /\ Rev s' = Rev s /\ History s' = History s.

(** The answer of member [s] to a range read at [metaRev], and [s]
    after it: there is one when [getMemberRev] resolves the revision and
    the member's range call does not fail. *)
Definition member_answer {scheme : Scheme} (fuel : nat) (req : RangeRequest) (metaRev : Z)
    (s : Store) : option (RangeResponse * Store) :=
  match getMemberRev fuel metaRev s with
  | (Ok memberRev, s1) =>
      let sent := mkRangeRequest (rr_Key req) (rr_RangeEnd req) (rr_Limit req)
                                 memberRev (rr_KeysOnly req) (rr_CountOnly req) in
      match fault_at s1 0 with
      | None => Some (RangeReply s1 sent, called (CallRange sent) s1)
      | Some _ => None
      end
  | _ => None
  end.

(** [resp] after [rangeWithClient] has added the member's answer [r]. *)
Definition merge_answer {scheme : Scheme} (req : RangeRequest) (resp r : RangeResponse)
    : RangeResponse :=
  mkRangeResponse (rs_Header resp)
    (if rr_CountOnly req then rs_Kvs resp else rs_Kvs resp ++ map ResolveModRev (rs_Kvs r))
    (rs_More resp) (int64 (rs_Count resp + rs_Count r)).

(** ** Further sample worlds *)

(** A member whose meta-clock key holds three bytes. *)
Definition member_short_clock : Store :=
  mkStore 2 0 [mkEntry (mkKeyValue spec_MetaKey 2 2 1 [1; 2; 3] 0) false]
          [] [] no_range no_txn grant.

Definition short_clock_world : World :=
  mkWorld fresh_store [member_short_clock] (fun _ => O) (fun _ => 0) O.

(** A member like [member_at_7] whose next call fails. *)
Definition member_down : Store :=
  mkStore 5 0 (History member_at_7) [Some ErrUnavailable] [] no_range no_txn grant.

(** A member that nobody wrote to, whose second call fails. *)
Definition member_range_down : Store :=
  mkStore 3 0 [] [None; Some ErrUnavailable] [] no_range no_txn grant.

Definition down_world : World :=
  mkWorld coordinator_at_11 [member_down] (fun _ => O) (fun _ => 0) O.

Definition range_down_world : World :=
  mkWorld coordinator_at_11 [member_range_down] (fun _ => O) (fun _ => 0) O.

(** The pool has no member for any key. *)
Definition no_owner_world : World :=
  mkWorld coordinator_at_11 [member_at_7] (fun _ => 1%nat) (fun _ => 0) O.

(** The coordinator has lost its clock and the only member is down. *)
Definition clock_lost_members_down : World :=
  mkWorld fresh_store [member_down] (fun _ => O) (fun _ => 0) O.

Definition half_down_world : World :=
  mkWorld coordinator_at_11 [member_at_7; member_down] (fun _ => O) (fun _ => 0) O.

(** A point read of "a" at meta-revision 8. *)
Definition get_a : RangeRequest := mkRangeRequest [97] [] 0 8 false false.

(** A point read of "a" at the current meta-revision. *)
Definition get_a_now : RangeRequest := mkRangeRequest [97] [] 0 0 false false.

(** "k" was written at meta-revision 6, and the transaction expects 6. *)
Definition fresh_compare : Compare := mkCompare EQUAL MOD [107] [] (Compare_ModRevision 6).

Definition fresh_txn : TxnRequest :=
  mkTxnRequest [fresh_compare]
    [RequestOp_RequestPut (mkPutRequest [107] [121] 0 false false false)] [].

Definition compact_6 : CompactionRequest := mkCompactionRequest 6 false.

Definition grant_7 : LeaseGrantRequest := mkLeaseGrantRequest 60 7.

(** The coordinator is unreachable. *)
Definition coordinator_down : Store :=
  mkStore 12 0 (History coordinator_at_11) [Some ErrUnavailable] [] no_range no_txn grant.

Definition clock_down_world : World :=
  mkWorld coordinator_down [member_at_7; fresh_store] (fun _ => O) (fun _ => 0) O.

(** The range from "a" to "z" at meta-revision 8, without limit. *)
Definition range_a_z_all : RangeRequest := mkRangeRequest [97] [122] 0 8 false false.

(** What a member of [two_members] is sent for it, and the two answers. *)
Definition range_a_z_sent : RangeRequest := mkRangeRequest [97] [122] 0 3 false false.

Definition two_answers : list (RangeResponse * Store) :=
  [ (mkRangeResponse (Some (header_at 3)) [kv_b] false 1,
     called (CallRange range_a_z_sent) (called (CallGet spec_MetaKey None) (member_with kv_b)));
    (mkRangeResponse (Some (header_at 3)) [kv_a] false 1,
     called (CallRange range_a_z_sent) (called (CallGet spec_MetaKey None) (member_with kv_a))) ].

(** * Properties *)

(** ** Machine integers and bytes *)

Lemma int64_id z : in_int64 z -> int64 z = z.
Proof.
  unfold in_int64, MinInt64, MaxInt64, int64. intros Hz.
  rewrite Z.mod_small; lia.
Qed.

Lemma int64_range z : in_int64 (int64 z).
Proof.
  unfold in_int64, MinInt64, MaxInt64, int64.
  pose proof (Z.mod_pos_bound (z + 2 ^ 63) (2 ^ 64)). lia.
Qed.

Lemma uint64_int64 z : uint64 (int64 z) = uint64 z.
Proof.
  unfold uint64, int64.
  replace ((z + 2 ^ 63) mod 2 ^ 64 - 2 ^ 63)
    with ((z + 2 ^ 63) mod 2 ^ 64 + (- 2 ^ 63)) by lia.
  rewrite Zplus_mod_idemp_l. f_equal. lia.
Qed.

(** [uint64(T) - 1] in unsigned arithmetic is [T - 1] modulo [2^64]. *)
Lemma uint64_pred z : uint64 (uint64 (int64 z) - 1) = uint64 (z - 1).
Proof.
  rewrite uint64_int64. unfold uint64.
  rewrite Zminus_mod_idemp_l. reflexivity.
Qed.

Lemma Uint64_Some b : (8 <= length b)%nat -> exists u, Uint64 b = Some u.
Proof.
  intros Hlen.
  do 8 (destruct b as [| ? b]; [simpl in Hlen; lia |]).
  simpl. eauto.
Qed.

Lemma Uint64_None b : (length b < 8)%nat -> Uint64 b = None.
Proof.
  intros Hlen.
  do 8 (destruct b as [| ? b]; [reflexivity |]).
  simpl in Hlen. lia.
Qed.

(** Byte [k / 8] of [v], back in its place. *)
Lemma testbit_byte_at v k n :
  0 <= k -> 0 <= n ->
  Z.testbit (Z.shiftl (byte_of (Z.shiftr v k)) k) n
  = (k <=? n) && (n <? k + 8) && Z.testbit v n.
Proof.
  intros Hk Hn. unfold byte_of. rewrite Z.shiftl_spec by lia.
  destruct (Z.leb_spec k n) as [Hle | Hlt]; simpl.
  - rewrite Z.land_spec, Z.shiftr_spec by lia. change 255 with (Z.ones 8).
    replace (n - k + k) with n by lia.
    destruct (Z.ltb_spec n (k + 8)); simpl.
    + rewrite Z.ones_spec_low by lia. apply andb_true_r.
    + rewrite Z.ones_spec_high by lia. apply andb_false_r.
  - apply Z.testbit_neg_r. lia.
Qed.

Ltac decide_cmp :=
  repeat match goal with
  | |- context [?a <=? ?b] =>
      first [rewrite (proj2 (Z.leb_le a b)) by lia | rewrite (proj2 (Z.leb_gt a b)) by lia]
  | |- context [?a <? ?b] =>
      first [rewrite (proj2 (Z.ltb_lt a b)) by lia | rewrite (proj2 (Z.ltb_ge a b)) by lia]
  end.

(** Reading back what [PutUint64] wrote gives the low 64 bits. *)
Lemma Uint64_PutUint64 v : Uint64 (PutUint64 v) = Some (uint64 v).
Proof.
  unfold Uint64, PutUint64, uint64. f_equal.
  apply Z.bits_inj'. intros n Hn.
  rewrite <- (Z.shiftl_0_r (byte_of v)).
  rewrite <- (Z.shiftr_0_r v) at 1.
  rewrite !Z.lor_spec, !testbit_byte_at by lia.
  assert (Hcase : n < 8 \/ 8 <= n < 16 \/ 16 <= n < 24 \/ 24 <= n < 32 \/ 32 <= n < 40 \/
                  40 <= n < 48 \/ 48 <= n < 56 \/ 56 <= n < 64 \/ 64 <= n) by lia.
  destruct Hcase as [H | [H | [H | [H | [H | [H | [H | [H | H]]]]]]]];
    decide_cmp; cbn [andb orb];
    rewrite ?orb_false_r;
    first [rewrite Z.mod_pow2_bits_low by lia | rewrite Z.mod_pow2_bits_high by lia];
    reflexivity.
Qed.

Lemma uint64_idem v : uint64 (uint64 v) = uint64 v.
Proof. unfold uint64. apply Z.mod_mod. lia. Qed.

(** ** Clusters *)

Lemma rpc_fault {A} c (body : St A) s e :
  fault_at s 0 = Some e -> rpc c body s = (Err e, called c s).
Proof.
  unfold fault_at, rpc, called. destruct (Faults s) as [| [e' |] fs]; simpl; try discriminate.
  intros [= ->]. reflexivity.
Qed.

Lemma rpc_ok {A} c (body : St A) s :
  fault_at s 0 = None -> rpc c body s = body (called c s).
Proof.
  unfold fault_at, rpc, called. destruct (Faults s) as [| [e' |] fs]; simpl; try discriminate;
    reflexivity.
Qed.

Lemma fault_at_called c s n : fault_at (called c s) n = fault_at s (S n).
Proof.
  unfold fault_at, called. simpl. destruct (Faults s); reflexivity.
Qed.

Lemma store_Get_current key s :
  fault_at s 0 = None ->
  store_Get key None s
  = (Ok (get_response s (current key s)), called (CallGet key None) s).
Proof. intros Hf. unfold store_Get. rewrite rpc_ok by assumption. reflexivity. Qed.

Lemma onCoordinator_eq {A} (op : St A) w :
  onCoordinator op w = (fst (op (coordinator w)), set_coordinator w (snd (op (coordinator w)))).
Proof. unfold onCoordinator, set_coordinator. destruct (op (coordinator w)). reflexivity. Qed.

Lemma rpc_unit_snd c s : snd (rpc c (ret tt) s) = called c s.
Proof.
  unfold rpc, called, ret. destruct (Faults s) as [| [e |] fs]; reflexivity.
Qed.

Lemma onCoordinator_unit_snd c w :
  snd (onCoordinator (rpc c (ret tt)) w) = set_coordinator w (called c (coordinator w)).
Proof. rewrite onCoordinator_eq. cbn [snd]. rewrite rpc_unit_snd. reflexivity. Qed.

Lemma store_Put_ok key value s :
  fault_at s 0 = None ->
  store_Put key value s
  = (Ok tt,
     push_entry (called (CallPut key value) s)
       (mkEntry (match current key s with
                 | old :: _ =>
                     mkKeyValue key (CreateRevision old) (Rev s + 1) (Version old + 1) value 0
                 | [] => mkKeyValue key (Rev s + 1) (Rev s + 1) 1 value 0
                 end) false)).
Proof. intros Hf. unfold store_Put. rewrite rpc_ok by assumption. reflexivity. Qed.

(** A call through the client of the member at position [length pre]
    touches that member only. *)
Lemma onMember_middle {A} (op : St A) pre s rest c g rs ru :
  onMember (length pre) op (mkWorld c (pre ++ s :: rest) g rs ru)
  = (fst (op s), mkWorld c (pre ++ snd (op s) :: rest) g rs ru).
Proof.
  unfold onMember. simpl. rewrite list_lookup_middle by reflexivity.
  destruct (op s) as [r s']. simpl.
  rewrite insert_app_r_alt by lia. rewrite Nat.sub_diag. reflexivity.
Qed.

Lemma snoc_app {A} (pre : list A) x rest : pre ++ x :: rest = (pre ++ [x]) ++ rest.
Proof. rewrite <- app_assoc. reflexivity. Qed.

Lemma seq_snoc_length {A} (pre : list A) (x : A) n :
  seq (S (length pre)) n = seq (length (pre ++ [x])) n.
Proof. rewrite length_app. simpl. f_equal. lia. Qed.

(** ** Clock service *)

Section ClockProperties.

Context {scheme : Scheme}.

Lemma fold_acc_clock ms a :
  0 <= a -> fold_left acc_clock ms a = Z.max a (max0 (omap member_clock ms)).
Proof.
  revert a. induction ms as [| s ms IH]; intros a Ha; simpl.
  - unfold max0. simpl. lia.
  - unfold acc_clock at 2. destruct (member_clock s) as [rev |]; simpl;
      change (list_omap Store Z member_clock ms) with (omap member_clock ms).
    + destruct (Z.gtb_spec rev a); rewrite IH by lia; lia.
    + apply IH, Ha.
Qed.

Lemma max0_nonneg vs : 0 <= max0 vs.
Proof. induction vs; simpl; lia. Qed.

Lemma max0_upper vs v : In v vs -> v <= max0 vs.
Proof.
  induction vs as [| x vs IH]; simpl; [tauto |].
  intros [-> | Hin]; [| specialize (IH Hin)]; lia.
Qed.

Lemma max0_attained vs : max0 vs = 0 \/ In (max0 vs) vs.
Proof.
  induction vs as [| x vs IH]; simpl; [auto |].
  destruct (Z.max_spec x (max0 vs)) as [[_ ->] | [_ ->]]; tauto.
Qed.

Lemma readMemberClock_middle pre s rest a c g rs ru :
  readMemberClock (length pre) a (mkWorld c (pre ++ s :: rest) g rs ru)
  = (match fault_at s 0 with Some e => Err e | None => Ok (acc_clock a s) end,
     mkWorld c (pre ++ called (CallGet MetaKey None) s :: rest) g rs ru).
Proof.
  unfold readMemberClock, bind. rewrite onMember_middle.
  unfold acc_clock, member_clock.
  destruct (fault_at s 0) as [e |] eqn:Hf.
  - unfold store_Get. rewrite (rpc_fault _ _ _ _ Hf). reflexivity.
  - rewrite (store_Get_current _ _ Hf). simpl.
    destruct (current MetaKey s) as [| kv kvs]; [reflexivity |].
    destruct (Z.ltb_spec (Z.of_nat (length (Value kv))) 8) as [Hlt | Hge]; [reflexivity |].
    destruct (Uint64_Some (Value kv)) as [u ->]; [lia |]. reflexivity.
Qed.

Lemma iterate_readMemberClock rest :
  forall pre a first c g rs ru,
  exists first' rest',
    length rest' = length rest /\
    iterate readMemberClock (seq (length pre) (length rest)) a first
            (mkWorld c (pre ++ rest) g rs ru)
    = (Ok (fold_left acc_clock rest a, first'), mkWorld c (pre ++ rest') g rs ru).
Proof.
  induction rest as [| s rest IH]; intros pre a first c g rs ru.
  - exists first, []. split; reflexivity.
  - cbn [length seq iterate]. rewrite readMemberClock_middle.
    rewrite (seq_snoc_length pre (called (CallGet MetaKey None) s)).
    rewrite (snoc_app pre (called (CallGet MetaKey None) s) rest).
    destruct (fault_at s 0) as [e |] eqn:Hf.
    + destruct (IH (pre ++ [called (CallGet MetaKey None) s]) a
                   (match first with None => Some e | Some _ => first end) c g rs ru)
        as (first' & rest' & Hlen & ->).
      exists first', (called (CallGet MetaKey None) s :: rest').
      split; [simpl; congruence |].
      rewrite (snoc_app pre _ rest'). cbn [fold_left].
      replace (acc_clock a s) with a; [reflexivity |].
      unfold acc_clock, member_clock. rewrite Hf. reflexivity.
    + destruct (IH (pre ++ [called (CallGet MetaKey None) s]) (acc_clock a s)
                   first c g rs ru) as (first' & rest' & Hlen & ->).
      exists first', (called (CallGet MetaKey None) s :: rest').
      split; [simpl; congruence |].
      rewrite (snoc_app pre _ rest'). reflexivity.
Qed.

(** The fan-out of [reconstituteClock] returns the largest member clock,
    never panics, and leaves the coordinator alone. *)
Lemma IterateMembers_readMemberClock w :
  exists err ms',
    length ms' = length (members w) /\
    IterateMembers readMemberClock 0 w
    = (Ok (max0 (member_clocks w), err), set_members w ms').
Proof.
  destruct w as [c ms g rs ru]. unfold IterateMembers, member_clocks, set_members. simpl.
  destruct (iterate_readMemberClock ms [] 0 None c g rs ru) as (first' & rest' & Hlen & Heq).
  simpl in Heq. rewrite Heq. exists first', rest'. split; [exact Hlen |].
  rewrite fold_acc_clock by lia.
  pose proof (max0_nonneg (omap member_clock ms)). rewrite Z.max_r by lia. reflexivity.
Qed.

Lemma reconstituteClock_eq delta w :
  exists ms',
    length ms' = length (members w) /\
    reconstituteClock delta w
    = (reconstituted_value delta w,
       set_members (set_coordinator w (reconstituted_coordinator delta w)) ms').
Proof.
  unfold reconstituteClock, reconstituted_value, reconstituted_coordinator.
  rewrite onCoordinator_unit_snd.
  set (c := coordinator w). set (M := max0 (member_clocks w)).
  set (buf := PutUint64 (uint64 (M + delta - 1))).
  set (w1 := set_coordinator w (called CallLock c)).
  unfold bind at 1, wrap_err. rewrite onCoordinator_eq.
  change (coordinator w1) with (called CallLock c).
  destruct (fault_at c 1) as [e |] eqn:Hget.
  - unfold store_Get. rewrite (rpc_fault _ _ _ e) by (rewrite fault_at_called; exact Hget).
    cbn [fst snd]. rewrite onCoordinator_unit_snd. exists (members w).
    split; reflexivity.
  - rewrite store_Get_current by (rewrite fault_at_called; exact Hget).
    cbn [fst snd get_response rs_Kvs].
    change (current MetaKey (called CallLock c)) with (current MetaKey c).
    destruct (current MetaKey c) as [| kv kvs] eqn:Hcur.
    + set (w2 := set_coordinator w1 _).
      destruct (IterateMembers_readMemberClock w2) as (err & ms' & Hlen & Hit).
      unfold bind. rewrite Hit. cbn [fst].
      change (member_clocks w2) with (member_clocks w). fold M.
      rewrite uint64_pred. fold buf.
      rewrite onCoordinator_eq.
      change (coordinator (set_members w2 ms'))
        with (called (CallGet MetaKey None) (called CallLock c)).
      exists ms'. split; [exact Hlen |].
      destruct (fault_at c 2) as [e |] eqn:Hput.
      * unfold store_Put. rewrite (rpc_fault _ _ _ e)
          by (rewrite !fault_at_called; exact Hput).
        cbn [fst snd]. rewrite onCoordinator_unit_snd. reflexivity.
      * rewrite store_Put_ok by (rewrite !fault_at_called; exact Hput).
        change (current MetaKey (called (CallGet MetaKey None) (called CallLock c)))
          with (current MetaKey c).
        rewrite Hcur. cbn [fst snd ret]. rewrite onCoordinator_unit_snd.
        reflexivity.
    + cbn [ret fst snd]. rewrite onCoordinator_unit_snd. exists (members w).
      split; reflexivity.
Qed.

Lemma current_rebuilt c buf :
  current MetaKey (rebuilt c buf) = [mkKeyValue MetaKey (Rev c + 1) (Rev c + 1) 1 buf 0].
Proof.
  unfold current, rebuilt. simpl. unfold bytes_eqb.
  rewrite bool_decide_eq_true_2 by reflexivity.
  rewrite Z.leb_refl. reflexivity.
Qed.

(** C1. [reconstituteClock(delta)], once it holds the lock and has read
    the coordinator: when the meta-clock key is there it returns the
    decoded value and writes nothing; when it is not, it takes [M], the
    largest decoded meta-clock value of the members (0 when none has one),
    puts the 8-byte little-endian [M + delta - 1] under the coordinator's
    meta-clock key and returns [M + delta] (in [int64] arithmetic, which
    is [M + delta] itself whenever that is an [int64]).  [tick] calls it
    with 1 when the coordinator reports key-not-found, [now] with 0 when
    the key is absent. *)
Theorem reconstituteClock_spec (delta : Z) (w : World) :
  let c := coordinator w in
  let M := max0 (member_clocks w) in
  let buf := PutUint64 (uint64 (M + delta - 1)) in
  ((forall v, In v (member_clocks w) -> v <= M) /\
   (In M (member_clocks w) \/ M = 0)) /\
  (forall kv kvs,
     fault_at c 1 = None -> current MetaKey c = kv :: kvs ->
     fst (reconstituteClock delta w) = Ok (ResolveMetaRev kv) /\
     coordinator (snd (reconstituteClock delta w)) = reread c /\
     History (reread c) = History c /\ Rev (reread c) = Rev c) /\
  (fault_at c 1 = None -> current MetaKey c = [] -> fault_at c 2 = None ->
     fst (reconstituteClock delta w) = Ok (int64 (M + delta)) /\
     (in_int64 (M + delta) -> int64 (M + delta) = M + delta) /\
     coordinator (snd (reconstituteClock delta w)) = rebuilt c buf /\
     map Value (current MetaKey (rebuilt c buf)) = [buf] /\
     length buf = 8%nat /\ Uint64 buf = Some (uint64 (M + delta - 1))) /\
  (forall e w1,
     onCoordinator (store_Tick MetaKey) w = (Err e, w1) -> is_ErrKeyNotFound e = true ->
     tick w = reconstituteClock 1 w1) /\
  (forall resp w1,
     onCoordinator (store_Get MetaKey None) w = (Ok resp, w1) -> rs_Kvs resp = [] ->
     now w = reconstituteClock 0 w1).
Proof.
  intros c M buf.
  destruct (reconstituteClock_eq delta w) as (ms' & _ & Heq).
  unfold reconstituted_value, reconstituted_coordinator in Heq. fold c M buf in Heq.
  split; [| split; [| split; [| split]]].
  - split; [apply max0_upper |].
    destruct (max0_attained (member_clocks w)); auto.
  - intros kv kvs Hget Hcur. rewrite Heq, Hget, Hcur. repeat split; reflexivity.
  - intros Hget Hcur Hput. rewrite Heq, Hget, Hcur, Hput.
    split; [reflexivity |]. split; [apply int64_id |]. split; [reflexivity |].
    split; [rewrite current_rebuilt; reflexivity |]. split; [reflexivity |].
    unfold buf. rewrite Uint64_PutUint64, uint64_idem. reflexivity.
  - intros e w1 Htick He. unfold tick. rewrite Htick, He. reflexivity.
  - intros resp w1 Hget Hkvs. unfold now, bind, wrap_err. rewrite Hget, Hkvs. reflexivity.
Qed.

Lemma member_clock_range s v : member_clock s = Some v -> in_int64 v.
Proof.
  unfold member_clock. destruct (fault_at s 0); [discriminate |].
  destruct (current MetaKey s) as [| kv kvs]; [discriminate |].
  destruct (Z.of_nat (length (Value kv)) <? 8); [discriminate |].
  destruct (Uint64 (Value kv)) as [u |]; [| discriminate].
  intros [= <-]. apply int64_range.
Qed.

Lemma max0_range vs : Forall in_int64 vs -> 0 <= max0 vs <= MaxInt64.
Proof.
  induction 1 as [| v vs Hv _ IH]; simpl.
  - unfold MaxInt64. lia.
  - unfold in_int64 in Hv. lia.
Qed.

Lemma member_clocks_range w : 0 <= max0 (member_clocks w) <= MaxInt64.
Proof.
  apply max0_range. unfold member_clocks. apply Forall_forall. intros v Hin.
  apply list_elem_of_omap in Hin as (s & _ & Hs).
  eapply member_clock_range, Hs.
Qed.

Lemma store_Tick_absent key s :
  fault_at s 0 = None -> current key s = [] ->
  store_Tick key s = (Err ErrKeyNotFound, called (CallTick key) s).
Proof.
  intros Hf Hcur. unfold store_Tick. rewrite rpc_ok by assumption.
  change (lookup_at key (Rev (called (CallTick key) s)) (History (called (CallTick key) s)))
    with (current key s).
  rewrite Hcur. reflexivity.
Qed.

(** C8, as the code has it.  A meta-revision that comes out of
    [reconstituteClock] is at least the [delta] it was called with: with
    [M] the largest member clock (0 when there is none), [tick] returns
    [M + 1 >= 1] (short of the last [int64]) and [now] returns [M >= 0],
    which is 0 on a system without member clocks. *)
Theorem reconstituted_clock_lower_bound (w : World) :
  let c := coordinator w in
  let M := max0 (member_clocks w) in
  current MetaKey c = [] ->
  fault_at c 0 = None -> fault_at c 2 = None -> fault_at c 3 = None ->
  (fst (now w) = Ok M /\ 0 <= M /\ (member_clocks w = [] -> fst (now w) = Ok 0)) /\
  (M < MaxInt64 -> fst (tick w) = Ok (M + 1) /\ 1 <= M + 1).
Proof.
  intros c M Hcur H0 H2 H3.
  pose proof (member_clocks_range w) as HM. fold M in HM.
  assert (Hnow : fst (now w) = Ok M).
  { unfold now, bind, wrap_err. rewrite onCoordinator_eq. fold c.
    rewrite store_Get_current by assumption. cbn [fst snd get_response rs_Kvs].
    rewrite Hcur.
    destruct (reconstituteClock_eq 0 (set_coordinator w (called (CallGet MetaKey None) c)))
      as (ms' & _ & ->).
    unfold reconstituted_value. cbn [fst coordinator set_coordinator].
    rewrite !fault_at_called, H2, H3.
    change (current MetaKey (called (CallGet MetaKey None) c)) with (current MetaKey c).
    rewrite Hcur.
    change (member_clocks (set_coordinator w (called (CallGet MetaKey None) c)))
      with (member_clocks w).
    fold M. rewrite Z.add_0_r, int64_id; [reflexivity |].
    unfold in_int64, MinInt64, MaxInt64 in *. lia. }
  split.
  - split; [exact Hnow |]. split; [lia |].
    intros Hnone. rewrite Hnow. unfold M. rewrite Hnone. reflexivity.
  - intros Hlt. split; [| lia].
    unfold tick. rewrite onCoordinator_eq. fold c.
    rewrite store_Tick_absent by assumption. cbn [fst snd is_ErrKeyNotFound].
    destruct (reconstituteClock_eq 1 (set_coordinator w (called (CallTick MetaKey) c)))
      as (ms' & _ & ->).
    unfold reconstituted_value. cbn [fst coordinator set_coordinator].
    rewrite !fault_at_called, H2, H3.
    change (current MetaKey (called (CallTick MetaKey) c)) with (current MetaKey c).
    rewrite Hcur.
    change (member_clocks (set_coordinator w (called (CallTick MetaKey) c)))
      with (member_clocks w).
    fold M. rewrite int64_id; [reflexivity |].
    unfold in_int64, MinInt64, MaxInt64 in *. lia.
Qed.

End ClockProperties.

(** *** S3: clock recovery *)

Example reconstituteClock_tick_sample :
  fst (reconstituteClock (scheme := SpecScheme) 1 clock_lost) = Ok 8.
Proof. vm_compute. reflexivity. Qed.

Example now_fresh_sample : fst (now (scheme := SpecScheme) fresh_world) = Ok 0.
Proof. vm_compute. reflexivity. Qed.

(** The clock is lost and a member last wrote under meta-revision 7: a
    tick rebuilds the clock, stores 7 and returns 8. *)
Lemma reconstituteClock_spec_witness :
  fst (reconstituteClock (scheme := SpecScheme) 1 clock_lost) = Ok (int64 (7 + 1)) /\
  map Value (current spec_MetaKey
               (coordinator (snd (reconstituteClock (scheme := SpecScheme) 1 clock_lost))))
  = [PutUint64 (uint64 (7 + 1 - 1))] /\
  tick (scheme := SpecScheme) clock_lost
  = reconstituteClock (scheme := SpecScheme) 1
      (set_coordinator clock_lost (called (CallTick spec_MetaKey) fresh_store)).
Proof.
  pose proof (reconstituteClock_spec (scheme := SpecScheme) 1 clock_lost) as Hspec.
  cbv zeta in Hspec. destruct Hspec as (_ & _ & Hrebuild & Htick & _).
  destruct Hrebuild as (Hret & _ & Hcoord & Hval & _); [reflexivity .. |].
  split; [exact Hret |]. split.
  - rewrite Hcoord. exact Hval.
  - apply (Htick ErrKeyNotFound); reflexivity.
Defined.

(** C8 as stated fails on a fresh system: [now] goes through
    [reconstituteClock(0)] and returns the meta-revision 0. *)
Lemma now_fresh_world_is_zero :
  fst (now (scheme := SpecScheme) fresh_world) = Ok 0 /\ ~ (1 <= 0).
Proof. split; [vm_compute; reflexivity | lia]. Qed.

Lemma reconstituted_clock_lower_bound_witness :
  (fst (now (scheme := SpecScheme) clock_lost) = Ok 7 /\ 0 <= 7 /\
   (member_clocks (scheme := SpecScheme) clock_lost = [] ->
    fst (now (scheme := SpecScheme) clock_lost) = Ok 0)) /\
  (7 < MaxInt64 -> fst (tick (scheme := SpecScheme) clock_lost) = Ok (7 + 1) /\ 1 <= 7 + 1).
Proof.
  apply (reconstituted_clock_lower_bound (scheme := SpecScheme) clock_lost); reflexivity.
Defined.

(** ** Revision resolver *)

Lemma visible_le_length key z h : (visible key z h <= length h)%nat.
Proof.
  induction h as [| e h IH]; simpl; [lia |].
  destruct (bytes_eqb _ _ && _); lia.
Qed.

Lemma visible_mono key z z' h : z <= z' -> (visible key z h <= visible key z' h)%nat.
Proof.
  intros Hle. induction h as [| e h IH]; simpl; [lia |].
  destruct (bytes_eqb (Key (entry_kv e)) key); simpl; [| lia].
  destruct (Z.leb_spec (ModRevision (entry_kv e)) z);
    destruct (Z.leb_spec (ModRevision (entry_kv e)) z'); lia.
Qed.

(** A read as of [z] returns a revision made at or before [z], and a read
    just below that revision sees strictly less of the history. *)
Lemma lookup_at_found key z h kv kvs :
  lookup_at key z h = kv :: kvs ->
  ModRevision kv <= z /\
  In kv (map entry_kv h) /\
  (visible key (ModRevision kv - 1) h < visible key z h)%nat.
Proof.
  induction h as [| e h IH]; simpl; [discriminate |].
  destruct (bytes_eqb (Key (entry_kv e)) key) eqn:Hkey; simpl.
  - destruct (Z.leb_spec (ModRevision (entry_kv e)) z) as [Hle | Hgt].
    + destruct (entry_deleted e); [discriminate |].
      intros [= <- <-]. split; [exact Hle |]. split; [auto |].
      destruct (Z.leb_spec (ModRevision (entry_kv e)) (ModRevision (entry_kv e) - 1));
        [lia |].
      pose proof (visible_mono key (ModRevision (entry_kv e) - 1) z h). lia.
    + intros Hfind. destruct (IH Hfind) as (Hle & Hin & Hlt).
      split; [exact Hle |]. split; [auto |].
      destruct (Z.leb_spec (ModRevision (entry_kv e)) (ModRevision kv - 1)); lia.
  - intros Hfind. destruct (IH Hfind) as (Hle & Hin & Hlt). auto.
Qed.

Section ResolverProperties.

Context {scheme : Scheme}.

(** One probe at [z > 0] either ends the loop or goes on strictly lower. *)
Lemma getMemberRev_loop_terminates metaRev fuel :
  forall z s,
    etcd_revisions s -> 0 < z ->
    (visible MetaKey z (History s) < fuel)%nat ->
    fst (getMemberRev_loop fuel metaRev z s) <> OutOfFuel.
Proof.
  induction fuel as [| fuel IH]; intros z s Hwf Hz Hfuel; [lia |].
  cbn [getMemberRev_loop]. destruct (Z.gtb_spec z 0) as [_ | ?]; [| lia].
  unfold bind, store_Get.
  destruct (fault_at s 0) as [e |] eqn:Hf.
  { rewrite (rpc_fault _ _ _ e Hf). discriminate. }
  rewrite rpc_ok by assumption.
  set (s1 := called (CallGet MetaKey (Some z)) s).
  destruct (z <? CompactRev s1); [discriminate |].
  destruct (Rev s1 <? z); [discriminate |].
  cbn [get_response rs_Kvs rs_Header].
  change (History s1) with (History s).
  destruct (lookup_at MetaKey z (History s)) as [| kv kvs] eqn:Hfind; [discriminate |].
  destruct (Uint64 (Value kv)) as [u |]; [| discriminate].
  destruct (int64 u >? metaRev); [| discriminate].
  destruct (lookup_at_found _ _ _ _ _ Hfind) as (Hle & Hin & Hlt).
  apply in_map_iff in Hin as (e & <- & Hin).
  pose proof (proj1 (List.Forall_forall _ _) Hwf e Hin) as Hrev. cbv beta in Hrev.
  rewrite int64_id by (unfold in_int64, MinInt64, MaxInt64 in *; lia).
  apply IH; [exact Hwf | lia | change (History s1) with (History s); lia].
Qed.

Lemma getMemberRev_loop_fuel metaRev fuel :
  forall fuel' z s,
    (fuel <= fuel')%nat ->
    fst (getMemberRev_loop fuel metaRev z s) <> OutOfFuel ->
    getMemberRev_loop fuel' metaRev z s = getMemberRev_loop fuel metaRev z s.
Proof.
  induction fuel as [| fuel IH]; intros fuel' z s Hle Hterm; [simpl in Hterm; congruence |].
  destruct fuel' as [| fuel']; [lia |].
  cbn [getMemberRev_loop] in *. unfold bind in *.
  destruct (store_Get MetaKey _ s) as [[resp | e | |] s1]; try reflexivity.
  destruct (rs_Kvs resp) as [| kv kvs]; [reflexivity |].
  destruct (Uint64 (Value kv)) as [u |]; [| reflexivity].
  destruct (int64 u >? metaRev); [| reflexivity].
  apply IH; [lia | exact Hterm].
Qed.

Lemma probes_snoc calls key z : probes (calls ++ [CallGet key (Some z)]) = probes calls ++ [z].
Proof. unfold probes. rewrite omap_app. reflexivity. Qed.

(** From probe [z] on, the loop reads at strictly decreasing revisions,
    all of them positive. *)
Lemma getMemberRev_loop_probes metaRev fuel :
  forall z s,
    etcd_revisions s -> 0 < z ->
    exists new,
      Calls (snd (getMemberRev_loop fuel metaRev z s)) = new ++ Calls s /\
      StronglySorted Z.lt (probes new) /\
      Forall (fun r => 0 < r <= z) (probes new).
Proof.
  induction fuel as [| fuel IH]; intros z s Hwf Hz.
  { exists []. repeat split; constructor. }
  assert (Hone : exists new,
             Calls (called (CallGet MetaKey (Some z)) s) = new ++ Calls s /\
             StronglySorted Z.lt (probes new) /\
             Forall (fun r => 0 < r <= z) (probes new)).
  { exists [CallGet MetaKey (Some z)]. split; [reflexivity |].
    split; repeat constructor; lia. }
  cbn [getMemberRev_loop]. destruct (Z.gtb_spec z 0) as [_ | ?]; [| lia].
  unfold bind, store_Get.
  destruct (fault_at s 0) as [e |] eqn:Hf.
  { rewrite (rpc_fault _ _ _ e Hf). exact Hone. }
  rewrite rpc_ok by assumption.
  set (s1 := called (CallGet MetaKey (Some z)) s) in *.
  destruct (z <? CompactRev s1); [exact Hone |].
  destruct (Rev s1 <? z); [exact Hone |].
  cbn [get_response rs_Kvs rs_Header].
  change (History s1) with (History s).
  destruct (lookup_at MetaKey z (History s)) as [| kv kvs] eqn:Hfind; [exact Hone |].
  destruct (Uint64 (Value kv)) as [u |]; [| exact Hone].
  destruct (int64 u >? metaRev); [| exact Hone].
  destruct (lookup_at_found _ _ _ _ _ Hfind) as (Hle & Hin & _).
  apply in_map_iff in Hin as (e & <- & Hin).
  pose proof (proj1 (List.Forall_forall _ _) Hwf e Hin) as Hrev. cbv beta in Hrev.
  rewrite int64_id by (unfold in_int64, MinInt64, MaxInt64 in *; lia).
  destruct (IH (ModRevision (entry_kv e) - 1) s1 Hwf ltac:(lia))
    as (new & Hcalls & Hsorted & Hbound).
  exists (new ++ [CallGet MetaKey (Some z)]). rewrite Hcalls, probes_snoc.
  split; [rewrite <- app_assoc; reflexivity |]. split.
  - apply StronglySorted_app. split; [| split; [exact Hsorted | repeat constructor]].
    intros r r' Hr Hr'. apply list_elem_of_singleton in Hr'. subst r'.
    rewrite Forall_forall in Hbound. specialize (Hbound r Hr). lia.
  - apply Forall_app. split; [| repeat constructor; lia].
    eapply Forall_impl; [exact Hbound |]. intros r Hr. cbv beta in *. lia.
Qed.

(** C2. On a member whose key revisions are etcd's (at least 2), the probe
    loop of [getMemberRev] ends for every target meta-revision: with more
    fuel than the member has revisions it returns (a revision, an error
    or a panic), and more fuel does not change what it returns.  The
    revisions that it probed are positive and went strictly down. *)
Theorem getMemberRev_terminates (metaRev : Z) (s : Store) :
  etcd_revisions s ->
  forall fuel, (length (History s) < fuel)%nat ->
    fst (getMemberRev fuel metaRev s) <> OutOfFuel /\
    getMemberRev fuel metaRev s = getMemberRev (S (length (History s))) metaRev s /\
    exists new,
      Calls (snd (getMemberRev fuel metaRev s)) = new ++ Calls s /\
      StronglySorted Z.lt (probes new) /\ Forall (Z.lt 0) (probes new).
Proof.
  intros Hwf.
  assert (Hterm : forall fuel, (length (History s) < fuel)%nat ->
                    fst (getMemberRev fuel metaRev s) <> OutOfFuel).
  { intros fuel Hfuel. destruct fuel as [| fuel]; [lia |].
    unfold getMemberRev. cbn [getMemberRev_loop]. change (0 >? 0) with false.
    unfold bind.
    destruct (fault_at s 0) as [e |] eqn:Hf.
    { unfold store_Get. rewrite (rpc_fault _ _ _ e Hf). discriminate. }
    rewrite store_Get_current by assumption. cbn [get_response rs_Kvs rs_Header].
    unfold current.
    destruct (lookup_at MetaKey (Rev s) (History s)) as [| kv kvs] eqn:Hfind;
      [discriminate |].
    destruct (Uint64 (Value kv)) as [u |]; [| discriminate].
    destruct (int64 u >? metaRev); [| discriminate].
    destruct (lookup_at_found _ _ _ _ _ Hfind) as (Hle & Hin & Hlt).
    apply in_map_iff in Hin as (e & <- & Hin).
    pose proof (proj1 (List.Forall_forall _ _) Hwf e Hin) as Hrev. cbv beta in Hrev.
    rewrite int64_id by (unfold in_int64, MinInt64, MaxInt64 in *; lia).
    pose proof (visible_le_length MetaKey (Rev s) (History s)).
    apply getMemberRev_loop_terminates;
      [exact Hwf | lia | change (History (called _ s)) with (History s); lia]. }
  intros fuel Hfuel. split; [apply Hterm, Hfuel |].
  split; [apply getMemberRev_loop_fuel; [lia |]; apply (Hterm (S (length (History s)))); lia |].
  assert (Hone : exists new,
             Calls (called (CallGet MetaKey None) s) = new ++ Calls s /\
             StronglySorted Z.lt (probes new) /\ Forall (Z.lt 0) (probes new)).
  { exists [CallGet MetaKey None]. split; [reflexivity |]. split; constructor. }
  destruct fuel as [| fuel]; [lia |].
  unfold getMemberRev. cbn [getMemberRev_loop]. change (0 >? 0) with false.
  unfold bind.
  destruct (fault_at s 0) as [e |] eqn:Hf.
  { unfold store_Get. rewrite (rpc_fault _ _ _ e Hf). exact Hone. }
  rewrite store_Get_current by assumption. cbn [get_response rs_Kvs rs_Header].
  unfold current.
  destruct (lookup_at MetaKey (Rev s) (History s)) as [| kv kvs] eqn:Hfind; [exact Hone |].
  destruct (Uint64 (Value kv)) as [u |]; [| exact Hone].
  destruct (int64 u >? metaRev); [| exact Hone].
  destruct (lookup_at_found _ _ _ _ _ Hfind) as (Hle & Hin & _).
  apply in_map_iff in Hin as (e & <- & Hin).
  pose proof (proj1 (List.Forall_forall _ _) Hwf e Hin) as Hrev. cbv beta in Hrev.
  rewrite int64_id by (unfold in_int64, MinInt64, MaxInt64 in *; lia).
  destruct (getMemberRev_loop_probes metaRev fuel (ModRevision (entry_kv e) - 1)
              (called (CallGet MetaKey None) s) Hwf ltac:(lia))
    as (new & Hcalls & Hsorted & Hbound).
  exists (new ++ [CallGet MetaKey None]). rewrite Hcalls.
  split; [rewrite <- app_assoc; reflexivity |].
  unfold probes. rewrite omap_app. cbn [omap list_omap probe_of]. rewrite app_nil_r.
  split; [exact Hsorted |].
  eapply Forall_impl; [exact Hbound |]. intros r Hr. cbv beta in Hr. lia.
Qed.

End ResolverProperties.

(** On the sample member, a read at meta-revision 5 walks back two clock
    writes and lands on member revision 2. *)
Example getMemberRev_sample :
  fst (getMemberRev (scheme := SpecScheme) 5 5 member_at_7) = Ok 2 /\
  probes (Calls (snd (getMemberRev (scheme := SpecScheme) 5 5 member_at_7))) = [2; 4].
Proof. split; vm_compute; reflexivity. Qed.

Lemma getMemberRev_terminates_witness :
  fst (getMemberRev (scheme := SpecScheme) 5 5 member_at_7) <> OutOfFuel /\
  getMemberRev (scheme := SpecScheme) 5 5 member_at_7
  = getMemberRev (scheme := SpecScheme) (S (length (History member_at_7))) 5 member_at_7 /\
  exists new,
    Calls (snd (getMemberRev (scheme := SpecScheme) 5 5 member_at_7))
    = new ++ Calls member_at_7 /\
    StronglySorted Z.lt (probes new) /\ Forall (Z.lt 0) (probes new).
Proof.
  apply (getMemberRev_terminates (scheme := SpecScheme) 5 member_at_7).
  - unfold etcd_revisions, member_at_7, MaxInt64. simpl.
    repeat constructor; simpl; lia.
  - simpl. lia.
Defined.

(** Were a meta-clock key at mod-revision 1, the probe after it would be
    0, which the loop takes for "no probe yet": it reads the latest
    revision again, for ever.  The bound 2 of [etcd_revisions] is what the
    loop relies on. *)
Lemma getMemberRev_needs_revision_2 fuel :
  forall calls,
    fst (getMemberRev_loop (scheme := SpecScheme) fuel 3 0 (revision_1_store calls))
    = OutOfFuel.
Proof.
  induction fuel as [| fuel IH]; intros calls; [reflexivity |].
  exact (IH (CallGet spec_MetaKey None :: calls)).
Qed.

(** ** Range *)

Lemma iterate_invariant {A} (P : A -> Prop) (fn : nat -> A -> M A) :
  (forall c a w a' w', P a -> fn c a w = (Ok a', w') -> P a') ->
  forall cs a first w r w',
    P a -> iterate fn cs a first w = (Ok r, w') -> P (fst r).
Proof.
  intros Hfn. induction cs as [| c cs IH]; intros a first w r w' Ha Hit; simpl in Hit.
  - injection Hit as <- _. exact Ha.
  - destruct (fn c a w) as [[a' | e | |] w1] eqn:Hstep; try discriminate.
    + eapply IH; [| exact Hit]. eapply Hfn; eauto.
    + eapply IH; [| exact Hit]. exact Ha.
Qed.

Section RangeProperties.

Context {scheme : Scheme}.

Variable sort_Slice : (KeyValue -> KeyValue -> bool) -> list KeyValue -> list KeyValue.

(** What [sort.Slice] promises for this [less]: the same elements, no
    element before a smaller one. *)
Hypothesis sort_Slice_perm : forall l, Permutation (sort_Slice key_less l) l.
Hypothesis sort_Slice_sorted :
  forall l, StronglySorted (fun a b => key_less b a = false) (sort_Slice key_less l).

Lemma rangeWithClient_More fuel req metaRev c a w a' w' :
  rs_More a = false ->
  rangeWithClient fuel req metaRev c a w = (Ok a', w') ->
  rs_More a' = false.
Proof.
  intros Ha. unfold rangeWithClient, bind, wrap_err.
  destruct (onMember c (getMemberRev fuel metaRev) w) as [[memberRev | e | |] w1];
    try discriminate.
  destruct (onMember c (store_Range _) w1) as [[r | e | |] w2]; try discriminate.
  destruct (rr_CountOnly req); intros [= <- _]; exact Ha.
Qed.

(** A range read ([RangeEnd] not empty) that returns a response:
    exactly when [0 < Limit] and the members' merged kvs outnumber
    [Limit], [More] is set and the kvs are the first [Limit] of the merged
    kvs sorted by key, so no kv that was left out has a smaller key than
    one that was kept; otherwise the merged kvs are returned as they are,
    with [More] unset.  No response comes with a negative [Limit]: see
    [Range_negative_limit]. *)
Theorem Range_limit (fuel : nat) (req : RangeRequest) (w w' : World)
    (resp : RangeResponse) :
  rr_RangeEnd req <> [] ->
  Range sort_Slice fuel req w = (Ok resp, w') ->
  exists metaRev w0 merged,
    (if negb (rr_Revision req =? 0) then ret (rr_Revision req) else now) w
    = (Ok metaRev, w0) /\
    IterateMembers (rangeWithClient fuel req metaRev)
                   (mkRangeResponse (Some (header_at metaRev)) [] false 0) w0
    = (Ok (merged, None), w') /\
    let limit := rr_Limit req in
    let n := Z.of_nat (length (rs_Kvs merged)) in
    0 <= limit /\
    (rs_More resp = true <-> 0 < limit /\ limit < n) /\
    (0 < limit /\ limit < n ->
       rs_Kvs resp = firstn (Z.to_nat limit) (sort_Slice key_less (rs_Kvs merged)) /\
       Z.of_nat (length (rs_Kvs resp)) = limit /\
       StronglySorted (fun a b => key_less b a = false) (rs_Kvs resp) /\
       exists rest,
         Permutation (rs_Kvs resp ++ rest) (rs_Kvs merged) /\
         forall a b, In a (rs_Kvs resp) -> In b rest ->
                     0 <= bytes_Compare (Key b) (Key a)) /\
    (~ (0 < limit /\ limit < n) -> resp = merged).
Proof.
  intros Hend HR. unfold Range in HR. unfold bind at 1 in HR.
  destruct ((if negb (rr_Revision req =? 0) then ret (rr_Revision req) else now) w)
    as [[metaRev | e | |] w0] eqn:Hrev; try discriminate.
  destruct (Z.eqb_spec (Z.of_nat (length (rr_RangeEnd req))) 0) as [Hlen | _].
  { destruct (rr_RangeEnd req); [congruence | simpl in Hlen; lia]. }
  unfold bind at 1 in HR.
  destruct (IterateMembers _ _ w0) as [[[merged err] | e | |] w1] eqn:Hit;
    try discriminate.
  assert (Hmore : rs_More merged = false).
  { unfold IterateMembers in Hit.
    apply (iterate_invariant (fun a => rs_More a = false)) in Hit; [exact Hit | | reflexivity].
    intros c a v a' v'. apply rangeWithClient_More. }
  exists metaRev, w0, merged. cbv zeta. split; [reflexivity |].
  unfold bind in HR.
  destruct (Z.eqb_spec (rr_Limit req) 0) as [Hzero | Hnz]; cbn [negb andb] in HR.
  - destruct err; cbn in HR; [discriminate |]. injection HR as <- <-.
    split; [exact Hit |]. rewrite Hmore. split; [lia |].
    split; [split; [discriminate | lia] |]. split; [lia | reflexivity].
  - destruct (Z.gtb_spec (Z.of_nat (length (rs_Kvs merged))) (rr_Limit req)) as [Hgt | Hle].
    + destruct (Z.ltb_spec (rr_Limit req) 0) as [Hneg | Hpos]; [discriminate |].
      destruct err; cbn in HR; [discriminate |]. injection HR as <- <-.
      split; [exact Hit |]. cbn [rs_More rs_Kvs]. split; [lia |].
      split; [split; [lia | reflexivity] |]. split; [| lia].
      intros _.
      pose proof (sort_Slice_sorted (rs_Kvs merged)) as Hsorted.
      pose proof (sort_Slice_perm (rs_Kvs merged)) as Hperm.
      rewrite <- (take_drop (Z.to_nat (rr_Limit req)) (sort_Slice key_less (rs_Kvs merged)))
        in Hsorted, Hperm.
      apply StronglySorted_app in Hsorted as (Hcross & Hkept & _).
      split; [reflexivity |]. split.
      { rewrite length_take. apply Permutation_length in Hperm.
        rewrite length_app, length_take, length_drop in Hperm. lia. }
      split; [exact Hkept |].
      exists (drop (Z.to_nat (rr_Limit req)) (sort_Slice key_less (rs_Kvs merged))).
      split; [exact Hperm |].
      intros a b Ha Hb. apply list_elem_of_In in Ha, Hb.
      specialize (Hcross a b Ha Hb). unfold key_less in Hcross.
      apply Z.ltb_ge in Hcross. exact Hcross.
    + destruct err; cbn in HR; [discriminate |]. injection HR as <- <-.
      split; [exact Hit |]. rewrite Hmore. split; [lia |].
      split; [split; [discriminate | lia] |]. split; [lia | reflexivity].
Qed.

(** And a response there is, whenever the fan-out met no error and
    [Limit] is not negative. *)
Lemma Range_returns (fuel : nat) (req : RangeRequest) (w w0 w1 : World) (metaRev : Z)
    (merged : RangeResponse) :
  rr_RangeEnd req <> [] ->
  (if negb (rr_Revision req =? 0) then ret (rr_Revision req) else now) w = (Ok metaRev, w0) ->
  IterateMembers (rangeWithClient fuel req metaRev)
                 (mkRangeResponse (Some (header_at metaRev)) [] false 0) w0
  = (Ok (merged, None), w1) ->
  0 <= rr_Limit req ->
  exists resp, Range sort_Slice fuel req w = (Ok resp, w1).
Proof.
  intros Hend Hrev Hit Hlimit. unfold Range. unfold bind at 1. rewrite Hrev.
  destruct (Z.eqb_spec (Z.of_nat (length (rr_RangeEnd req))) 0) as [Hlen | _].
  { destruct (rr_RangeEnd req); [congruence | simpl in Hlen; lia]. }
  unfold bind at 1. rewrite Hit. unfold bind.
  destruct (negb (rr_Limit req =? 0) && _); [| eexists; reflexivity].
  destruct (Z.ltb_spec (rr_Limit req) 0); [lia |]. eexists. reflexivity.
Qed.

(** C5. The code tests [req.Limit != 0], not [req.Limit > 0]: a range
    read with a negative [Limit] enters the truncation branch whatever the
    members returned (no length is below a negative number), and
    [resp.Kvs[:req.Limit]] panics.  No response is returned, and neither
    is the error of the fan-out, if it met one. *)
Theorem Range_negative_limit (fuel : nat) (req : RangeRequest) (w w0 w1 : World)
    (metaRev : Z) (merged : RangeResponse) (err : option error) :
  rr_RangeEnd req <> [] ->
  rr_Limit req < 0 ->
  (if negb (rr_Revision req =? 0) then ret (rr_Revision req) else now) w = (Ok metaRev, w0) ->
  IterateMembers (rangeWithClient fuel req metaRev)
                 (mkRangeResponse (Some (header_at metaRev)) [] false 0) w0
  = (Ok (merged, err), w1) ->
  Range sort_Slice fuel req w = (Panic, w1).
Proof.
  intros Hend Hlimit Hrev Hit. unfold Range. unfold bind at 1. rewrite Hrev.
  destruct (Z.eqb_spec (Z.of_nat (length (rr_RangeEnd req))) 0) as [Hlen | _].
  { destruct (rr_RangeEnd req); [congruence | simpl in Hlen; lia]. }
  unfold bind at 1. rewrite Hit. unfold bind.
  destruct (Z.eqb_spec (rr_Limit req) 0) as [? | _]; [lia |].
  destruct (Z.gtb_spec (Z.of_nat (length (rs_Kvs merged))) (rr_Limit req)) as [_ | ?];
    [| lia].
  destruct (Z.ltb_spec (rr_Limit req) 0) as [_ | ?]; [| lia].
  reflexivity.
Qed.

End RangeProperties.

(** *** One [sort.Slice] *)

Lemma bytes_Compare_antisym a : forall b, bytes_Compare b a = - bytes_Compare a b.
Proof.
  induction a as [| x a IH]; intros [| y b]; simpl; try reflexivity.
  destruct (Z.ltb_spec x y), (Z.ltb_spec y x); try lia. apply IH.
Qed.

Lemma bytes_Compare_trans a :
  forall b c, 0 <= bytes_Compare b a -> 0 <= bytes_Compare c b -> 0 <= bytes_Compare c a.
Proof.
  induction a as [| x a IH]; intros [| y b] [| z c]; simpl; try lia.
  destruct (Z.ltb_spec y x), (Z.ltb_spec x y), (Z.ltb_spec z y), (Z.ltb_spec y z),
           (Z.ltb_spec z x), (Z.ltb_spec x z); try lia.
  apply IH.
Qed.

Lemma insert_sorted_perm less x l : Permutation (insert_sorted less x l) (x :: l).
Proof.
  induction l as [| y l IH]; simpl; [reflexivity |].
  destruct (less x y); [reflexivity |].
  rewrite IH. apply perm_swap.
Qed.

Lemma insertion_sort_perm l : Permutation (insertion_sort key_less l) l.
Proof.
  induction l as [| x l IH]; simpl; [reflexivity |].
  rewrite insert_sorted_perm, IH. reflexivity.
Qed.

Lemma key_le_trans a b c : key_le a b -> key_le b c -> key_le a c.
Proof.
  unfold key_le, key_less. rewrite !Z.ltb_ge. apply bytes_Compare_trans.
Qed.

Lemma key_less_le a b : key_less a b = true -> key_le a b.
Proof.
  unfold key_le, key_less. rewrite Z.ltb_ge, Z.ltb_lt.
  rewrite (bytes_Compare_antisym (Key a) (Key b)). lia.
Qed.

Lemma insert_sorted_sorted x l :
  StronglySorted key_le l -> StronglySorted key_le (insert_sorted key_less x l).
Proof.
  induction 1 as [| y l Hsorted IH Hy]; simpl.
  - repeat constructor.
  - destruct (key_less x y) eqn:Hless.
    + constructor; [constructor; assumption |].
      apply key_less_le in Hless. constructor; [exact Hless |].
      eapply Forall_impl; [exact Hy |]. intros z Hz. eapply key_le_trans; eauto.
    + constructor; [exact IH |].
      rewrite insert_sorted_perm. constructor; [exact Hless | exact Hy].
Qed.

Lemma insertion_sort_sorted l :
  StronglySorted (fun a b => key_less b a = false) (insertion_sort key_less l).
Proof.
  induction l as [| x l IH]; simpl; [constructor |].
  apply insert_sorted_sorted, IH.
Qed.

(** *** S2: cross-member range ordering *)

Example Range_sample :
  match fst (Range (scheme := SpecScheme) insertion_sort 3 range_a_z two_members) with
  | Ok resp => map Key (rs_Kvs resp) = [[97]] /\ map ModRevision (rs_Kvs resp) = [7]
               /\ rs_More resp = true /\ rs_Count resp = 2
  | _ => False
  end.
Proof. vm_compute. repeat split; reflexivity. Qed.

Lemma Range_limit_witness :
  exists resp w',
    Range (scheme := SpecScheme) insertion_sort 3 range_a_z two_members = (Ok resp, w') /\
    Z.of_nat (length (rs_Kvs resp)) = rr_Limit range_a_z /\
    StronglySorted (fun a b => key_less b a = false) (rs_Kvs resp).
Proof.
  eexists. eexists. split; [vm_compute; reflexivity |].
  destruct (Range_limit (scheme := SpecScheme) insertion_sort insertion_sort_perm
              insertion_sort_sorted 3 range_a_z two_members _ _
              ltac:(discriminate) eq_refl)
    as (metaRev & w0 & merged & _ & Hit & _ & Hiff & Hcut & _).
  destruct (Hcut (proj1 Hiff eq_refl)) as (_ & Hlen & Hsorted & _).
  split; assumption.
Defined.

(** [Limit != 0] lets a negative [Limit] into the branch that sorts and
    slices: [resp.Kvs[:req.Limit]] then panics, and no response is
    returned. *)
(** With limit -1 the read of "a" to "z" panics; and where the fan-out
    meets an error, which limit 0 returns, limit -1 panics as well. *)
Lemma Range_negative_limit_witness :
  fst (Range (scheme := SpecScheme) insertion_sort 3
         (mkRangeRequest [97] [122] (-1) 8 false false) two_members)
  = Panic /\
  fst (Range (scheme := SpecScheme) insertion_sort 5
         (mkRangeRequest [97] [122] (-1) 8 false false) half_down_world)
  = Panic /\
  fst (Range (scheme := SpecScheme) insertion_sort 5
         (mkRangeRequest [97] [122] 0 8 false false) half_down_world)
  = Err ErrUnavailable.
Proof.
  split; [| split].
  - erewrite (Range_negative_limit (scheme := SpecScheme) insertion_sort 3
                (mkRangeRequest [97] [122] (-1) 8 false false) two_members);
      [reflexivity | discriminate | simpl; lia | reflexivity | vm_compute; reflexivity].
  - erewrite (Range_negative_limit (scheme := SpecScheme) insertion_sort 5
                (mkRangeRequest [97] [122] (-1) 8 false false) half_down_world);
      [reflexivity | discriminate | simpl; lia | reflexivity | vm_compute; reflexivity].
  - vm_compute. reflexivity.
Defined.

(** ** Txn *)

Lemma onMember_lookup {A} (op : St A) i w s :
  members w !! i = Some s ->
  onMember i op w = (fst (op s), set_members w (<[i := snd (op s)]> (members w))).
Proof.
  intros Hs. unfold onMember, set_members. rewrite Hs. destruct (op s). reflexivity.
Qed.

Lemma set_members_id w i s : members w !! i = Some s -> set_members w (<[i := s]> (members w)) = w.
Proof.
  intros Hs. unfold set_members. rewrite list_insert_id by exact Hs. destruct w. reflexivity.
Qed.

Lemma after_reads_data key n s :
  History (after_reads key n s) = History s /\ Rev (after_reads key n s) = Rev s /\
  CompactRev (after_reads key n s) = CompactRev s.
Proof. induction n as [| n IH]; simpl; auto. Qed.

Lemma after_reads_calls key n s :
  Calls (after_reads key n s) = repeat (CallGet key None) n ++ Calls s.
Proof. induction n as [| n IH]; simpl; [reflexivity | rewrite IH; reflexivity]. Qed.

Lemma after_reads_no_faults key n s : Faults s = [] -> Faults (after_reads key n s) = [].
Proof. intros Hs. induction n as [| n IH]; simpl; [exact Hs | rewrite IH; reflexivity]. Qed.

Lemma after_reads_S key n s :
  after_reads key n (called (CallGet key None) s) = after_reads key (S n) s.
Proof. unfold after_reads. rewrite Nat.iter_succ_r. reflexivity. Qed.

Section TxnProperties.

Context {scheme : Scheme}.

Lemma tick_members_length w : length (members (snd (tick w))) = length (members w).
Proof.
  unfold tick. rewrite onCoordinator_eq.
  destruct (fst (store_Tick MetaKey (coordinator w))) as [kv | e | |]; try reflexivity.
  destruct (is_ErrKeyNotFound e); [| reflexivity].
  destruct (reconstituteClock_eq 1
              (set_coordinator w (snd (store_Tick MetaKey (coordinator w)))))
    as (ms' & Hlen & ->).
  exact Hlen.
Qed.

Lemma resolveComparisons_skipped client key req pre :
  forall done rest w,
    Forall skipped pre ->
    resolveComparisons client key req done (pre ++ rest) w
    = resolveComparisons client key req (done ++ pre) rest w.
Proof.
  induction pre as [| c pre IH]; intros done rest w Hpre.
  - rewrite app_nil_r. reflexivity.
  - apply Forall_cons in Hpre as [Hc Hpre]. cbn [app resolveComparisons].
    rewrite (snoc_app done c pre). unfold skipped in Hc.
    destruct (cmp_TargetUnion c); try (apply IH; exact Hpre).
    subst r. change (0 =? 0) with true. cbv iota. apply IH, Hpre.
Qed.

Lemma Txn_validated req key w :
  validateTxn req = Ok key ->
  Txn req w
  = bind (resolveComparisons (GetMemberForKey w key) key req [] (tx_Compare req))
      (fun resolved =>
         match resolved with
         | inl resp => ret resp
         | inr cmps =>
             metaRev <- tick ;;
             resp <- onMember (GetMemberForKey w key)
                       (store_Txn (memberTxnRequest cmps req metaRev)) ;;
             responses <- pure_call (rewriteResponses metaRev (ts_Responses resp)) ;;
             ret (mkTxnResponse (Some (header_at metaRev)) (ts_Succeeded resp) responses)
         end) w.
Proof. intros Hv. unfold Txn, bind at 1, pure_call. rewrite Hv. reflexivity. Qed.

(** When the first comparison that the loop resolves, a [ModRevision]
    comparison with target [M <> 0], fails the preflight against the
    member's current value of the anchor key, [Txn] returns the response
    that [PreflightTxn] made.  The member has received one read and
    nothing else, and the coordinator nothing at all. *)
Lemma Txn_preflight_first_comparison (w : World) (req : TxnRequest) (key : bytes)
    (pre post : list Compare) (c : Compare) (M : Z) (s : Store)
    (kv : KeyValue) (kvs : list KeyValue) (actual : Z) (failureResp : TxnResponse) :
  PreflightTxn_spec scheme ->
  validateTxn req = Ok key ->
  tx_Compare req = pre ++ c :: post ->
  Forall skipped pre ->
  cmp_TargetUnion c = Compare_ModRevision M -> M <> 0 ->
  members w !! GetMemberForKey w key = Some s ->
  fault_at s 0 = None ->
  current key s = kv :: kvs ->
  PreflightTxn M req (get_response s (kv :: kvs)) = (actual, Some failureResp) ->
  Txn req w
  = (Ok failureResp,
     set_members w (<[GetMemberForKey w key := called (CallGet key None) s]> (members w))) /\
  ts_Succeeded failureResp = false /\
  option_map Revision (ts_Header failureResp) = Some M.
Proof.
  intros Hspec Hv Hcmp Hpre Hc HM Hs Hf Hcur Hpf.
  split; [| exact (Hspec _ _ _ _ _ Hpf)].
  rewrite (Txn_validated _ _ _ Hv). unfold bind at 1.
  rewrite Hcmp, resolveComparisons_skipped by exact Hpre.
  cbn [resolveComparisons app]. rewrite Hc.
  destruct (Z.eqb_spec M 0) as [? | _]; [contradiction |].
  unfold bind at 1. unfold resolveModComparison, bind at 1.
  rewrite (onMember_lookup _ _ _ _ Hs), (store_Get_current _ _ Hf).
  cbn [fst snd get_response rs_Kvs]. rewrite Hcur.
  rewrite <- Hcmp.
  replace (mkTxnRequest (tx_Compare req) (tx_Success req) (tx_Failure req)) with req
    by (destruct req; reflexivity).
  change (get_response (called (CallGet key None) s) (kv :: kvs))
    with (get_response s (kv :: kvs)).
  change (mkRangeResponse (Some (header_at (Rev (called (CallGet key None) s))))
            (kv :: kvs) false (Z.of_nat (length (kv :: kvs))))
    with (get_response s (kv :: kvs)).
  rewrite Hpf. reflexivity.
Qed.

(** The loop of [Txn] only reads the member, and a response that it
    returns early is one that [PreflightTxn] made for a comparison of the
    request. *)
Lemma resolveComparisons_early client key req rest :
  forall done w resp w',
    resolveComparisons client key req done rest w = (Ok (inl resp), w') ->
    (exists c M cur current_kvs actual,
       In c rest /\ cmp_TargetUnion c = Compare_ModRevision M /\ M <> 0 /\
       PreflightTxn M cur current_kvs = (actual, Some resp)) /\
    exists n s,
      members w !! client = Some s /\
      w' = set_members w (<[client := after_reads key n s]> (members w)).
Proof.
  induction rest as [| c rest IH]; intros done w resp w' Hloop; [discriminate |].
  cbn [resolveComparisons] in Hloop.
  assert (Hskip : forall done',
             resolveComparisons client key req done' rest w = (Ok (inl resp), w') ->
             (exists c0 M cur current_kvs actual,
                In c0 (c :: rest) /\ cmp_TargetUnion c0 = Compare_ModRevision M /\ M <> 0 /\
                PreflightTxn M cur current_kvs = (actual, Some resp)) /\
             exists n s,
               members w !! client = Some s /\
               w' = set_members w (<[client := after_reads key n s]> (members w))).
  { intros done' Hrest. destruct (IH _ _ _ _ Hrest) as [(c0 & M & cur & kvs & act & Hin & H) Hw].
    split; [exists c0, M, cur, kvs, act; split; [right; exact Hin | exact H] | exact Hw]. }
  destruct (cmp_TargetUnion c) as [v | r | r | v | l] eqn:Htarget; try (eapply Hskip; eassumption).
  destruct (Z.eqb_spec r 0) as [Hr | Hr]; [eapply Hskip; eassumption |].
  unfold bind at 1 in Hloop. unfold resolveModComparison, bind at 1 in Hloop.
  destruct (members w !! client) as [s |] eqn:Hs;
    [| unfold onMember in Hloop; rewrite Hs in Hloop; discriminate].
  rewrite (onMember_lookup _ _ _ _ Hs) in Hloop.
  destruct (fault_at s 0) as [e |] eqn:Hf;
    [unfold store_Get in Hloop; rewrite (rpc_fault _ _ _ e Hf) in Hloop; discriminate |].
  rewrite (store_Get_current _ _ Hf) in Hloop.
  cbn [fst snd get_response rs_Kvs] in Hloop.
  set (s1 := called (CallGet key None) s) in *.
  set (w1 := set_members w (<[client := s1]> (members w))) in *.
  assert (Hs1 : members w1 !! client = Some s1).
  { apply list_lookup_insert_eq. eapply lookup_lt_Some, Hs. }
  assert (Hgo : forall done',
             resolveComparisons client key req done' rest w1 = (Ok (inl resp), w') ->
             (exists c0 M cur current_kvs actual,
                In c0 (c :: rest) /\ cmp_TargetUnion c0 = Compare_ModRevision M /\ M <> 0 /\
                PreflightTxn M cur current_kvs = (actual, Some resp)) /\
             exists n s0,
               Some s = Some s0 /\
               w' = set_members w (<[client := after_reads key n s0]> (members w))).
  { intros done' Hrest.
    destruct (IH _ _ _ _ Hrest) as [(c0 & M & cur & kvs & act & Hin & H) (n & s0 & Hs0 & ->)].
    split; [exists c0, M, cur, kvs, act; split; [right; exact Hin | exact H] |].
    exists (S n), s. split; [reflexivity |].
    rewrite Hs1 in Hs0. injection Hs0 as <-.
    subst w1. unfold set_members at 1.
    cbn [members coordinator GetMemberForKey rand_source rand_used set_members].
    rewrite list_insert_insert_eq. subst s1. rewrite after_reads_S. reflexivity. }
  destruct (current key s) as [| kv kvs] eqn:Hcur.
  - cbn [ret fst snd] in Hloop. eapply Hgo, Hloop.
  - destruct (PreflightTxn r _ _) as [actual [failureResp |]] eqn:Hpf;
      cbn [ret fst snd] in Hloop.
    + injection Hloop as <- <-. split.
      * eexists c, r, _, _, actual. split; [left; reflexivity |].
        split; [exact Htarget |]. split; [exact Hr | exact Hpf].
      * exists 1%nat, s. split; reflexivity.
    + eapply Hgo, Hloop.
Qed.

(** C3, as the code has it.  When a [ModRevision] comparison with a target
    other than 0 fails the preflight, [Txn] returns the response that
    [PreflightTxn] made for it: not succeeded, and with the target of that
    comparison for header revision.  The clock has not been ticked (the
    coordinator has not been called) and the owning member has only been
    read: its history and revision are what they were, and what it
    received are reads of the anchor key. *)
Theorem Txn_preflight_failure (w w' : World) (req : TxnRequest) (key : bytes)
    (failureResp : TxnResponse) :
  PreflightTxn_spec scheme ->
  validateTxn req = Ok key ->
  resolveComparisons (GetMemberForKey w key) key req [] (tx_Compare req) w
  = (Ok (inl failureResp), w') ->
  Txn req w = (Ok failureResp, w') /\
  ts_Succeeded failureResp = false /\
  (exists c M,
     In c (tx_Compare req) /\ cmp_TargetUnion c = Compare_ModRevision M /\ M <> 0 /\
     option_map Revision (ts_Header failureResp) = Some M) /\
  coordinator w' = coordinator w /\
  exists n s,
    members w !! GetMemberForKey w key = Some s /\
    members w' = <[GetMemberForKey w key := after_reads key n s]> (members w) /\
    History (after_reads key n s) = History s /\
    Rev (after_reads key n s) = Rev s /\
    Calls (after_reads key n s) = repeat (CallGet key None) n ++ Calls s.
Proof.
  intros Hspec Hv Hloop.
  destruct (resolveComparisons_early _ _ _ _ _ _ _ _ Hloop)
    as [(c & M & cur & kvs & actual & Hin & Htarget & HM & Hpf) (n & s & Hs & Hw')].
  destruct (Hspec _ _ _ _ _ Hpf) as [Hfailed Hrev].
  split; [rewrite (Txn_validated _ _ _ Hv); unfold bind; rewrite Hloop; reflexivity |].
  split; [exact Hfailed |].
  split; [exists c, M; auto |].
  subst w'. split; [reflexivity |]. exists n, s.
  destruct (after_reads_data key n s) as (Hhist & Hrev' & _).
  repeat split; auto using after_reads_calls.
Qed.

End TxnProperties.

(** The sample package [scheme] does what the specification says. *)
Lemma SpecScheme_PreflightTxn : PreflightTxn_spec SpecScheme.
Proof.
  intros metaRev req resp actual failureResp. simpl. unfold spec_PreflightTxn.
  destruct (rs_Kvs resp) as [| kv kvs]; [discriminate |].
  destruct (existsb _ _); [| discriminate].
  intros [= _ <-]. split; reflexivity.
Qed.

Lemma SpecScheme_AppendMetaRevToTxOps : AppendMetaRevToTxOps_spec SpecScheme.
Proof. intros buf ops. reflexivity. Qed.

Lemma SpecScheme_ValidateTx : ValidateTx_spec SpecScheme.
Proof. split; intros; reflexivity. Qed.

(** *** S4: a transaction that fails the preflight *)

(** C3 as stated fails in scenario S4: the synthesized response carries
    the comparison's target, 5, while a tick of the clock would have
    returned 11; the coordinator has not been called. *)
Lemma Txn_preflight_revision_is_not_tick :
  exists w',
    Txn (scheme := SpecScheme) stale_txn txn_world = (Ok preflight_response, w') /\
    coordinator w' = coordinator txn_world /\
    fst (tick (scheme := SpecScheme) txn_world) = Ok 11 /\
    option_map Revision (ts_Header preflight_response) = Some 5 /\
    5 <> 11.
Proof.
  eexists. split; [vm_compute; reflexivity |].
  split; [reflexivity |]. split; [vm_compute; reflexivity |].
  split; [reflexivity | lia].
Qed.

Example Txn_preflight_first_comparison_sample :
  Txn (scheme := SpecScheme) stale_txn txn_world
  = (Ok preflight_response,
     set_members txn_world
       (<[O := called (CallGet [107] None) member_at_7]> (members txn_world))) /\
  ts_Succeeded preflight_response = false /\
  option_map Revision (ts_Header preflight_response) = Some 5.
Proof.
  apply (Txn_preflight_first_comparison (scheme := SpecScheme) txn_world stale_txn [107]
           [] [] stale_compare 5 member_at_7 k_on_member [] 6 preflight_response
           SpecScheme_PreflightTxn);
    try reflexivity; [constructor | discriminate].
Qed.

Lemma Txn_preflight_failure_witness :
  Txn (scheme := SpecScheme) stale_txn txn_world
  = (Ok preflight_response,
     set_members txn_world
       (<[O := called (CallGet [107] None) member_at_7]> (members txn_world))) /\
  ts_Succeeded preflight_response = false /\
  (exists c M,
     In c (tx_Compare stale_txn) /\ cmp_TargetUnion c = Compare_ModRevision M /\ M <> 0 /\
     option_map Revision (ts_Header preflight_response) = Some M) /\
  coordinator
    (set_members txn_world
       (<[O := called (CallGet [107] None) member_at_7]> (members txn_world)))
  = coordinator txn_world /\
  exists n s,
    members txn_world !! O = Some s /\
    members
      (set_members txn_world
         (<[O := called (CallGet [107] None) member_at_7]> (members txn_world)))
    = <[O := after_reads [107] n s]> (members txn_world) /\
    History (after_reads [107] n s) = History s /\
    Rev (after_reads [107] n s) = Rev s /\
    Calls (after_reads [107] n s) = repeat (CallGet [107] None) n ++ Calls s.
Proof.
  apply (Txn_preflight_failure (scheme := SpecScheme) txn_world _ stale_txn [107]
           preflight_response SpecScheme_PreflightTxn); reflexivity.
Defined.

(** *** Validation *)

Lemma validate_keys_app keys1 :
  forall anchor keys2,
    validate_keys anchor (keys1 ++ keys2)
    = match validate_keys anchor keys1 with
      | Ok key => validate_keys key keys2
      | other => other
      end.
Proof.
  induction keys1 as [| k keys1 IH]; intros anchor keys2; simpl; [reflexivity |].
  destruct (Z.of_nat (length anchor) =? 0); [apply IH |].
  destruct (bytes_eqb anchor k); [apply IH | reflexivity].
Qed.

Lemma validate_keys_Ok keys :
  forall anchor r,
    validate_keys anchor keys = Ok r ->
    (anchor <> [] -> r = anchor) /\ (forall k, In k keys -> k <> [] -> k = r).
Proof.
  induction keys as [| k keys IH]; intros anchor r; simpl.
  - intros [= ->]. split; [reflexivity | tauto].
  - destruct (Z.eqb_spec (Z.of_nat (length anchor)) 0) as [Hlen | Hlen].
    + intros Hv. destruct (IH _ _ Hv) as [Hk Hkeys].
      split; [destruct anchor; [congruence | simpl in Hlen; lia] |].
      intros k' [<- | Hin] Hne; [symmetry; auto | auto].
    + unfold bytes_eqb. destruct (bool_decide_reflect (anchor = k)) as [<- | Hne];
        [| discriminate].
      intros Hv. destruct (IH _ _ Hv) as [Hk Hkeys].
      assert (Hanchor : anchor <> []) by (destruct anchor; [simpl in Hlen; lia | discriminate]).
      split; [auto |].
      intros k' [<- | Hin] Hne; [symmetry; auto | auto].
Qed.

Lemma validate_keys_result keys :
  forall anchor,
    (exists r, validate_keys anchor keys = Ok r) \/
    validate_keys anchor keys = Err ErrInvalidCrossShardTxn.
Proof.
  induction keys as [| k keys IH]; intros anchor; simpl; [eauto |].
  destruct (Z.of_nat (length anchor) =? 0); [apply IH |].
  destruct (bytes_eqb anchor k); [apply IH | auto].
Qed.

Lemma mutated_keys_referenced req k : In k (compared_or_mutated req) -> In k (referenced req).
Proof.
  unfold compared_or_mutated, referenced. rewrite !in_app_iff, !in_flat_map.
  intros [H | [(op & Hop & Hk) | (op & Hop & Hk)]]; [auto | right; left | right; right];
    exists op; (split; [exact Hop |]); destruct op; simpl in *; tauto.
Qed.

Section TxnExecution.

Context {scheme : Scheme}.

Lemma validateTxn_referenced req :
  ValidateTx_spec scheme -> validateTxn req = validate_keys [] (referenced req).
Proof.
  intros [Hcmp Hops]. unfold validateTxn, referenced.
  rewrite Hcmp, validate_keys_app.
  destruct (validate_keys [] (map cmp_Key (tx_Compare req))) as [key | e | |];
    try reflexivity.
  rewrite Hops, validate_keys_app.
  destruct (validate_keys key (flat_map op_keys (tx_Success req)));
    try reflexivity.
  apply Hops.
Qed.

(** C6. A transaction that compares or mutates two different keys fails
    with invalid-cross-shard-txn, and the world is as it was: the clock is
    not ticked and no member has been called. *)
Theorem Txn_cross_shard (w : World) (req : TxnRequest) (k1 k2 : bytes) :
  ValidateTx_spec scheme ->
  In k1 (compared_or_mutated req) -> In k2 (compared_or_mutated req) ->
  k1 <> [] -> k2 <> [] -> k1 <> k2 ->
  Txn req w = (Err ErrInvalidCrossShardTxn, w).
Proof.
  intros Hspec Hk1 Hk2 Hne1 Hne2 Hdiff.
  assert (Hv : validateTxn req = Err ErrInvalidCrossShardTxn).
  { rewrite (validateTxn_referenced _ Hspec).
    destruct (validate_keys_result (referenced req) []) as [[r Hr] | Herr]; [| exact Herr].
    destruct (validate_keys_Ok _ _ _ Hr) as [_ Hsame].
    apply mutated_keys_referenced in Hk1, Hk2.
    rewrite (Hsame k1 Hk1 Hne1), (Hsame k2 Hk2 Hne2) in Hdiff. contradiction. }
  unfold Txn, bind, pure_call. rewrite Hv. reflexivity.
Qed.

Lemma store_Txn_snd req s : snd (store_Txn req s) = called (CallTxn req) s.
Proof.
  unfold store_Txn, rpc, called. destruct (Faults s) as [| [e |] fs]; reflexivity.
Qed.

(** Past validation, preflight and [tick], the member is sent the
    transaction, whatever it answers. *)
Lemma Txn_reaches_member (w w1 w2 : World) (req : TxnRequest) (key : bytes)
    (cmps : list Compare) (metaRev : Z) (s : Store) :
  validateTxn req = Ok key ->
  resolveComparisons (GetMemberForKey w key) key req [] (tx_Compare req) w
  = (Ok (inr cmps), w1) ->
  tick w1 = (Ok metaRev, w2) ->
  members w2 !! GetMemberForKey w key = Some s ->
  exists r,
    Txn req w
    = (r, set_members w2
            (<[GetMemberForKey w key := called (CallTxn (memberTxnRequest cmps req metaRev)) s]>
               (members w2))).
Proof.
  intros Hv Hres Htick Hs.
  rewrite (Txn_validated _ _ _ Hv). unfold bind at 1. rewrite Hres.
  unfold bind at 1. rewrite Htick.
  unfold bind at 1. rewrite (onMember_lookup _ _ _ _ Hs), store_Txn_snd.
  cbn [fst snd].
  destruct (fst (store_Txn (memberTxnRequest cmps req metaRev) s)) as [resp | e | |]; eauto.
  unfold bind, pure_call, ret.
  destruct (rewriteResponses metaRev (ts_Responses resp)); eauto.
Qed.

(** C4. A transaction that passes validation and preflight and gets
    [metaRev] from [tick] reaches the member with, at the end of both its
    success and its failure branch, a put of the 8-byte little-endian
    [metaRev] to the meta-clock key, and with those 8 bytes appended to
    the value of every put that the branches had. *)
Theorem Txn_clock_write (w w1 w2 : World) (req : TxnRequest) (key : bytes)
    (cmps : list Compare) (metaRev : Z) (s : Store) :
  AppendMetaRevToTxOps_spec scheme ->
  validateTxn req = Ok key ->
  resolveComparisons (GetMemberForKey w key) key req [] (tx_Compare req) w
  = (Ok (inr cmps), w1) ->
  tick w1 = (Ok metaRev, w2) ->
  members w2 !! GetMemberForKey w key = Some s ->
  let buf := PutUint64 (uint64 metaRev) in
  let clockPut := RequestOp_RequestPut (mkPutRequest MetaKey buf 0 false false false) in
  let sent := mkTxnRequest cmps
                (map (appendMetaRev buf) (tx_Success req) ++ [clockPut])
                (map (appendMetaRev buf) (tx_Failure req) ++ [clockPut]) in
  exists r,
    Txn req w
    = (r, set_members w2 (<[GetMemberForKey w key := called (CallTxn sent) s]> (members w2))).
Proof.
  intros Hspec Hv Hres Htick Hs buf clockPut sent.
  replace sent with (memberTxnRequest cmps req metaRev)
    by (unfold memberTxnRequest, sent; rewrite !Hspec; reflexivity).
  eapply Txn_reaches_member; eassumption.
Qed.

Lemma resolveComparisons_absent client key req rest :
  forall done w s,
    members w !! client = Some s -> Faults s = [] -> current key s = [] ->
    resolveComparisons client key req done rest w
    = (Ok (inr (done ++ map zero_target rest)),
       set_members w (<[client := after_reads key (resolved_reads rest) s]> (members w))).
Proof.
  induction rest as [| c rest IH]; intros done w s Hs Hfaults Hcur.
  - simpl. rewrite app_nil_r. unfold after_reads. simpl.
    rewrite (set_members_id _ _ _ Hs). reflexivity.
  - cbn [resolveComparisons map]. rewrite (snoc_app done (zero_target c)).
    unfold resolved_reads, zero_target. cbn [List.filter]. unfold resolved at 1.
    destruct (cmp_TargetUnion c) as [v | r | r | v | l];
      try (apply IH; assumption).
    destruct (Z.eqb_spec r 0) as [Hr | Hr]; cbn [negb]; [apply IH; assumption |].
    unfold bind at 1. unfold resolveModComparison, bind at 1.
    rewrite (onMember_lookup _ _ _ _ Hs).
    rewrite store_Get_current by (unfold fault_at; rewrite Hfaults; reflexivity).
    cbn [fst snd get_response rs_Kvs]. rewrite Hcur. cbn [ret fst snd].
    set (s1 := called (CallGet key None) s).
    set (w1 := set_members w (<[client := s1]> (members w))).
    assert (Hs1 : members w1 !! client = Some s1).
    { apply list_lookup_insert_eq. eapply lookup_lt_Some, Hs. }
    rewrite (IH _ w1 s1 Hs1); [| subst s1; simpl; rewrite Hfaults; reflexivity | exact Hcur].
    subst w1. unfold set_members at 1. cbn [members coordinator GetMemberForKey rand_source
                                            rand_used set_members].
    rewrite list_insert_insert_eq. subst s1. rewrite after_reads_S. reflexivity.
Qed.

(** C10. When the anchor key is not on the owning member, no comparison
    fails the preflight: every [ModRevision] comparison with a target other
    than 0 gets the target 0, and the transaction goes on to [tick] and,
    with the meta-revision it returns, to the member: the request that the
    member receives has the comparisons so rewritten (no [ModRevision]
    target but 0), and the clock put at the end of both branches. *)
Theorem Txn_anchor_absent (w : World) (req : TxnRequest) (key : bytes) (s : Store) :
  validateTxn req = Ok key ->
  members w !! GetMemberForKey w key = Some s ->
  Faults s = [] ->
  current key s = [] ->
  let client := GetMemberForKey w key in
  let cmps := map zero_target (tx_Compare req) in
  let w1 := set_members w
              (<[client := after_reads key (resolved_reads (tx_Compare req)) s]> (members w)) in
  resolveComparisons client key req [] (tx_Compare req) w = (Ok (inr cmps), w1) /\
  forall metaRev w2,
    tick w1 = (Ok metaRev, w2) ->
    let buf := PutUint64 (uint64 metaRev) in
    let clockPut := RequestOp_RequestPut (mkPutRequest MetaKey buf 0 false false false) in
    let sent := mkTxnRequest (map zero_target (tx_Compare req))
                  (AppendMetaRevToTxOps buf (tx_Success req) ++ [clockPut])
                  (AppendMetaRevToTxOps buf (tx_Failure req) ++ [clockPut]) in
    exists r s2,
      members w2 !! client = Some s2 /\
      Txn req w
      = (r, set_members w2 (<[client := called (CallTxn sent) s2]> (members w2))) /\
      Forall (fun c => forall t, cmp_TargetUnion c = Compare_ModRevision t -> t = 0)
             (tx_Compare sent).
Proof.
  intros Hv Hs Hfaults Hcur client cmps w1.
  pose proof (resolveComparisons_absent client key req (tx_Compare req) [] w s
                Hs Hfaults Hcur) as Hres.
  split; [exact Hres |].
  intros metaRev w2 Htick buf clockPut sent.
  assert (Hlen : (client < length (members w2))%nat).
  { pose proof (tick_members_length w1) as Hlen. rewrite Htick in Hlen. cbn [snd] in Hlen.
    rewrite Hlen. subst w1. cbn [members set_members]. rewrite length_insert.
    eapply lookup_lt_Some, Hs. }
  apply lookup_lt_is_Some_2 in Hlen as [s2 Hs2].
  destruct (Txn_reaches_member w w1 w2 req key cmps metaRev s2 Hv Hres Htick Hs2)
    as [r Hr].
  exists r, s2. split; [exact Hs2 |]. split; [exact Hr |].
  unfold sent. cbn [tx_Compare]. apply Forall_forall. intros c Hc.
  apply list_elem_of_In, in_map_iff in Hc as (c0 & <- & _).
  unfold zero_target. intros t.
  destruct (cmp_TargetUnion c0) as [v | v | v | v | v] eqn:Hc0;
    try (rewrite Hc0; discriminate).
  destruct (Z.eqb_spec v 0) as [-> | _].
  - rewrite Hc0. intros [= <-]. reflexivity.
  - cbn [set_ModRevision cmp_TargetUnion]. intros [= <-]. reflexivity.
Qed.

End TxnExecution.

(** *** S6: a transaction across two members *)

Lemma Txn_cross_shard_witness :
  Txn (scheme := SpecScheme) cross_shard_txn two_members
  = (Err ErrInvalidCrossShardTxn, two_members).
Proof.
  apply (Txn_cross_shard (scheme := SpecScheme) two_members cross_shard_txn [97] [98]
           SpecScheme_ValidateTx); simpl; auto; discriminate.
Defined.

(** *** S1: a put *)

Lemma Txn_clock_write_witness :
  exists r,
    Txn (scheme := SpecScheme) put_k txn_world
    = (r, set_members (snd (tick (scheme := SpecScheme) txn_world))
            (<[O := called (CallTxn put_k_sent) member_at_7]>
               (members (snd (tick (scheme := SpecScheme) txn_world))))).
Proof.
  apply (Txn_clock_write (scheme := SpecScheme) txn_world txn_world
           (snd (tick (scheme := SpecScheme) txn_world)) put_k [107] [] 11 member_at_7
           SpecScheme_AppendMetaRevToTxOps); reflexivity.
Defined.

(** *** A comparison on a key that the member does not have *)

Lemma Txn_anchor_absent_witness :
  let w1 := set_members txn_world
              (<[O := called (CallGet [110] None) member_at_7]> (members txn_world)) in
  let w2 := snd (tick (scheme := SpecScheme) w1) in
  let sent :=
    mkTxnRequest [mkCompare EQUAL MOD [110] [] (Compare_ModRevision 0)]
      [ RequestOp_RequestPut (mkPutRequest [110] ([121] ++ PutUint64 11) 0 false false false);
        RequestOp_RequestPut (mkPutRequest spec_MetaKey (PutUint64 11) 0 false false false) ]
      [ RequestOp_RequestPut (mkPutRequest spec_MetaKey (PutUint64 11) 0 false false false) ] in
  resolveComparisons (scheme := SpecScheme) O [110] absent_txn [] [absent_compare] txn_world
  = (Ok (inr [mkCompare EQUAL MOD [110] [] (Compare_ModRevision 0)]), w1) /\
  exists r s2,
    members w2 !! O = Some s2 /\
    Txn (scheme := SpecScheme) absent_txn txn_world
    = (r, set_members w2 (<[O := called (CallTxn sent) s2]> (members w2))) /\
    Forall (fun c => forall t, cmp_TargetUnion c = Compare_ModRevision t -> t = 0)
           (tx_Compare sent).
Proof.
  split.
  - exact (proj1 (Txn_anchor_absent (scheme := SpecScheme) txn_world absent_txn [110]
                    member_at_7 eq_refl eq_refl eq_refl eq_refl)).
  - apply (proj2 (Txn_anchor_absent (scheme := SpecScheme) txn_world absent_txn [110]
                    member_at_7 eq_refl eq_refl eq_refl eq_refl) 11).
    vm_compute. reflexivity.
Defined.

(** *** A delete that does not ask for the previous kvs *)

(** [Txn] sets the header revision of a [ResponseDeleteRange] inside its
    loop over [PrevKvs]: without previous kvs the sub-response is left as
    the member sent it. *)
Lemma rewriteResponse_delete_no_prev_kvs {scheme : Scheme} metaRev h n :
  rewriteResponse metaRev
    (ResponseOp_ResponseDeleteRange (mkDeleteRangeResponse h n []))
  = Ok (ResponseOp_ResponseDeleteRange (mkDeleteRangeResponse h n [])).
Proof. reflexivity. Qed.

(** C7, where the code departs from it.  A delete that does not ask for
    the previous kvs comes back from the member, at its revision 6, with
    no [PrevKvs]; [Txn], under meta-revision 11, rewrites the top-level
    header and the put sub-response to 11 and leaves the delete
    sub-response at 6. *)
Theorem Txn_delete_keeps_member_revision :
  fst (Txn (scheme := SpecScheme) delete_k delete_world)
  = Ok (mkTxnResponse (Some (header_at 11)) true
          [ ResponseOp_ResponseDeleteRange
              (mkDeleteRangeResponse (Some (header_at 6)) 1 []);
            ResponseOp_ResponsePut (mkPutResponse (Some (header_at 11)) None) ]).
Proof. vm_compute. reflexivity. Qed.

(** ** LeaseGrant *)

Lemma store_LeaseGrant_snd req s :
  snd (store_LeaseGrant req s) = called (CallLeaseGrant req) s.
Proof.
  unfold store_LeaseGrant, rpc, called. destruct (Faults s) as [| [e |] fs]; reflexivity.
Qed.

Lemma iterate_grantOnMember req rest :
  forall pre first c g rs ru,
  exists first',
    iterate (grantOnMember req) (seq (length pre) (length rest)) tt first
            (mkWorld c (pre ++ rest) g rs ru)
    = (Ok (tt, first'),
       mkWorld c (pre ++ map (called (CallLeaseGrant req)) rest) g rs ru).
Proof.
  induction rest as [| s rest IH]; intros pre first c g rs ru.
  - exists first. reflexivity.
  - cbn [length seq iterate map]. unfold grantOnMember at 1, bind.
    rewrite onMember_middle, store_LeaseGrant_snd.
    rewrite (seq_snoc_length pre (called (CallLeaseGrant req) s)).
    rewrite (snoc_app pre (called (CallLeaseGrant req) s) rest).
    rewrite (snoc_app pre (called (CallLeaseGrant req) s) (map _ rest)).
    destruct (fst (store_LeaseGrant req s)) as [resp | e | |] eqn:Hreply.
    + destruct (negb (ls_Error resp =? EmptyString)%string);
        [unfold fail | destruct (ret tt _) eqn:Hret; injection Hret as <- <-];
        apply IH.
    + apply IH.
    + unfold store_LeaseGrant, rpc in Hreply.
      destruct (Faults s) as [| [e |] fs]; discriminate.
    + unfold store_LeaseGrant, rpc in Hreply.
      destruct (Faults s) as [| [e |] fs]; discriminate.
Qed.

(** What [LeaseGrant] does for a request without an id: the id that
    [rand.Int63()] returned goes to every member and into the response.
    It is below [2^63] and not negative; nothing keeps it from being 0. *)
Lemma LeaseGrant_shares_id (w : World) (ttl : Z) :
  let id := rand_source w (rand_used w) mod 2 ^ 63 in
  let req := mkLeaseGrantRequest ttl id in
  0 <= id < 2 ^ 63 /\
  exists r,
    LeaseGrant (mkLeaseGrantRequest ttl 0) w
    = (r, mkWorld (coordinator w) (map (called (CallLeaseGrant req)) (members w))
                  (GetMemberForKey w) (rand_source w) (S (rand_used w))) /\
    forall resp, r = Ok resp -> ls_ID resp = id.
Proof.
  intros id req. split; [apply Z.mod_pos_bound; lia |].
  unfold LeaseGrant. cbn [lg_ID lg_TTL]. change (0 =? 0) with true. cbv iota.
  unfold bind at 1 2. unfold rand_Int63 at 1. fold id. cbn [ret]. fold req.
  unfold bind at 1, IterateMembers. cbn [members].
  destruct (iterate_grantOnMember req (members w) [] None (coordinator w)
              (GetMemberForKey w) (rand_source w) (S (rand_used w))) as [first' Hit].
  cbn [app length] in Hit. rewrite Hit. cbn [snd].
  destruct first' as [e |]; eexists; (split; [reflexivity |]).
  - discriminate.
  - intros resp [= <-]. reflexivity.
Qed.

(** C9, where the code departs from it.  [rand.Int63()] may return 0, and
    [LeaseGrant] takes what it returns: the members are then sent the id 0
    (each picks an id of its own) and the response carries 0. *)
Theorem LeaseGrant_zero_id :
  fst (LeaseGrant (mkLeaseGrantRequest 60 0) fresh_world)
  = Ok (mkLeaseGrantResponse (Some (header_at 0)) 0 60 EmptyString) /\
  map Calls (members (snd (LeaseGrant (mkLeaseGrantRequest 60 0) fresh_world)))
  = [ [CallLeaseGrant (mkLeaseGrantRequest 60 0)];
      [CallLeaseGrant (mkLeaseGrantRequest 60 0)] ].
Proof. split; vm_compute; reflexivity. Qed.

(** * Further properties *)

(** ** Fan-out over the members *)

Lemma iterate_fan_out {A} (fn : nat -> A -> M A) (step : Store -> A -> result A * Store) :
  (forall pre s rest a c g rs ru,
     fn (length pre) a (mkWorld c (pre ++ s :: rest) g rs ru)
     = (fst (step s a), mkWorld c (pre ++ snd (step s a) :: rest) g rs ru)) ->
  forall rest pre a first c g rs ru,
    iterate fn (seq (length pre) (length rest)) a first (mkWorld c (pre ++ rest) g rs ru)
    = (fst (fan_out step rest a first),
       mkWorld c (pre ++ snd (fan_out step rest a first)) g rs ru).
Proof.
  intros Hfn. induction rest as [| s rest IH]; intros pre a first c g rs ru.
  - reflexivity.
  - cbn [length seq iterate fan_out]. rewrite Hfn.
    destruct (step s a) as [[a' | e | |] s']; cbn [fst snd]; try reflexivity.
    + rewrite (seq_snoc_length pre s'), (snoc_app pre s' rest), IH.
      destruct (fan_out step rest a' first) as [r ms'']. cbn [fst snd].
      rewrite <- snoc_app. reflexivity.
    + rewrite (seq_snoc_length pre s'), (snoc_app pre s' rest), IH.
      destruct (fan_out step rest a _) as [r ms'']. cbn [fst snd].
      rewrite <- snoc_app. reflexivity.
Qed.

Lemma IterateMembers_fan_out {A} (fn : nat -> A -> M A)
    (step : Store -> A -> result A * Store) (a : A) (w : World) :
  (forall pre s rest a c g rs ru,
     fn (length pre) a (mkWorld c (pre ++ s :: rest) g rs ru)
     = (fst (step s a), mkWorld c (pre ++ snd (step s a) :: rest) g rs ru)) ->
  IterateMembers fn a w
  = (fst (fan_out step (members w) a None),
     set_members w (snd (fan_out step (members w) a None))).
Proof.
  intros Hfn. destruct w as [c ms g rs ru]. unfold IterateMembers, set_members. simpl.
  exact (iterate_fan_out fn step Hfn ms [] a None c g rs ru).
Qed.

(** A relation that every callback keeps holds from member to member. *)
Lemma fan_out_Forall2 {A} (R : Store -> Store -> Prop)
    (step : Store -> A -> result A * Store) :
  (forall s, R s s) ->
  (forall s a, R s (snd (step s a))) ->
  forall ms a first, Forall2 R ms (snd (fan_out step ms a first)).
Proof.
  intros Hrefl Hstep. induction ms as [| s ms IH]; intros a first; cbn [fan_out].
  - constructor.
  - pose proof (Hstep s a) as Hs.
    destruct (step s a) as [[a' | e | |] s']; cbn [snd] in *.
    + specialize (IH a' first). destruct (fan_out step ms a' first). constructor; assumption.
    + specialize (IH a (match first with None => Some e | Some _ => first end)).
      destruct (fan_out step ms a _). constructor; assumption.
    + constructor; [assumption |]. apply Forall_Forall2_diag, Forall_forall. auto.
    + constructor; [assumption |]. apply Forall_Forall2_diag, Forall_forall. auto.
Qed.

(** An error of one callback is never lost. *)
Lemma fan_out_first {A} (step : Store -> A -> result A * Store) :
  forall ms a first r,
    fst (fan_out step ms a first) = Ok r -> first <> None -> snd r <> None.
Proof.
  induction ms as [| s ms IH]; intros a first r; cbn [fan_out].
  - intros [= <-]. simpl. tauto.
  - destruct (step s a) as [[a' | e | |] s']; try discriminate.
    + destruct (fan_out step ms a' first) as [r' ms''] eqn:Hf. cbn [fst]. intros ->.
      apply (IH a' first r). rewrite Hf. reflexivity.
    + destruct (fan_out step ms a (match first with None => Some e | Some _ => first end))
        as [r' ms''] eqn:Hf. cbn [fst]. intros -> Hfirst.
      apply (IH a (match first with None => Some e | Some _ => first end) r).
      * rewrite Hf. reflexivity.
      * destruct first; [assumption | discriminate].
Qed.

(** When no error is reported, every callback has returned. *)
Lemma fan_out_Ok {A} (step : Store -> A -> result A * Store) :
  forall ms a first a',
    fst (fan_out step ms a first) = Ok (a', None) ->
    Forall2 (fun s s' => exists a0 a1, step s a0 = (Ok a1, s'))
            ms (snd (fan_out step ms a first)).
Proof.
  induction ms as [| s ms IH]; intros a first a'; cbn [fan_out].
  - constructor.
  - destruct (step s a) as [[a1 | e | |] s'] eqn:Hs; try discriminate.
    + specialize (IH a1 first a').
      destruct (fan_out step ms a1 first) as [r' ms'']. cbn [fst snd] in *.
      intros Hr. constructor; [eauto | auto].
    + pose proof (fan_out_first step ms a
                    (match first with None => Some e | Some _ => first end) (a', None)) as Hne.
      destruct (fan_out step ms a _) as [r' ms'']. cbn [fst snd] in *.
      intros Hr. exfalso. apply Hne; [exact Hr | destruct first; discriminate | reflexivity].
Qed.

(** ** Revision resolver: what it returns *)

Lemma store_Get_snd key rev s : snd (store_Get key rev s) = called (CallGet key rev) s.
Proof.
  unfold store_Get, rpc, called. destruct (Faults s) as [| [e |] fs]; simpl;
    destruct rev as [r |]; try reflexivity;
    destruct (r <? CompactRev s); try reflexivity; destruct (Rev s <? r); reflexivity.
Qed.

(** The first match of a read in a history that is newest first is the
    newest revision of the key at or below the revision read. *)
Lemma lookup_at_newest key z h kv kvs :
  newest_first h ->
  lookup_at key z h = kv :: kvs ->
  exists e,
    In e h /\ entry_kv e = kv /\ entry_deleted e = false /\ Key kv = key /\
    ModRevision kv <= z /\
    forall e', In e' h -> Key (entry_kv e') = key -> ModRevision (entry_kv e') <= z ->
               ModRevision (entry_kv e') < ModRevision kv \/ e' = e.
Proof.
  intros Hs. induction h as [| e0 h IH]; simpl; [discriminate |].
  apply StronglySorted_inv in Hs as [Hs Hhd].
  unfold bytes_eqb. destruct (bool_decide_reflect (Key (entry_kv e0) = key)) as [Hk | Hk]; simpl.
  - destruct (Z.leb_spec (ModRevision (entry_kv e0)) z) as [Hle | Hgt].
    + destruct (entry_deleted e0) eqn:Hdel; [discriminate |]. intros [= <- <-].
      exists e0. repeat split; auto.
      intros e' [<- | Hin] Hk' Hz; [auto |]. left.
      rewrite List.Forall_forall in Hhd. destruct (Hhd e' Hin) as [_ Hlt].
      apply Hlt. congruence.
    + intros Hfind. destruct (IH Hs Hfind) as (e & Hin & Hkv & Hdel & Hkey & Hle & Hmax).
      exists e. repeat split; auto.
      intros e' [<- | Hin'] Hk' Hz; [lia | auto].
  - intros Hfind. destruct (IH Hs Hfind) as (e & Hin & Hkv & Hdel & Hkey & Hle & Hmax).
    exists e. repeat split; auto.
    intros e' [<- | Hin'] Hk' Hz; [congruence | auto].
Qed.

Section ResolverCorrectness.

Context {scheme : Scheme}.

Lemma getMemberRev_loop_reads fuel metaRev :
  forall z s,
    let s' := snd (getMemberRev_loop fuel metaRev z s) in
    Rev s' = Rev s /\ CompactRev s' = CompactRev s /\ History s' = History s /\
    exists new, Calls s' = new ++ Calls s /\
                Forall (fun c => exists r, c = CallGet MetaKey r) new.
Proof.
  induction fuel as [| fuel IH]; intros z s; cbv zeta.
  { simpl. repeat split. exists []. split; [reflexivity | constructor]. }
  cbn [getMemberRev_loop]. set (opts := if z >? 0 then Some z else None).
  unfold bind. pose proof (store_Get_snd MetaKey opts s) as Hsnd.
  assert (Hone : Rev (called (CallGet MetaKey opts) s) = Rev s /\
                 CompactRev (called (CallGet MetaKey opts) s) = CompactRev s /\
                 History (called (CallGet MetaKey opts) s) = History s /\
                 exists new, Calls (called (CallGet MetaKey opts) s) = new ++ Calls s /\
                             Forall (fun c => exists r, c = CallGet MetaKey r) new).
  { repeat split. exists [CallGet MetaKey opts]. split; [reflexivity |].
    repeat constructor. eauto. }
  destruct (store_Get MetaKey opts s) as [[resp | e | |] s1]; cbn [snd] in *; subst s1;
    try exact Hone.
  destruct (rs_Kvs resp) as [| kv kvs].
  { destruct (rs_Header resp); exact Hone. }
  destruct (Uint64 (Value kv)) as [u |]; [| exact Hone].
  destruct (int64 u >? metaRev); [| exact Hone].
  destruct (IH (int64 (ModRevision kv - 1)) (called (CallGet MetaKey opts) s))
    as (HR & HC & HH & new & Hcalls & Hnew).
  repeat split; [exact HR | exact HC | exact HH |].
  exists (new ++ [CallGet MetaKey opts]). rewrite Hcalls.
  split; [rewrite <- app_assoc; reflexivity |].
  apply Forall_app. split; [exact Hnew | repeat constructor; eauto].
Qed.

(** X1. [getMemberRev] only reads, whatever it returns and however long it
    runs: the cluster's revision, compacted revision and history are as
    before, and every call it made is a read of the meta-clock key. *)
Theorem getMemberRev_reads_only (fuel : nat) (metaRev : Z) (s : Store) :
  let s' := snd (getMemberRev fuel metaRev s) in
  Rev s' = Rev s /\ CompactRev s' = CompactRev s /\ History s' = History s /\
  exists new, Calls s' = new ++ Calls s /\
              Forall (fun c => exists r, c = CallGet MetaKey r) new.
Proof. apply getMemberRev_loop_reads. Qed.

(** The read of one turn of the loop: as of [z] when [z > 0], of the
    current revision otherwise. *)
Lemma getMemberRev_loop_resolved fuel metaRev :
  forall z s r,
    etcd_revisions s -> newest_first (History s) -> 0 <= z ->
    (forall e', In e' (History s) -> Key (entry_kv e') = MetaKey ->
                (if z >? 0 then z else Rev s) < ModRevision (entry_kv e') <= Rev s ->
                too_new metaRev e') ->
    fst (getMemberRev_loop fuel metaRev z s) = Ok r ->
    resolved_at metaRev (History s) (Rev s) r.
Proof.
  induction fuel as [| fuel IH]; intros z s r Hwf Hsorted Hz Hinv; [discriminate |].
  cbn [getMemberRev_loop]. set (opts := if z >? 0 then Some z else None).
  set (s1 := called (CallGet MetaKey opts) s).
  assert (Hcont : forall zr, zr <= Rev s ->
            (forall e', In e' (History s) -> Key (entry_kv e') = MetaKey ->
                        zr < ModRevision (entry_kv e') <= Rev s -> too_new metaRev e') ->
            fst (match lookup_at MetaKey zr (History s) with
                 | [] => ret (Rev s)
                 | kv :: _ =>
                     match Uint64 (Value kv) with
                     | None => panic
                     | Some u =>
                         if int64 u >? metaRev
                         then getMemberRev_loop fuel metaRev (int64 (ModRevision kv - 1))
                         else ret (ModRevision kv)
                     end
                 end s1) = Ok r ->
            resolved_at metaRev (History s) (Rev s) r).
  { intros zr Hzr Hinv'.
    destruct (lookup_at MetaKey zr (History s)) as [| kv kvs] eqn:Hfind.
    { intros [= <-]. right. split; [reflexivity |]. exists zr. auto. }
    destruct (lookup_at_newest _ _ _ _ _ Hsorted Hfind)
      as (e & Hin & Hkv & Hdel & Hkey & Hle & Hmax).
    pose proof (proj1 (List.Forall_forall _ _) Hwf e Hin) as Hrev. cbv beta in Hrev.
    rewrite Hkv in Hrev.
    destruct (Uint64 (Value kv)) as [u |] eqn:Hu; [| discriminate].
    assert (Hval : clock_value e = Some (int64 u)).
    { unfold clock_value. rewrite Hkv, Hu. reflexivity. }
    destruct (Z.gtb_spec (int64 u) metaRev) as [Hgt | Hle'].
    - rewrite int64_id by (unfold in_int64, MinInt64, MaxInt64 in *; lia).
      intros Hres.
      apply (IH (ModRevision kv - 1) s1 r Hwf Hsorted ltac:(lia)); [| exact Hres].
      destruct (Z.gtb_spec (ModRevision kv - 1) 0) as [_ | ?]; [| lia].
      change (History s1) with (History s). change (Rev s1) with (Rev s).
      intros e' Hin' Hk' Hbound.
      destruct (Z.le_gt_cases (ModRevision (entry_kv e')) zr) as [Hlow | Hhigh].
      + destruct (Hmax e' Hin' Hk' Hlow) as [Hlt | ->]; [lia |].
        split; [exact Hdel | exists (int64 u); split; [exact Hval | lia]].
      + apply Hinv'; [assumption | assumption | lia].
    - intros [= <-]. left. exists e. rewrite Hkv.
      split; [exact Hin |]. split; [exact Hkey |]. split; [exact Hdel |].
      split; [reflexivity |]. split.
      + exists (int64 u). split; [exact Hval | lia].
      + intros e' Hin' Hk' Hbound.
        destruct (Z.le_gt_cases (ModRevision (entry_kv e')) zr) as [Hlow | Hhigh].
        * destruct (Hmax e' Hin' Hk' Hlow) as [Hlt | ->]; [lia |]. rewrite Hkv in Hbound. lia.
        * apply Hinv'; [assumption | assumption | lia]. }
  unfold bind, store_Get.
  destruct (fault_at s 0) as [e |] eqn:Hf.
  { rewrite (rpc_fault _ _ _ e Hf). discriminate. }
  rewrite rpc_ok by assumption. fold s1.
  subst opts. destruct (Z.gtb_spec z 0) as [Hpos | Hzero].
  - destruct (z <? CompactRev s1); [discriminate |].
    destruct (Z.ltb_spec (Rev s1) z) as [| Hle]; [discriminate |].
    cbn [get_response rs_Kvs rs_Header header_at Revision].
    change (History s1) with (History s). change (Rev s1) with (Rev s) in *.
    intros Hres. apply (Hcont z Hle Hinv).
    destruct (lookup_at MetaKey z (History s)); exact Hres.
  - cbn [get_response rs_Kvs rs_Header header_at Revision].
    change (History s1) with (History s). change (Rev s1) with (Rev s) in *.
    intros Hres. apply (Hcont (Rev s) (Z.le_refl _) Hinv).
    destruct (lookup_at MetaKey (Rev s) (History s)); exact Hres.
Qed.

(** X2. What [getMemberRev] resolves a meta-revision to, on a member
    whose history is newest first with etcd's revisions: the mod-revision
    of the newest write of the meta-clock key whose meta-revision is at
    or below the target (every newer write of the key holds a
    meta-revision above it), or the member's current revision when the
    walk back ends where the key is not there. *)
Theorem getMemberRev_resolves (fuel : nat) (metaRev : Z) (s : Store) (r : Z) :
  etcd_revisions s -> newest_first (History s) ->
  fst (getMemberRev fuel metaRev s) = Ok r ->
  resolved_at metaRev (History s) (Rev s) r.
Proof.
  intros Hwf Hsorted. apply getMemberRev_loop_resolved; [exact Hwf | exact Hsorted | lia |].
  change (0 >? 0) with false. cbv iota. intros e' _ _ Hbound. lia.
Qed.

End ResolverCorrectness.

Lemma lookup_at_key key z h kv kvs :
  lookup_at key z h = kv :: kvs ->
  exists e, In e h /\ entry_kv e = kv /\ Key kv = key.
Proof.
  induction h as [| e0 h IH]; simpl; [discriminate |].
  unfold bytes_eqb. destruct (bool_decide_reflect (Key (entry_kv e0) = key)) as [Hk | Hk]; simpl.
  - destruct (ModRevision (entry_kv e0) <=? z).
    + destruct (entry_deleted e0); [discriminate |]. intros [= <- <-]. eauto.
    + intros Hfind. destruct (IH Hfind) as (e & Hin & Hkv & Hkey). eauto.
  - intros Hfind. destruct (IH Hfind) as (e & Hin & Hkv & Hkey). eauto.
Qed.

Section ResolverEdges.

Context {scheme : Scheme}.

Lemma getMemberRev_loop_before fuel metaRev :
  forall z s,
    etcd_revisions s -> Faults s = [] -> CompactRev s <= 1 ->
    (forall e, In e (History s) -> Key (entry_kv e) = MetaKey ->
               exists v, clock_value e = Some v /\ metaRev < v) ->
    0 <= z <= Rev s ->
    (visible MetaKey (if z >? 0 then z else Rev s) (History s) < fuel)%nat ->
    fst (getMemberRev_loop fuel metaRev z s) = Ok (Rev s).
Proof.
  induction fuel as [| fuel IH]; intros z s Hwf Hfaults Hcompact Hall Hz Hfuel; [lia |].
  cbn [getMemberRev_loop]. set (opts := if z >? 0 then Some z else None).
  set (s1 := called (CallGet MetaKey opts) s).
  assert (Hcont : forall zr, zr <= Rev s ->
            (visible MetaKey zr (History s) < S fuel)%nat ->
            fst (match lookup_at MetaKey zr (History s) with
                 | [] => ret (Rev s)
                 | kv :: _ =>
                     match Uint64 (Value kv) with
                     | None => panic
                     | Some u =>
                         if int64 u >? metaRev
                         then getMemberRev_loop fuel metaRev (int64 (ModRevision kv - 1))
                         else ret (ModRevision kv)
                     end
                 end s1) = Ok (Rev s)).
  { intros zr Hzr Hvis.
    destruct (lookup_at MetaKey zr (History s)) as [| kv kvs] eqn:Hfind; [reflexivity |].
    destruct (lookup_at_key _ _ _ _ _ Hfind) as (e & Hin & Hkv & Hkey).
    destruct (lookup_at_found _ _ _ _ _ Hfind) as (Hle & _ & Hlt).
    pose proof (proj1 (List.Forall_forall _ _) Hwf e Hin) as Hrev. cbv beta in Hrev.
    rewrite Hkv in Hrev.
    destruct (Hall e Hin ltac:(congruence)) as (v & Hv & Hnew).
    unfold clock_value in Hv. rewrite Hkv in Hv.
    destruct (Uint64 (Value kv)) as [u |]; [| discriminate]. injection Hv as <-.
    destruct (Z.gtb_spec (int64 u) metaRev) as [_ | ?]; [| lia].
    rewrite int64_id by (unfold in_int64, MinInt64, MaxInt64 in *; lia).
    change (Rev s) with (Rev s1).
    apply IH.
    - exact Hwf.
    - unfold s1, called. simpl. rewrite Hfaults. reflexivity.
    - exact Hcompact.
    - exact Hall.
    - change (Rev s1) with (Rev s). lia.
    - destruct (Z.gtb_spec (ModRevision kv - 1) 0) as [_ | ?]; [| lia].
      change (History s1) with (History s). lia. }
  assert (Hf : fault_at s 0 = None) by (unfold fault_at; rewrite Hfaults; reflexivity).
  unfold bind, store_Get. rewrite rpc_ok by assumption. fold s1.
  subst opts. destruct (Z.gtb_spec z 0) as [Hpos | Hzero].
  - change (CompactRev s1) with (CompactRev s). change (Rev s1) with (Rev s).
    destruct (Z.ltb_spec z (CompactRev s)) as [| _]; [lia |].
    destruct (Z.ltb_spec (Rev s) z) as [| _]; [lia |].
    cbn [get_response rs_Kvs rs_Header header_at Revision].
    change (History s1) with (History s). change (Rev s1) with (Rev s).
    specialize (Hcont z ltac:(lia) Hfuel).
    destruct (lookup_at MetaKey z (History s)); exact Hcont.
  - cbn [get_response rs_Kvs rs_Header header_at Revision].
    change (History s1) with (History s). change (Rev s1) with (Rev s).
    specialize (Hcont (Rev s) ltac:(lia) Hfuel).
    destruct (lookup_at MetaKey (Rev s) (History s)); exact Hcont.
Qed.

(** X3. A target meta-revision below every meta-revision that the
    member's meta-clock key has held (any target, on a member that was
    never written) resolves to the member's current revision: the walk
    back ends at a revision where the key is not there, and the header of
    that read carries the current revision. *)
Theorem getMemberRev_before_first_write (fuel : nat) (metaRev : Z) (s : Store) :
  etcd_revisions s -> Faults s = [] -> CompactRev s <= 1 -> 0 <= Rev s ->
  (forall e, In e (History s) -> Key (entry_kv e) = MetaKey ->
             exists v, clock_value e = Some v /\ metaRev < v) ->
  (length (History s) < fuel)%nat ->
  fst (getMemberRev fuel metaRev s) = Ok (Rev s).
Proof.
  intros Hwf Hfaults Hcompact Hrev Hall Hfuel.
  apply getMemberRev_loop_before; try assumption; [lia |].
  change (0 >? 0) with false. cbv iota.
  pose proof (visible_le_length MetaKey (Rev s) (History s)). lia.
Qed.

(** X4. A meta-clock value shorter than 8 bytes: [reconstituteClock]'s
    callback checks the length and passes over the member, [getMemberRev]
    decodes without the check and panics. *)
Theorem short_clock_value (fuel : nat) (metaRev latest : Z) (w : World) (i : nat)
    (s : Store) (kv : KeyValue) (kvs : list KeyValue) :
  members w !! i = Some s ->
  fault_at s 0 = None ->
  current MetaKey s = kv :: kvs ->
  (length (Value kv) < 8)%nat ->
  fst (readMemberClock i latest w) = Ok latest /\
  fst (onMember i (getMemberRev (S fuel) metaRev) w) = Panic.
Proof.
  intros Hs Hf Hcur Hlen. split.
  - unfold readMemberClock, bind.
    rewrite (onMember_lookup _ _ _ _ Hs), (store_Get_current _ _ Hf).
    cbn [fst snd get_response rs_Kvs]. rewrite Hcur.
    destruct (Z.ltb_spec (Z.of_nat (length (Value kv))) 8) as [_ | ?]; [reflexivity | lia].
  - rewrite (onMember_lookup _ _ _ _ Hs). cbn [fst].
    unfold getMemberRev. cbn [getMemberRev_loop]. change (0 >? 0) with false. cbv iota.
    unfold bind. rewrite (store_Get_current _ _ Hf).
    cbn [get_response rs_Kvs]. rewrite Hcur, (Uint64_None _ Hlen). reflexivity.
Qed.

End ResolverEdges.

Lemma member_at_7_revisions : etcd_revisions member_at_7.
Proof. unfold etcd_revisions, member_at_7, MaxInt64. simpl. repeat constructor; simpl; lia. Qed.

Lemma member_at_7_newest_first : newest_first (History member_at_7).
Proof.
  unfold newest_first, member_at_7. simpl.
  repeat constructor; simpl; try lia; intros [=].
Qed.

Lemma getMemberRev_resolves_witness :
  resolved_at (scheme := SpecScheme) 5 (History member_at_7) (Rev member_at_7) 2.
Proof.
  apply (getMemberRev_resolves (scheme := SpecScheme) 5 5 member_at_7 2).
  - exact member_at_7_revisions.
  - exact member_at_7_newest_first.
  - vm_compute. reflexivity.
Defined.

(** The member's first write ran under meta-revision 4: a read at 3
    resolves to its current revision 5. *)
Lemma getMemberRev_before_first_write_witness :
  fst (getMemberRev (scheme := SpecScheme) 5 3 member_at_7) = Ok (Rev member_at_7).
Proof.
  apply (getMemberRev_before_first_write (scheme := SpecScheme) 5 3 member_at_7).
  - exact member_at_7_revisions.
  - reflexivity.
  - simpl. lia.
  - simpl. lia.
  - intros e Hin Hkey. simpl in Hin.
    destruct Hin as [<- | [<- | [<- | [<- | []]]]]; try discriminate Hkey;
      eexists; (split; [vm_compute; reflexivity | lia]).
  - simpl. lia.
Defined.

Lemma short_clock_value_witness :
  fst (readMemberClock (scheme := SpecScheme) 0 0 short_clock_world) = Ok 0 /\
  fst (onMember 0 (getMemberRev (scheme := SpecScheme) 1 5) short_clock_world) = Panic.
Proof.
  apply (short_clock_value (scheme := SpecScheme) 0 5 0 short_clock_world 0
           member_short_clock (mkKeyValue spec_MetaKey 2 2 1 [1; 2; 3] 0) []).
  - reflexivity.
  - reflexivity.
  - vm_compute. reflexivity.
  - simpl. lia.
Defined.

(** ** Clock service: locking, recovery and reads after ticks *)

Section ClockRecovery.

Context {scheme : Scheme}.

Lemma iterate_readMemberClock_calls rest :
  forall pre a first c g rs ru,
  exists first',
    iterate readMemberClock (seq (length pre) (length rest)) a first
            (mkWorld c (pre ++ rest) g rs ru)
    = (Ok (fold_left acc_clock rest a, first'),
       mkWorld c (pre ++ map (called (CallGet MetaKey None)) rest) g rs ru).
Proof.
  induction rest as [| s rest IH]; intros pre a first c g rs ru.
  - exists first. reflexivity.
  - cbn [length seq iterate map fold_left]. rewrite readMemberClock_middle.
    rewrite (seq_snoc_length pre (called (CallGet MetaKey None) s)).
    rewrite (snoc_app pre (called (CallGet MetaKey None) s) rest).
    rewrite (snoc_app pre (called (CallGet MetaKey None) s) (map _ rest)).
    destruct (fault_at s 0) as [e |] eqn:Hf.
    + replace (acc_clock a s) with a
        by (unfold acc_clock, member_clock; rewrite Hf; reflexivity).
      apply IH.
    + apply IH.
Qed.

(** The members after [reconstituteClock]: each one read once when the
    clock is rebuilt, none touched otherwise. *)
Lemma reconstituteClock_members delta w :
  members (snd (reconstituteClock delta w))
  = match fault_at (coordinator w) 1, current MetaKey (coordinator w) with
    | None, [] => map (called (CallGet MetaKey None)) (members w)
    | _, _ => members w
    end.
Proof.
  unfold reconstituteClock. rewrite onCoordinator_unit_snd.
  set (c := coordinator w). set (w1 := set_coordinator w (called CallLock c)).
  unfold bind at 1, wrap_err. rewrite onCoordinator_eq.
  change (coordinator w1) with (called CallLock c).
  destruct (fault_at c 1) as [e |] eqn:Hget.
  - unfold store_Get. rewrite (rpc_fault _ _ _ e) by (rewrite fault_at_called; exact Hget).
    cbn [fst snd]. rewrite onCoordinator_unit_snd. reflexivity.
  - rewrite store_Get_current by (rewrite fault_at_called; exact Hget).
    cbn [fst snd get_response rs_Kvs].
    change (current MetaKey (called CallLock c)) with (current MetaKey c).
    destruct (current MetaKey c) as [| kv kvs] eqn:Hcur.
    + set (w2 := set_coordinator w1 _).
      destruct (iterate_readMemberClock_calls (members w) [] 0 None (coordinator w2)
                  (GetMemberForKey w) (rand_source w) (rand_used w)) as [first' Hit].
      unfold bind, IterateMembers.
      change (iterate readMemberClock (seq 0 (length (members w2))) 0 None w2)
        with (iterate readMemberClock (seq (length (@nil Store)) (length (members w))) 0 None
                (mkWorld (coordinator w2) ([] ++ members w) (GetMemberForKey w)
                         (rand_source w) (rand_used w))).
      rewrite Hit. cbn [app]. rewrite onCoordinator_eq. cbn [coordinator].
      destruct (store_Put MetaKey _ (coordinator w2)) as [[[] | e | |] c3];
        cbn [fst snd ret]; rewrite onCoordinator_unit_snd; reflexivity.
    + cbn [ret fst snd]. rewrite onCoordinator_unit_snd. reflexivity.
Qed.

Lemma reconstituteClock_coordinator delta w :
  coordinator (snd (reconstituteClock delta w)) = reconstituted_coordinator delta w.
Proof.
  destruct (reconstituteClock_eq delta w) as (ms' & _ & ->). reflexivity.
Qed.

Lemma reconstituteClock_value delta w :
  fst (reconstituteClock delta w) = reconstituted_value delta w.
Proof.
  destruct (reconstituteClock_eq delta w) as (ms' & _ & ->). reflexivity.
Qed.

(** X5. [reconstituteClock] takes the reconstitution lock before its
    first call and releases it after its last one, whatever happens in
    between (a failed read, a failed put, a clock that is there after
    all): on the coordinator, its calls begin with the lock, end with the
    unlock, and have neither in between. *)
Theorem reconstituteClock_unlocks (delta : Z) (w : World) :
  exists mid,
    Calls (coordinator (snd (reconstituteClock delta w)))
    = CallUnlock :: mid ++ CallLock :: Calls (coordinator w) /\
    Forall (fun c => c <> CallLock /\ c <> CallUnlock) mid.
Proof.
  rewrite reconstituteClock_coordinator. unfold reconstituted_coordinator.
  destruct (fault_at (coordinator w) 1).
  { exists [CallGet MetaKey None]. split; [reflexivity |]. repeat constructor; discriminate. }
  destruct (current MetaKey (coordinator w)).
  2: { exists [CallGet MetaKey None]. split; [reflexivity |].
       repeat constructor; discriminate. }
  destruct (fault_at (coordinator w) 2);
    eexists [CallPut MetaKey _; CallGet MetaKey None];
    (split; [reflexivity |]); repeat constructor; discriminate.
Qed.

(** X6. The double check under the lock: once [reconstituteClock] has
    rebuilt the clock, a second [reconstituteClock] (of a proxy that had
    seen the key missing too) finds the key, returns its decoded value,
    writes nothing and reads no member. *)
Theorem reconstituteClock_twice (delta delta' : Z) (w : World) :
  let c := coordinator w in
  let w1 := snd (reconstituteClock delta w) in
  let w2 := snd (reconstituteClock delta' w1) in
  fault_at c 1 = None -> current MetaKey c = [] -> fault_at c 2 = None ->
  fault_at c 5 = None ->
  exists kv,
    current MetaKey (coordinator w1) = [kv] /\
    fst (reconstituteClock delta' w1) = Ok (ResolveMetaRev kv) /\
    History (coordinator w2) = History (coordinator w1) /\
    Rev (coordinator w2) = Rev (coordinator w1) /\
    members w2 = members w1.
Proof.
  intros c w1 w2 Hget Hcur Hput Hget'.
  set (buf := PutUint64 (uint64 (max0 (member_clocks w) + delta - 1))).
  assert (Hc1 : coordinator w1 = rebuilt c buf).
  { unfold w1. rewrite reconstituteClock_coordinator. unfold reconstituted_coordinator.
    fold c. rewrite Hget, Hcur, Hput. reflexivity. }
  assert (Hf1 : fault_at (coordinator w1) 1 = None).
  { rewrite Hc1. unfold rebuilt.
    rewrite fault_at_called.
    change (fault_at (push_entry ?s ?e) 2) with (fault_at s 2).
    rewrite !fault_at_called. exact Hget'. }
  exists (mkKeyValue MetaKey (Rev c + 1) (Rev c + 1) 1 buf 0).
  assert (Hcur1 : current MetaKey (coordinator w1)
                  = [mkKeyValue MetaKey (Rev c + 1) (Rev c + 1) 1 buf 0]).
  { rewrite Hc1. apply current_rebuilt. }
  split; [exact Hcur1 |].
  split.
  { rewrite reconstituteClock_value. unfold reconstituted_value.
    rewrite Hf1, Hcur1. reflexivity. }
  assert (Hc2 : coordinator w2 = reread (coordinator w1)).
  { unfold w2. rewrite reconstituteClock_coordinator. unfold reconstituted_coordinator.
    rewrite Hf1, Hcur1. reflexivity. }
  split; [rewrite Hc2; reflexivity |]. split; [rewrite Hc2; reflexivity |].
  unfold w2. rewrite reconstituteClock_members, Hf1, Hcur1. reflexivity.
Qed.

Lemma member_clocks_unreachable ms :
  Forall (fun s => fault_at s 0 <> None) ms -> omap member_clock ms = [].
Proof.
  induction 1 as [| s ms Hs _ IH]; [reflexivity |].
  cbn [omap list_omap]. unfold member_clock at 1.
  destruct (fault_at s 0); [exact IH | congruence].
Qed.

(** X7. Member read errors are dropped by [reconstituteClock]: when the
    clock is lost and no member can be read, it restarts the clock from
    nothing, returns [delta] (1 for a tick, 0 for a read) and stores
    [delta - 1], whatever meta-revisions the members hold. *)
Theorem reconstituteClock_members_unreachable (delta : Z) (w : World) :
  let c := coordinator w in
  fault_at c 1 = None -> current MetaKey c = [] -> fault_at c 2 = None ->
  Forall (fun s => fault_at s 0 <> None) (members w) ->
  in_int64 delta ->
  fst (reconstituteClock delta w) = Ok delta /\
  map Value (current MetaKey (coordinator (snd (reconstituteClock delta w))))
  = [PutUint64 (uint64 (delta - 1))].
Proof.
  intros c Hget Hcur Hput Hms Hdelta.
  rewrite reconstituteClock_value, reconstituteClock_coordinator.
  unfold reconstituted_value, reconstituted_coordinator. fold c.
  rewrite Hget, Hcur, Hput. unfold member_clocks.
  rewrite (member_clocks_unreachable _ Hms). cbn [max0 fold_right].
  rewrite current_rebuilt. cbn [map Value Z.add].
  rewrite int64_id by exact Hdelta. split; reflexivity.
Qed.

Lemma tick_live w kv kvs :
  fault_at (coordinator w) 0 = None ->
  current MetaKey (coordinator w) = kv :: kvs ->
  tick w
  = (Ok (ResolveMetaRev
           (mkKeyValue MetaKey (CreateRevision kv) (Rev (coordinator w) + 1) (Version kv + 1)
                       (Value kv) (Lease kv))),
     set_coordinator w
       (push_entry (called (CallTick MetaKey) (coordinator w))
          (mkEntry (mkKeyValue MetaKey (CreateRevision kv) (Rev (coordinator w) + 1)
                               (Version kv + 1) (Value kv) (Lease kv)) false))).
Proof.
  intros Hf0 Hcur. unfold tick. rewrite onCoordinator_eq. unfold store_Tick.
  rewrite rpc_ok by exact Hf0.
  change (lookup_at MetaKey (Rev (called (CallTick MetaKey) (coordinator w)))
            (History (called (CallTick MetaKey) (coordinator w))))
    with (current MetaKey (coordinator w)).
  rewrite Hcur. reflexivity.
Qed.

(** X8. A tick on a live clock is one transaction on the coordinator: its
    revision and the key's version go up by one, the stored value stays,
    no member is called; and a [now] right after returns what the tick
    returned, without writing. *)
Theorem tick_then_now (w : World) (kv : KeyValue) (kvs : list KeyValue) :
  let c := coordinator w in
  let kv' := mkKeyValue MetaKey (CreateRevision kv) (Rev c + 1) (Version kv + 1)
                        (Value kv) (Lease kv) in
  let w1 := snd (tick w) in
  let w2 := snd (now w1) in
  fault_at c 0 = None -> fault_at c 1 = None ->
  current MetaKey c = kv :: kvs ->
  fst (tick w) = Ok (ResolveMetaRev kv') /\
  fst (now w1) = Ok (ResolveMetaRev kv') /\
  Rev (coordinator w1) = Rev c + 1 /\
  History (coordinator w1) = mkEntry kv' false :: History c /\
  History (coordinator w2) = History (coordinator w1) /\
  members w2 = members w.
Proof.
  intros c kv' w1 w2 Hf0 Hf1 Hcur.
  assert (Htick : tick w
                  = (Ok (ResolveMetaRev kv'),
                     set_coordinator w
                       (push_entry (called (CallTick MetaKey) c) (mkEntry kv' false)))).
  { exact (tick_live w kv kvs Hf0 Hcur). }
  set (c1 := push_entry (called (CallTick MetaKey) c) (mkEntry kv' false)) in *.
  assert (Hw1 : w1 = set_coordinator w c1) by (unfold w1; rewrite Htick; reflexivity).
  assert (Hcur1 : current MetaKey c1 = [kv']).
  { unfold current, c1, push_entry. simpl. unfold bytes_eqb.
    rewrite bool_decide_eq_true_2 by reflexivity. rewrite Z.leb_refl. reflexivity. }
  assert (Hnow : now w1 = (Ok (ResolveMetaRev kv'),
                           set_coordinator w1 (called (CallGet MetaKey None) c1))).
  { unfold now, bind, wrap_err. rewrite onCoordinator_eq, Hw1.
    change (coordinator (set_coordinator w c1)) with c1.
    rewrite store_Get_current
      by (unfold c1; change (fault_at (push_entry ?s ?e) 0) with (fault_at s 0);
          rewrite fault_at_called; exact Hf1).
    cbn [fst snd get_response rs_Kvs]. rewrite Hcur1. reflexivity. }
  rewrite Htick. cbn [fst]. split; [reflexivity |].
  unfold w2. rewrite Hnow. cbn [fst snd]. split; [reflexivity |].
  rewrite Hw1. repeat split.
Qed.

End ClockRecovery.

(** ** Calls that touch one member *)

Lemma reads_only_refl s : reads_only s s.
Proof. repeat split. exists []. split; [reflexivity | constructor]. Qed.

Lemma reads_only_trans s1 s2 s3 : reads_only s1 s2 -> reads_only s2 s3 -> reads_only s1 s3.
Proof.
  intros (HR & HC & HH & new & Hcalls & Hnew) (HR' & HC' & HH' & new' & Hcalls' & Hnew').
  repeat split; try congruence.
  exists (new' ++ new). rewrite Hcalls', Hcalls, app_assoc.
  split; [reflexivity | apply Forall_app; auto].
Qed.

Lemma reads_only_called c s : is_read c -> reads_only s (called c s).
Proof.
  intros Hc. repeat split. exists [c]. split; [reflexivity | repeat constructor; exact Hc].
Qed.

Lemma Forall2_reads_only_refl ms : Forall2 reads_only ms ms.
Proof. apply Forall_Forall2_diag, Forall_forall. intros s _. apply reads_only_refl. Qed.

Lemma Forall2_reads_only_trans ms1 ms2 ms3 :
  Forall2 reads_only ms1 ms2 -> Forall2 reads_only ms2 ms3 -> Forall2 reads_only ms1 ms3.
Proof. apply Forall2_trans. exact reads_only_trans. Qed.

Lemma Forall2_reads_only_insert ms i s s' :
  ms !! i = Some s -> reads_only s s' -> Forall2 reads_only ms (<[i := s']> ms).
Proof.
  intros Hs Hr. rewrite <- (list_insert_id ms i s Hs) at 1.
  apply Forall2_insert; [apply Forall2_reads_only_refl | exact Hr].
Qed.

Lemma Forall2_reads_only_map c ms :
  is_read c -> Forall2 reads_only ms (map (called c) ms).
Proof.
  intros Hc. induction ms as [| s ms IH]; simpl; constructor;
    [apply reads_only_called, Hc | exact IH].
Qed.

(** A callback that is one member-local computation [step] fits the
    fan-out lemmas. *)
Lemma lookup_middle_step {A} (fn : nat -> A -> M A) (step : Store -> A -> result A * Store) :
  (forall i a w s,
     members w !! i = Some s ->
     fn i a w = (fst (step s a), set_members w (<[i := snd (step s a)]> (members w)))) ->
  forall pre s rest a c g rs ru,
    fn (length pre) a (mkWorld c (pre ++ s :: rest) g rs ru)
    = (fst (step s a), mkWorld c (pre ++ snd (step s a) :: rest) g rs ru).
Proof.
  intros Hfn pre s rest a c g rs ru.
  rewrite (Hfn _ _ _ s) by (simpl; apply list_lookup_middle; reflexivity).
  unfold set_members. simpl. rewrite insert_app_r_alt by lia.
  rewrite Nat.sub_diag. reflexivity.
Qed.

(** Two calls in a row through the same member's client. *)
Lemma onMember_twice {A B} (op : St A) (k : A -> St B) i w s :
  members w !! i = Some s ->
  bind (onMember i op) (fun a => onMember i (k a)) w
  = (fst (bind op k s), set_members w (<[i := snd (bind op k s)]> (members w))).
Proof.
  intros Hs. unfold bind. rewrite (onMember_lookup _ _ _ _ Hs).
  destruct (op s) as [[a | e | |] s1]; cbn [fst snd]; try reflexivity.
  rewrite (onMember_lookup _ i _ s1)
    by (simpl; apply list_lookup_insert_eq; eapply lookup_lt_Some; exact Hs).
  unfold set_members. cbn [members coordinator GetMemberForKey rand_source rand_used].
  rewrite list_insert_insert_eq. reflexivity.
Qed.

(** ** Range: what it reads and what it answers *)

Section RangeReads.

Context {scheme : Scheme}.

Variable sort_Slice : (KeyValue -> KeyValue -> bool) -> list KeyValue -> list KeyValue.

Lemma rangeWithClient_lookup fuel req metaRev i resp w s :
  members w !! i = Some s ->
  rangeWithClient fuel req metaRev i resp w
  = (fst (rangeOnMember fuel req metaRev resp s),
     set_members w (<[i := snd (rangeOnMember fuel req metaRev resp s)]> (members w))).
Proof.
  intros Hs. unfold rangeWithClient, rangeOnMember, bind, wrap_err.
  rewrite (onMember_lookup _ _ _ _ Hs).
  destruct (getMemberRev fuel metaRev s) as [[memberRev | e | |] s1]; cbn [fst snd];
    try reflexivity.
  rewrite (onMember_lookup _ i _ s1)
    by (simpl; apply list_lookup_insert_eq; eapply lookup_lt_Some; exact Hs).
  unfold set_members. cbn [members coordinator GetMemberForKey rand_source rand_used].
  rewrite list_insert_insert_eq.
  destruct (store_Range _ s1) as [[r | e | |] s2]; cbn [fst snd]; try reflexivity.
  destruct (rr_CountOnly req); reflexivity.
Qed.

Lemma store_Range_snd req s : snd (store_Range req s) = called (CallRange req) s.
Proof.
  unfold store_Range, rpc, called. destruct (Faults s) as [| [e |] fs]; reflexivity.
Qed.

Lemma rangeOnMember_reads fuel req metaRev resp s :
  reads_only s (snd (rangeOnMember fuel req metaRev resp s)).
Proof.
  assert (Hget : reads_only s (snd (getMemberRev fuel metaRev s))).
  { destruct (getMemberRev_loop_reads fuel metaRev 0 s) as (HR & HC & HH & new & Hcalls & Hnew).
    fold (getMemberRev fuel metaRev) in HR, HC, HH, Hcalls.
    repeat split; try assumption. exists new. split; [exact Hcalls |].
    eapply Forall_impl; [exact Hnew |]. intros c [r ->]. exact I. }
  unfold rangeOnMember, bind, wrap_err.
  destruct (getMemberRev fuel metaRev s) as [[memberRev | e | |] s1]; cbn [snd] in *;
    try exact Hget.
  set (reqCopy := mkRangeRequest _ _ _ _ _ _).
  pose proof (store_Range_snd reqCopy s1) as Hsnd.
  assert (Hr : reads_only s (called (CallRange reqCopy) s1)).
  { eapply reads_only_trans; [exact Hget |]. apply reads_only_called. exact I. }
  destruct (store_Range reqCopy s1) as [[r | e | |] s2]; cbn [snd] in *; subst s2;
    try exact Hr.
  destruct (rr_CountOnly req); exact Hr.
Qed.

Lemma now_members w : Forall2 reads_only (members w) (members (snd (now w))).
Proof.
  unfold now, bind, wrap_err. rewrite onCoordinator_eq.
  destruct (store_Get MetaKey None (coordinator w)) as [[resp | e | |] c1]; cbn [fst snd];
    try apply Forall2_reads_only_refl.
  destruct (rs_Kvs resp); [| apply Forall2_reads_only_refl].
  rewrite reconstituteClock_members.
  cbn [members set_coordinator].
  destruct (fault_at _ 1); [apply Forall2_reads_only_refl |].
  destruct (current MetaKey _); [| apply Forall2_reads_only_refl].
  apply Forall2_reads_only_map. exact I.
Qed.

(** X9. [Range] only reads from the members, whatever it returns: every
    member has its revision, compacted revision and history as before,
    and has received nothing but reads.  With [req.Revision] set, the
    coordinator is not called at all. *)
Theorem Range_reads_only (fuel : nat) (req : RangeRequest) (w : World) :
  let w' := snd (Range sort_Slice fuel req w) in
  Forall2 reads_only (members w) (members w') /\
  (rr_Revision req <> 0 -> coordinator w' = coordinator w).
Proof.
  cbv zeta.
  set (P := fun w' : World =>
              Forall2 reads_only (members w) (members w') /\
              (rr_Revision req <> 0 -> coordinator w' = coordinator w)).
  change (P (snd (Range sort_Slice fuel req w))).
  assert (Hrev : P (snd ((if negb (rr_Revision req =? 0)
                          then ret (rr_Revision req) else now) w))).
  { unfold P. destruct (Z.eqb_spec (rr_Revision req) 0) as [Hz | Hnz]; cbn [negb].
    - split; [apply now_members | congruence].
    - split; [apply Forall2_reads_only_refl | reflexivity]. }
  assert (Hstep : forall w0 ms, P w0 -> Forall2 reads_only (members w0) ms ->
                                P (set_members w0 ms)).
  { unfold P. intros w0 ms [Hms Hc] Hms'. split; [| exact Hc].
    eapply Forall2_reads_only_trans; eassumption. }
  unfold Range. unfold bind at 1.
  destruct ((if negb (rr_Revision req =? 0) then ret (rr_Revision req) else now) w)
    as [[metaRev | e | |] w0]; cbn [snd] in Hrev |- *; try exact Hrev.
  set (resp0 := mkRangeResponse (Some (header_at metaRev)) [] false 0).
  destruct (Z.of_nat (length (rr_RangeEnd req)) =? 0).
  - destruct (members w0 !! GetMemberForKey w0 (rr_Key req)) as [s |] eqn:Hs.
    + rewrite (rangeWithClient_lookup _ _ _ _ _ _ _ Hs). cbn [snd].
      apply Hstep; [exact Hrev |].
      apply (Forall2_reads_only_insert _ _ s); [exact Hs | apply rangeOnMember_reads].
    + unfold rangeWithClient, bind, onMember. rewrite Hs. exact Hrev.
  - unfold bind at 1.
    rewrite (IterateMembers_fan_out _ (fun s a => rangeOnMember fuel req metaRev a s))
      by (apply lookup_middle_step; intros i a v s Hs; apply rangeWithClient_lookup, Hs).
    assert (Hfan : P (set_members w0
                        (snd (fan_out (fun s a => rangeOnMember fuel req metaRev a s)
                                      (members w0) resp0 None)))).
    { apply Hstep; [exact Hrev |]. apply fan_out_Forall2; [apply reads_only_refl |].
      intros s a. apply rangeOnMember_reads. }
    destruct (fst (fan_out _ (members w0) resp0 None)) as [[merged err] | e | |];
      try exact Hfan.
    unfold bind.
    destruct (negb (rr_Limit req =? 0) && _).
    + destruct (rr_Limit req <? 0); [exact Hfan |].
      destruct err; exact Hfan.
    + destruct err; exact Hfan.
Qed.

Lemma rangeWithClient_keeps fuel req metaRev c a w a' w' :
  rangeWithClient fuel req metaRev c a w = (Ok a', w') ->
  rs_Header a' = rs_Header a /\ rs_More a' = rs_More a /\
  (rr_CountOnly req = true -> rs_Kvs a' = rs_Kvs a).
Proof.
  unfold rangeWithClient, bind, wrap_err.
  destruct (onMember c (getMemberRev fuel metaRev) w) as [[memberRev | e | |] w1];
    try discriminate.
  destruct (onMember c (store_Range _) w1) as [[r | e | |] w2]; try discriminate.
  destruct (rr_CountOnly req); intros [= <- _]; repeat split; discriminate.
Qed.

(** X10. Every response of [Range], of a point read or of a range read,
    carries the meta-revision it was read at in its header: [req.Revision]
    when that is set, the clock's [now] otherwise.  A count-only request is
    answered without kvs and with [More] unset. *)
Theorem Range_answer (fuel : nat) (req : RangeRequest) (w w' : World)
    (resp : RangeResponse) :
  Range sort_Slice fuel req w = (Ok resp, w') ->
  exists metaRev w0,
    (if negb (rr_Revision req =? 0) then ret (rr_Revision req) else now) w
    = (Ok metaRev, w0) /\
    (rr_Revision req <> 0 -> metaRev = rr_Revision req /\ w0 = w) /\
    rs_Header resp = Some (header_at metaRev) /\
    (rr_CountOnly req = true -> rs_Kvs resp = [] /\ rs_More resp = false).
Proof.
  intros HR. unfold Range in HR. unfold bind at 1 in HR.
  destruct ((if negb (rr_Revision req =? 0) then ret (rr_Revision req) else now) w)
    as [[metaRev | e | |] w0] eqn:Hrev; try discriminate.
  exists metaRev, w0. split; [reflexivity |]. split.
  { intros Hnz. destruct (Z.eqb_spec (rr_Revision req) 0) as [? | _]; [contradiction |].
    cbn in Hrev. injection Hrev as <- <-. split; reflexivity. }
  set (resp0 := mkRangeResponse (Some (header_at metaRev)) [] false 0) in HR.
  set (P := fun a : RangeResponse =>
              rs_Header a = Some (header_at metaRev) /\ rs_More a = false /\
              (rr_CountOnly req = true -> rs_Kvs a = [])).
  assert (HP0 : P resp0) by (unfold P; repeat split).
  assert (Hkeep : forall c a v a' v', P a ->
                    rangeWithClient fuel req metaRev c a v = (Ok a', v') -> P a').
  { unfold P. intros c a v a' v' (Hh & Hm & Hk) Hstep.
    destruct (rangeWithClient_keeps _ _ _ _ _ _ _ _ Hstep) as (Hh' & Hm' & Hk').
    repeat split; [congruence | congruence |].
    intros Hc. rewrite (Hk' Hc). apply Hk, Hc. }
  destruct (Z.of_nat (length (rr_RangeEnd req)) =? 0).
  - destruct (Hkeep _ _ _ _ _ HP0 HR) as (Hh & Hm & Hk). auto.
  - unfold bind at 1 in HR.
    destruct (IterateMembers _ _ w0) as [[[merged err] | e | |] w1] eqn:Hit;
      try discriminate.
    assert (HPm : P merged).
    { unfold IterateMembers in Hit.
      apply (iterate_invariant P) in Hit; [exact Hit | exact Hkeep | exact HP0]. }
    destruct HPm as (Hh & Hm & Hk). unfold bind in HR.
    destruct (negb (rr_Limit req =? 0)
              && (Z.of_nat (length (rs_Kvs merged)) >? rr_Limit req)) eqn:Hcut.
    + destruct (Z.ltb_spec (rr_Limit req) 0) as [Hneg | Hpos]; [discriminate |].
      destruct err; cbn in HR; [discriminate |]. injection HR as <- <-.
      split; [exact Hh |]. intros Hc. exfalso.
      apply andb_true_iff in Hcut as [_ Hgt]. rewrite (Hk Hc) in Hgt. simpl in Hgt.
      apply Z.gtb_lt in Hgt. lia.
    + destruct err; cbn in HR; [discriminate |]. injection HR as <- <-. auto.
Qed.

(** X11. A point read ([RangeEnd] empty) that goes well: only the member
    that owns the key is called; it is sent the request with [Revision]
    replaced by the member revision that [getMemberRev] resolved; the
    answer has the member's kvs after [ResolveModRev] (none for a
    count-only request), the member's count, and [More] unset even when
    the member set it. *)
Theorem Range_point_read (fuel : nat) (req : RangeRequest) (w w0 : World) (metaRev : Z)
    (s s1 : Store) (memberRev : Z) :
  let owner := GetMemberForKey w0 (rr_Key req) in
  let sent := mkRangeRequest (rr_Key req) (rr_RangeEnd req) (rr_Limit req) memberRev
                             (rr_KeysOnly req) (rr_CountOnly req) in
  let r := RangeReply s1 sent in
  rr_RangeEnd req = [] ->
  (if negb (rr_Revision req =? 0) then ret (rr_Revision req) else now) w = (Ok metaRev, w0) ->
  members w0 !! owner = Some s ->
  getMemberRev fuel metaRev s = (Ok memberRev, s1) ->
  fault_at s1 0 = None ->
  Range sort_Slice fuel req w
  = (Ok (mkRangeResponse (Some (header_at metaRev))
           (if rr_CountOnly req then [] else map ResolveModRev (rs_Kvs r))
           false (int64 (rs_Count r))),
     set_members w0 (<[owner := called (CallRange sent) s1]> (members w0))).
Proof.
  intros owner sent r Hend Hrev Hs Hget Hf.
  unfold Range. unfold bind at 1. rewrite Hrev, Hend.
  change (Z.of_nat (length (@nil Z)) =? 0) with true. cbv iota beta.
  fold owner. rewrite (rangeWithClient_lookup _ _ _ _ _ _ _ Hs).
  unfold rangeOnMember, bind, wrap_err. rewrite Hget. fold sent.
  unfold store_Range. rewrite rpc_ok by exact Hf.
  cbn [fst snd rs_Header rs_Kvs rs_More rs_Count].
  change (RangeReply (called (CallRange sent) s1) sent) with r.
  destruct (rr_CountOnly req); reflexivity.
Qed.

(** X12. A point read that goes wrong: for a key without owning member
    the [nil] client makes it panic; an error of [getMemberRev] is
    returned as it is; an error of the member's range call is wrapped
    with the member revision it was sent at. *)
Theorem Range_point_read_errors (fuel : nat) (req : RangeRequest) (w w0 : World)
    (metaRev : Z) :
  let owner := GetMemberForKey w0 (rr_Key req) in
  rr_RangeEnd req = [] ->
  (if negb (rr_Revision req =? 0) then ret (rr_Revision req) else now) w = (Ok metaRev, w0) ->
  (members w0 !! owner = None -> Range sort_Slice fuel req w = (Panic, w0)) /\
  (forall s e s1,
     members w0 !! owner = Some s -> getMemberRev fuel metaRev s = (Err e, s1) ->
     fst (Range sort_Slice fuel req w) = Err e) /\
  (forall s memberRev s1 e,
     members w0 !! owner = Some s -> getMemberRev fuel metaRev s = (Ok memberRev, s1) ->
     fault_at s1 0 = Some e ->
     fst (Range sort_Slice fuel req w) = Err (ErrRanging memberRev e)).
Proof.
  intros owner Hend Hrev.
  assert (HR : Range sort_Slice fuel req w
               = rangeWithClient fuel req metaRev owner
                   (mkRangeResponse (Some (header_at metaRev)) [] false 0) w0).
  { unfold Range. unfold bind at 1. rewrite Hrev, Hend. reflexivity. }
  rewrite HR. split; [| split].
  - intros Hs. unfold rangeWithClient, bind, onMember. rewrite Hs. reflexivity.
  - intros s e s1 Hs Hget. rewrite (rangeWithClient_lookup _ _ _ _ _ _ _ Hs).
    unfold rangeOnMember, bind. rewrite Hget. reflexivity.
  - intros s memberRev s1 e Hs Hget Hf. rewrite (rangeWithClient_lookup _ _ _ _ _ _ _ Hs).
    unfold rangeOnMember, bind, wrap_err. rewrite Hget.
    unfold store_Range. rewrite (rpc_fault _ _ _ e Hf). reflexivity.
Qed.

End RangeReads.

(** ** Txn: the clock value, the translated comparison, the answer *)

Lemma int64_uint64 z : in_int64 z -> int64 (uint64 z) = z.
Proof.
  unfold in_int64, MinInt64, MaxInt64, int64, uint64. intros Hz.
  rewrite Zplus_mod_idemp_l. rewrite Z.mod_small; lia.
Qed.

Lemma onMember_coordinator {A} (op : St A) i w :
  coordinator (snd (onMember i op w)) = coordinator w.
Proof.
  unfold onMember. destruct (members w !! i); [| reflexivity].
  destruct (op s). reflexivity.
Qed.

Lemma rewriteResponses_shape {scheme : Scheme} metaRev rs :
  forall rs',
    rewriteResponses metaRev rs = Ok rs' ->
    length rs' = length rs /\
    Forall (fun r => forall p, r = ResponseOp_ResponsePut p ->
                               option_map Revision (ps_Header p) = Some metaRev) rs'.
Proof.
  induction rs as [| r rs IH]; intros rs'; cbn [rewriteResponses].
  - intros [= <-]. split; [reflexivity | constructor].
  - destruct (rewriteResponse metaRev r) as [r' | e | |] eqn:Hr; try discriminate.
    destruct (rewriteResponses metaRev rs) as [rs'' | e | |]; try discriminate.
    intros [= <-]. destruct (IH rs'' eq_refl) as [Hlen Hall].
    split; [simpl; congruence |]. constructor; [| exact Hall].
    intros p ->. unfold rewriteResponse in Hr.
    destruct r as [q | q | q | raw].
    + discriminate.
    + destruct (ps_Header q); [| discriminate]. injection Hr as <-. reflexivity.
    + destruct (ds_PrevKvs q); [discriminate |]. destruct (ds_Header q); discriminate.
    + discriminate.
Qed.

Section TxnAnswers.

Context {scheme : Scheme}.

Lemma resolveComparisons_coordinator client key req rest :
  forall done w,
    coordinator (snd (resolveComparisons client key req done rest w)) = coordinator w.
Proof.
  induction rest as [| op rest IH]; intros done w; cbn [resolveComparisons]; [reflexivity |].
  destruct (cmp_TargetUnion op); try apply IH.
  destruct (r =? 0); [apply IH |].
  unfold bind at 1. unfold resolveModComparison. unfold bind at 1.
  pose proof (onMember_coordinator (store_Get key None) client w) as Hc.
  destruct (onMember client (store_Get key None) w) as [[resp | e | |] w1]; cbn [snd] in *;
    try exact Hc.
  destruct (rs_Kvs resp) as [| kv kvs]; cbn [ret snd].
  - rewrite IH. exact Hc.
  - destruct (snd (PreflightTxn _ _ resp)); cbn [ret snd]; [exact Hc |].
    rewrite IH. exact Hc.
Qed.

(** X13. The clock value makes the round trip: the put of the meta-clock
    key that [Txn] appends to both branches carries 8 bytes from which
    [getMemberRev] and [reconstituteClock] decode the meta-revision of
    the tick again. *)
Theorem clock_value_round_trip (cmps : list Compare) (req : TxnRequest) (metaRev : Z) :
  in_int64 metaRev ->
  let sent := memberTxnRequest cmps req metaRev in
  exists p,
    last (tx_Success sent) = Some (RequestOp_RequestPut p) /\
    last (tx_Failure sent) = Some (RequestOp_RequestPut p) /\
    pr_Key p = MetaKey /\ length (pr_Value p) = 8%nat /\
    forall cr mr ver l,
      clock_value (mkEntry (mkKeyValue MetaKey cr mr ver (pr_Value p) l) false)
      = Some metaRev.
Proof.
  intros Hm sent.
  exists (mkPutRequest MetaKey (PutUint64 (uint64 metaRev)) 0 false false false).
  unfold sent, memberTxnRequest. cbn [tx_Success tx_Failure]. rewrite !last_snoc.
  repeat split.
  intros cr mr ver l. unfold clock_value. cbn [entry_kv Value pr_Value].
  rewrite Uint64_PutUint64, uint64_idem. cbn [option_map].
  rewrite int64_uint64 by exact Hm. reflexivity.
Qed.

(** X14. A tick is not taken back: when the member's transaction call
    fails after the clock was ticked, [Txn] returns the member's error and
    the coordinator stays one revision further. *)
Theorem Txn_member_failure_keeps_tick (w w1 : World) (req : TxnRequest) (key : bytes)
    (cmps : list Compare) (kv : KeyValue) (kvs : list KeyValue) (s : Store) (e : error) :
  let client := GetMemberForKey w key in
  validateTxn req = Ok key ->
  resolveComparisons client key req [] (tx_Compare req) w = (Ok (inr cmps), w1) ->
  fault_at (coordinator w) 0 = None ->
  current MetaKey (coordinator w) = kv :: kvs ->
  members w1 !! client = Some s ->
  fault_at s 0 = Some e ->
  fst (Txn req w) = Err e /\
  Rev (coordinator (snd (Txn req w))) = Rev (coordinator w) + 1 /\
  map Value (current MetaKey (coordinator (snd (Txn req w)))) = [Value kv].
Proof.
  intros client Hv Hres Hf0 Hcur Hs Hf.
  assert (Hc1 : coordinator w1 = coordinator w).
  { pose proof (resolveComparisons_coordinator client key req (tx_Compare req) [] w) as Hc.
    rewrite Hres in Hc. exact Hc. }
  assert (HT : exists w',
             Txn req w = (Err e, w') /\
             coordinator w'
             = push_entry (called (CallTick MetaKey) (coordinator w))
                 (mkEntry (mkKeyValue MetaKey (CreateRevision kv) (Rev (coordinator w) + 1)
                                      (Version kv + 1) (Value kv) (Lease kv)) false)).
  { rewrite (Txn_validated _ _ _ Hv). fold client. unfold bind at 1. rewrite Hres.
    unfold bind at 1.
    rewrite (tick_live w1 kv kvs) by (rewrite Hc1; assumption).
    unfold bind at 1.
    rewrite (onMember_lookup _ _ (set_coordinator w1 _) s Hs).
    unfold store_Txn. rewrite (rpc_fault _ _ _ e Hf). cbn [fst snd].
    eexists. split; [reflexivity |].
    cbn [coordinator set_members set_coordinator]. rewrite Hc1. reflexivity. }
  destruct HT as (w' & -> & Hc'). cbn [fst snd]. rewrite Hc'.
  split; [reflexivity |]. split; [reflexivity |].
  unfold current. simpl. unfold bytes_eqb.
  rewrite bool_decide_eq_true_2 by reflexivity. rewrite Z.leb_refl. reflexivity.
Qed.

(** X15. A transaction on a key that no member owns panics on the [nil]
    client ([GetMemberForKey] is not checked): at the first comparison
    that has to be resolved, before anything is called; or, when there is
    none, at the member's transaction call, after the clock was ticked. *)
Theorem Txn_without_owner (w : World) (req : TxnRequest) (key : bytes)
    (kv : KeyValue) (kvs : list KeyValue) :
  validateTxn req = Ok key ->
  members w !! GetMemberForKey w key = None ->
  fault_at (coordinator w) 0 = None ->
  current MetaKey (coordinator w) = kv :: kvs ->
  (Forall skipped (tx_Compare req) ->
     fst (Txn req w) = Panic /\
     Rev (coordinator (snd (Txn req w))) = Rev (coordinator w) + 1) /\
  (forall pre c post M,
     tx_Compare req = pre ++ c :: post -> Forall skipped pre ->
     cmp_TargetUnion c = Compare_ModRevision M -> M <> 0 ->
     Txn req w = (Panic, w)).
Proof.
  intros Hv Hs Hf0 Hcur. split.
  - intros Hall.
    assert (HT : Txn req w
                 = (Panic,
                    set_coordinator w
                      (push_entry (called (CallTick MetaKey) (coordinator w))
                         (mkEntry (mkKeyValue MetaKey (CreateRevision kv)
                                     (Rev (coordinator w) + 1) (Version kv + 1)
                                     (Value kv) (Lease kv)) false)))).
    { rewrite (Txn_validated _ _ _ Hv). unfold bind at 1.
      rewrite <- (app_nil_r (tx_Compare req)) at 1.
      rewrite resolveComparisons_skipped by exact Hall.
      cbn [resolveComparisons ret app]. unfold bind at 1.
      rewrite (tick_live w kv kvs Hf0 Hcur). unfold bind at 1.
      unfold onMember at 1. cbn [members set_coordinator]. rewrite Hs. reflexivity. }
    rewrite HT. split; reflexivity.
  - intros pre c post M Hcmp Hpre Hc HM.
    rewrite (Txn_validated _ _ _ Hv). unfold bind at 1.
    rewrite Hcmp, resolveComparisons_skipped by exact Hpre.
    cbn [resolveComparisons app]. rewrite Hc.
    destruct (Z.eqb_spec M 0) as [? | _]; [contradiction |].
    unfold bind at 1. unfold resolveModComparison, bind at 1.
    unfold onMember. rewrite Hs. reflexivity.
Qed.

(** X16. A [ModRevision] comparison that passes the preflight is sent to
    the member with the member's own mod-revision of the anchor key in
    place of the meta-revision; the comparisons that the loop passes over
    are sent as they came.  The member is read once for it.  The request
    that the member receives is spelled out: these comparisons, and both
    branches with the clock put at their end. *)
Theorem Txn_comparison_translated (w w2 : World) (req : TxnRequest) (key : bytes)
    (pre post : list Compare) (c : Compare) (M metaRev : Z) (s s2 : Store)
    (kv : KeyValue) (kvs : list KeyValue) :
  let client := GetMemberForKey w key in
  let w1 := set_members w (<[client := called (CallGet key None) s]> (members w)) in
  let cmps := pre ++ set_ModRevision c (ModRevision kv) :: post in
  validateTxn req = Ok key ->
  tx_Compare req = pre ++ c :: post ->
  Forall skipped pre -> Forall skipped post ->
  cmp_TargetUnion c = Compare_ModRevision M -> M <> 0 ->
  members w !! client = Some s ->
  fault_at s 0 = None ->
  current key s = kv :: kvs ->
  snd (PreflightTxn M req (get_response s (kv :: kvs))) = None ->
  tick w1 = (Ok metaRev, w2) ->
  members w2 !! client = Some s2 ->
  let buf := PutUint64 (uint64 metaRev) in
  let clockPut := RequestOp_RequestPut (mkPutRequest MetaKey buf 0 false false false) in
  let sent := mkTxnRequest (pre ++ set_ModRevision c (ModRevision kv) :: post)
                (AppendMetaRevToTxOps buf (tx_Success req) ++ [clockPut])
                (AppendMetaRevToTxOps buf (tx_Failure req) ++ [clockPut]) in
  resolveComparisons client key req [] (tx_Compare req) w = (Ok (inr cmps), w1) /\
  (exists r,
     Txn req w
     = (r, set_members w2 (<[client := called (CallTxn sent) s2]> (members w2)))) /\
  tx_Compare sent !! length pre
  = Some (mkCompare (cmp_Result c) (cmp_Target c) (cmp_Key c) (cmp_RangeEnd c)
                    (Compare_ModRevision (ModRevision kv))).
Proof.
  intros client w1 cmps Hv Hcmp Hpre Hpost Hc HM Hs Hf Hcur Hpf Htick Hs2 buf clockPut sent.
  assert (Hres : resolveComparisons client key req [] (tx_Compare req) w
                 = (Ok (inr cmps), w1)).
  { rewrite Hcmp, resolveComparisons_skipped by exact Hpre.
    cbn [resolveComparisons app]. rewrite Hc.
    destruct (Z.eqb_spec M 0) as [? | _]; [contradiction |].
    unfold bind at 1. unfold resolveModComparison, bind at 1.
    rewrite (onMember_lookup _ _ _ _ Hs), (store_Get_current _ _ Hf).
    cbn [fst snd get_response rs_Kvs]. rewrite Hcur.
    rewrite <- Hcmp.
    replace (mkTxnRequest (tx_Compare req) (tx_Success req) (tx_Failure req)) with req
      by (destruct req; reflexivity).
    change (mkRangeResponse (Some (header_at (Rev (called (CallGet key None) s))))
              (kv :: kvs) false (Z.of_nat (length (kv :: kvs))))
      with (get_response s (kv :: kvs)).
    rewrite Hpf. cbn [ret fst snd].
    rewrite <- (app_nil_r post) at 1.
    rewrite resolveComparisons_skipped by exact Hpost.
    cbn [resolveComparisons ret]. unfold cmps. rewrite <- app_assoc. reflexivity. }
  split; [exact Hres |]. split.
  - exact (Txn_reaches_member w w1 w2 req key cmps metaRev s2 Hv Hres Htick Hs2).
  - unfold sent. cbn [tx_Compare]. apply list_lookup_middle. reflexivity.
Qed.

(** X17. The answer of a transaction that the member executed: the header
    carries the meta-revision of the tick, [Succeeded] is the member's,
    the sub-responses are as many as the member's, and every put among
    them carries the meta-revision in its header. *)
Theorem Txn_answer (w w1 w' : World) (req : TxnRequest) (key : bytes)
    (cmps : list Compare) (resp : TxnResponse) :
  let client := GetMemberForKey w key in
  validateTxn req = Ok key ->
  resolveComparisons client key req [] (tx_Compare req) w = (Ok (inr cmps), w1) ->
  Txn req w = (Ok resp, w') ->
  exists metaRev w2 s,
    tick w1 = (Ok metaRev, w2) /\
    members w2 !! client = Some s /\
    let reply := TxnReply s (memberTxnRequest cmps req metaRev) in
    ts_Header resp = Some (header_at metaRev) /\
    ts_Succeeded resp = ts_Succeeded reply /\
    length (ts_Responses resp) = length (ts_Responses reply) /\
    Forall (fun r => forall p, r = ResponseOp_ResponsePut p ->
                               option_map Revision (ps_Header p) = Some metaRev)
           (ts_Responses resp).
Proof.
  intros client Hv Hres HT.
  rewrite (Txn_validated _ _ _ Hv) in HT. fold client in HT.
  unfold bind at 1 in HT. rewrite Hres in HT. unfold bind at 1 in HT.
  destruct (tick w1) as [[metaRev | e | |] w2] eqn:Htick; try discriminate.
  unfold bind at 1 in HT. unfold onMember in HT.
  destruct (members w2 !! client) as [s |] eqn:Hs2; [| discriminate].
  exists metaRev, w2, s. split; [reflexivity |]. split; [exact Hs2 |].
  unfold store_Txn, rpc in HT.
  destruct (Faults s) as [| [e |] fs]; try discriminate;
    unfold bind, pure_call, ret in HT; cbn [TxnReply] in HT;
    destruct (rewriteResponses metaRev _) as [rs' | e | |] eqn:Hrw; try discriminate;
    injection HT as <- _; cbn [ts_Header ts_Succeeded ts_Responses];
    destruct (rewriteResponses_shape _ _ _ Hrw) as [Hlen Hall]; auto.
Qed.

End TxnAnswers.

(** ** LeaseGrant with an id *)

Lemma grantOnMember_lookup req i (a : unit) w s :
  members w !! i = Some s ->
  grantOnMember req i a w
  = (match grant_error req s with Some e => Err e | None => Ok tt end,
     set_members w (<[i := called (CallLeaseGrant req) s]> (members w))).
Proof.
  intros Hs. unfold grantOnMember, bind, grant_error.
  rewrite (onMember_lookup _ _ _ _ Hs). unfold store_LeaseGrant.
  destruct (fault_at s 0) as [e |] eqn:Hf.
  - rewrite (rpc_fault _ _ _ e Hf). reflexivity.
  - rewrite rpc_ok by exact Hf. cbn [fst snd].
    change (LeaseGrantReply (called (CallLeaseGrant req) s) req) with (LeaseGrantReply s req).
    destruct (negb (ls_Error (LeaseGrantReply s req) =? EmptyString)%string); reflexivity.
Qed.

Lemma fan_out_grant req ms :
  forall first,
    fan_out (fun s (_ : unit) =>
               (match grant_error req s with Some e => Err e | None => Ok tt end,
                called (CallLeaseGrant req) s)) ms tt first
    = (Ok (tt, match first with
               | Some e => Some e
               | None => head (omap (grant_error req) ms)
               end),
       map (called (CallLeaseGrant req)) ms).
Proof.
  induction ms as [| s ms IH]; intros first; cbn [fan_out map omap list_omap].
  - destruct first; reflexivity.
  - destruct (grant_error req s) as [e |]; rewrite IH; destruct first; reflexivity.
Qed.

(** X18. [LeaseGrant] with an id in the request keeps that id and draws
    no random number; the grant goes to every member, also after one has
    failed; the first failure in the order of the members (a failed call,
    or an error text in the member's answer, which becomes a lease error)
    is what is returned, and only without any does the response come,
    with the id and TTL of the request.  Nothing is revoked. *)
Theorem LeaseGrant_given_id (req : LeaseGrantRequest) (w : World) :
  lg_ID req <> 0 ->
  LeaseGrant req w
  = (match omap (grant_error req) (members w) with
     | e :: _ => Err e
     | [] => Ok (mkLeaseGrantResponse (Some (header_at 0)) (lg_ID req) (lg_TTL req)
                                      EmptyString)
     end,
     set_members w (map (called (CallLeaseGrant req)) (members w))).
Proof.
  intros Hid. unfold LeaseGrant.
  destruct (Z.eqb_spec (lg_ID req) 0) as [? | _]; [contradiction |].
  unfold bind at 1. cbn [ret]. unfold bind at 1.
  rewrite (IterateMembers_fan_out _
             (fun s (_ : unit) =>
                (match grant_error req s with Some e => Err e | None => Ok tt end,
                 called (CallLeaseGrant req) s)))
    by (apply lookup_middle_step; intros i a v s Hs; apply grantOnMember_lookup, Hs).
  rewrite fan_out_grant. cbn [fst snd].
  destruct (omap (grant_error req) (members w)); reflexivity.
Qed.

(** ** Compact *)

Lemma onCoordinator_twice {A B} (op : St A) (k : A -> St B) w :
  bind (onCoordinator op) (fun a => onCoordinator (k a)) w
  = (fst (bind op k (coordinator w)), set_coordinator w (snd (bind op k (coordinator w)))).
Proof.
  unfold bind. rewrite onCoordinator_eq.
  destruct (op (coordinator w)) as [[a | e | |] c1]; cbn [fst snd]; try reflexivity.
  rewrite onCoordinator_eq. reflexivity.
Qed.

Section CompactProperties.

Context {scheme : Scheme}.

Lemma compactMember_lookup fuel req i (a : unit) w s :
  members w !! i = Some s ->
  compactMember fuel req i a w
  = (fst (compactAt fuel req s),
     set_members w (<[i := snd (compactAt fuel req s)]> (members w))).
Proof. intros Hs. unfold compactMember, compactAt. apply onMember_twice, Hs. Qed.

Lemma compactAt_Ok fuel req s u s' :
  compactAt fuel req s = (Ok u, s') -> compacted_at fuel (cr_Revision req) s s'.
Proof.
  unfold compactAt, bind.
  destruct (getMemberRev_loop_reads fuel (cr_Revision req) 0 s) as (HR & HC & HH & _).
  fold (getMemberRev fuel (cr_Revision req)) in HR, HC, HH.
  destruct (getMemberRev fuel (cr_Revision req) s) as [[rev | e | |] s1] eqn:Hget;
    try discriminate.
  cbn [snd] in HR, HC, HH. unfold store_Compact. cbn [cr_Revision].
  destruct (Faults s1) as [| [e |] fs]; try discriminate;
    (destruct (Z.leb_spec rev (CompactRev s1)); [discriminate |]);
    (destruct (Z.ltb_spec (Rev s1) rev); [discriminate |]);
    intros [= _ <-]; exists rev, s1; cbn [CompactRev Rev History];
    (split; [exact Hget |]); (split; [lia |]); auto.
Qed.

Lemma Compact_fan_out fuel req w :
  Compact fuel req w
  = bind (fun w => (fst (fan_out (fun s (_ : unit) => compactAt fuel req s)
                                 (members w) tt None),
                    set_members w (snd (fan_out (fun s (_ : unit) => compactAt fuel req s)
                                                (members w) tt None))))
      (fun r =>
         match snd r with
         | Some e => fail e
         | None =>
             rev <- onCoordinator (getMemberRev fuel (cr_Revision req)) ;;
             _ <- onCoordinator (store_Compact (mkCompactionRequest rev (cr_Physical req))) ;;
             ret (mkCompactionResponse None)
         end) w.
Proof.
  unfold Compact, bind at 1 4.
  rewrite (IterateMembers_fan_out _ (fun s (_ : unit) => compactAt fuel req s))
    by (apply lookup_middle_step; intros i a v s Hs; apply compactMember_lookup, Hs).
  reflexivity.
Qed.

Lemma bind_assoc_coordinator fuel req w :
  (let (r, c') := compactAt fuel req (coordinator w) in
   (match r with
    | Ok _ => Ok (mkCompactionResponse None)
    | Err e => Err e
    | Panic => Panic
    | OutOfFuel => OutOfFuel
    end, set_coordinator w c'))
  = (rev <- onCoordinator (getMemberRev fuel (cr_Revision req)) ;;
     _ <- onCoordinator (store_Compact (mkCompactionRequest rev (cr_Physical req))) ;;
     ret (mkCompactionResponse None)) w.
Proof.
  unfold compactAt, bind. rewrite onCoordinator_eq.
  destruct (getMemberRev fuel (cr_Revision req) (coordinator w)) as [[rev | e | |] c1];
    cbn [fst snd]; try reflexivity.
  rewrite onCoordinator_eq. cbn [coordinator set_coordinator].
  destruct (store_Compact _ c1) as [[[] | e | |] c2]; reflexivity.
Qed.

(** X19. [Compact] compacts the members first: when the callback of one
    member does not return (its read or its compaction fails), [Compact]
    gives no response and the coordinator is not called, while the other
    members may have been compacted. *)
Theorem Compact_member_failure (fuel : nat) (req : CompactionRequest) (w : World)
    (i : nat) (s : Store) :
  members w !! i = Some s ->
  (forall u, fst (compactAt fuel req s) <> Ok u) ->
  (forall resp, fst (Compact fuel req w) <> Ok resp) /\
  coordinator (snd (Compact fuel req w)) = coordinator w.
Proof.
  intros Hs Hfail.
  set (P := fun rw : result CompactionResponse * World =>
              (forall resp, fst rw <> Ok resp) /\ coordinator (snd rw) = coordinator w).
  change (P (Compact fuel req w)).
  rewrite Compact_fan_out. unfold bind at 1.
  pose proof (fan_out_Ok (fun s (_ : unit) => compactAt fuel req s) (members w) tt None) as Hok.
  destruct (fan_out _ (members w) tt None) as [[[[] err] | e | |] ms'];
    cbn [fst snd] in *; try (split; [discriminate | reflexivity]).
  destruct err as [e |]; cbn [fail]; [split; [discriminate | reflexivity] |].
  exfalso. specialize (Hok tt eq_refl).
  destruct (Forall2_lookup_l _ _ _ _ _ Hok Hs) as (s' & _ & a0 & a1 & Hstep).
  apply (Hfail a1). rewrite Hstep. reflexivity.
Qed.

(** X20. When [Compact] gives its (empty) response, every member and then
    the coordinator has been compacted, each at the revision that
    [getMemberRev] resolves the requested meta-revision to on it, a
    revision above the compacted one and not beyond the current one;
    the histories are untouched. *)
Theorem Compact_success (fuel : nat) (req : CompactionRequest) (w w' : World)
    (resp : CompactionResponse) :
  Compact fuel req w = (Ok resp, w') ->
  Forall2 (compacted_at fuel (cr_Revision req)) (members w) (members w') /\
  compacted_at fuel (cr_Revision req) (coordinator w) (coordinator w') /\
  resp = mkCompactionResponse None.
Proof.
  rewrite Compact_fan_out. unfold bind at 1.
  pose proof (fan_out_Ok (fun s (_ : unit) => compactAt fuel req s) (members w) tt None) as Hok.
  destruct (fan_out _ (members w) tt None) as [[[[] err] | e | |] ms'];
    cbn [fst snd] in *; try discriminate.
  destruct err as [e |]; [discriminate |]. specialize (Hok tt eq_refl).
  rewrite <- (bind_assoc_coordinator fuel req (set_members w ms')).
  change (coordinator (set_members w ms')) with (coordinator w).
  destruct (compactAt fuel req (coordinator w)) as [[[] | e | |] c'] eqn:Hc;
    try discriminate.
  intros [= <- <-]. cbn [members coordinator set_members set_coordinator].
  split; [| split; [eapply compactAt_Ok; exact Hc | reflexivity]].
  eapply Forall2_impl; [exact Hok |].
  intros s s' (a0 & a1 & Hstep). eapply compactAt_Ok. exact Hstep.
Qed.

End CompactProperties.

(** ** Range: how the members' answers are merged *)

Section RangeMerge.

Context {scheme : Scheme}.

Variable sort_Slice : (KeyValue -> KeyValue -> bool) -> list KeyValue -> list KeyValue.

Lemma rangeOnMember_answer fuel req metaRev resp s r s' :
  member_answer fuel req metaRev s = Some (r, s') ->
  rangeOnMember fuel req metaRev resp s = (Ok (merge_answer req resp r), s').
Proof.
  unfold member_answer, rangeOnMember, merge_answer, bind, wrap_err.
  destruct (getMemberRev fuel metaRev s) as [[memberRev | e | |] s1]; try discriminate.
  destruct (fault_at s1 0) eqn:Hf; [discriminate |]. intros [= <- <-].
  unfold store_Range. rewrite rpc_ok by exact Hf.
  destruct (rr_CountOnly req); reflexivity.
Qed.

Lemma fan_out_answers fuel req metaRev ms answers :
  Forall2 (fun s a => member_answer fuel req metaRev s = Some a) ms answers ->
  forall resp first,
    fan_out (fun s a => rangeOnMember fuel req metaRev a s) ms resp first
    = (Ok (fold_left (merge_answer req) (map fst answers) resp, first), map snd answers).
Proof.
  induction 1 as [| s [r s'] ms answers Hs _ IH]; intros resp first; cbn [fan_out map fold_left].
  - reflexivity.
  - rewrite (rangeOnMember_answer _ _ _ _ _ _ _ Hs), IH. reflexivity.
Qed.

Lemma merge_answer_kvs req rs :
  forall resp,
    rs_Kvs (fold_left (merge_answer req) rs resp)
    = rs_Kvs resp ++ (if rr_CountOnly req then []
                      else concat (map (fun r => map ResolveModRev (rs_Kvs r)) rs)).
Proof.
  induction rs as [| r rs IH]; intros resp; cbn [fold_left map concat].
  - destruct (rr_CountOnly req); rewrite app_nil_r; reflexivity.
  - rewrite IH. unfold merge_answer. cbn [rs_Kvs].
    destruct (rr_CountOnly req); [reflexivity |]. rewrite <- app_assoc. reflexivity.
Qed.

Lemma merge_answer_header req rs :
  forall resp, rs_Header (fold_left (merge_answer req) rs resp) = rs_Header resp.
Proof.
  induction rs as [| r rs IH]; intros resp; [reflexivity |]. cbn [fold_left].
  rewrite IH. reflexivity.
Qed.

Lemma merge_answer_count req (answers : list (RangeResponse * Store)) :
  forall resp,
    rs_Count (fold_left (merge_answer req) (map fst answers) resp)
    = fold_left (fun n a => int64 (n + rs_Count (fst a))) answers (rs_Count resp).
Proof.
  induction answers as [| a answers IH]; intros resp; [reflexivity |].
  cbn [fold_left map]. rewrite IH. reflexivity.
Qed.

(** X21. A range read without limit, when every member answers: each
    member is sent the request at its own resolved revision, and the
    response holds the members' kvs after [ResolveModRev], member after
    member in the order in which the callbacks took effect (none for a
    count-only request), under the meta-revision read at; [Count] is the
    sum of the members' counts in [int64] arithmetic. *)
Theorem Range_merges (fuel : nat) (req : RangeRequest) (w w0 : World) (metaRev : Z)
    (answers : list (RangeResponse * Store)) :
  let resp0 := mkRangeResponse (Some (header_at metaRev)) [] false 0 in
  let merged := fold_left (merge_answer req) (map fst answers) resp0 in
  rr_RangeEnd req <> [] ->
  rr_Limit req = 0 ->
  (if negb (rr_Revision req =? 0) then ret (rr_Revision req) else now) w = (Ok metaRev, w0) ->
  Forall2 (fun s a => member_answer fuel req metaRev s = Some a) (members w0) answers ->
  Range sort_Slice fuel req w = (Ok merged, set_members w0 (map snd answers)) /\
  rs_Header merged = Some (header_at metaRev) /\
  rs_Kvs merged
  = (if rr_CountOnly req then []
     else concat (map (fun a => map ResolveModRev (rs_Kvs (fst a))) answers)) /\
  rs_Count merged = fold_left (fun n a => int64 (n + rs_Count (fst a))) answers 0.
Proof.
  intros resp0 merged Hend Hlimit Hrev Hall. split; [| split; [| split]].
  - unfold Range. unfold bind at 1. rewrite Hrev.
    destruct (Z.eqb_spec (Z.of_nat (length (rr_RangeEnd req))) 0) as [Hlen | _].
    { destruct (rr_RangeEnd req); [congruence | simpl in Hlen; lia]. }
    unfold bind at 1.
    rewrite (IterateMembers_fan_out _ (fun s a => rangeOnMember fuel req metaRev a s))
      by (apply lookup_middle_step; intros i a v s Hs; apply rangeWithClient_lookup, Hs).
    rewrite (fan_out_answers _ _ _ _ _ Hall). cbn [fst snd]. fold resp0. fold merged.
    unfold bind. rewrite Hlimit. reflexivity.
  - unfold merged. rewrite merge_answer_header. reflexivity.
  - unfold merged. rewrite merge_answer_kvs. cbn [rs_Kvs resp0 app].
    rewrite map_map. reflexivity.
  - unfold merged. rewrite merge_answer_count. reflexivity.
Qed.

End RangeMerge.

(** ** When the clock cannot be read or ticked *)

Section ClockFailures.

Context {scheme : Scheme}.

Variable sort_Slice : (KeyValue -> KeyValue -> bool) -> list KeyValue -> list KeyValue.

Lemma reconstituteClock_reads delta w :
  Forall2 reads_only (members w) (members (snd (reconstituteClock delta w))).
Proof.
  rewrite reconstituteClock_members.
  destruct (fault_at _ 1); [apply Forall2_reads_only_refl |].
  destruct (current MetaKey _); [| apply Forall2_reads_only_refl].
  apply Forall2_reads_only_map. exact I.
Qed.

(** X22. The clock service never writes to a member: after [tick], [now]
    or [reconstituteClock], whatever they return, every member has its
    revision, compacted revision and history as before and has received
    nothing but reads. *)
Theorem clock_service_reads_members (delta : Z) (w : World) :
  Forall2 reads_only (members w) (members (snd (tick w))) /\
  Forall2 reads_only (members w) (members (snd (now w))) /\
  Forall2 reads_only (members w) (members (snd (reconstituteClock delta w))).
Proof.
  split; [| split; [apply now_members | apply reconstituteClock_reads]].
  unfold tick. rewrite onCoordinator_eq.
  destruct (fst (store_Tick MetaKey (coordinator w))) as [kv | e | |];
    cbn [snd]; try apply Forall2_reads_only_refl.
  destruct (is_ErrKeyNotFound e); [| apply Forall2_reads_only_refl].
  apply (reconstituteClock_reads 1 (set_coordinator w _)).
Qed.

(** X23. A read at the current revision ([req.Revision] not set) whose
    read of the clock fails returns that error, wrapped as a
    getting-clock error; no member is called and the clock is not
    reconstituted. *)
Theorem Range_clock_failure (fuel : nat) (req : RangeRequest) (w : World) (e : error) :
  rr_Revision req = 0 ->
  fault_at (coordinator w) 0 = Some e ->
  Range sort_Slice fuel req w
  = (Err (ErrGettingClock e),
     set_coordinator w (called (CallGet MetaKey None) (coordinator w))).
Proof.
  intros Hrev Hf. unfold Range. unfold bind at 1. rewrite Hrev.
  change (negb (0 =? 0)) with false. cbv iota.
  unfold now, bind, wrap_err. rewrite onCoordinator_eq. unfold store_Get.
  rewrite (rpc_fault _ _ _ e Hf). reflexivity.
Qed.

(** X24. A transaction whose tick fails with an error that is not
    key-not-found returns it wrapped as a ticking-clock error: the clock
    is not reconstituted, and the member, which the comparisons may have
    read, is not sent the transaction. *)
Theorem Txn_tick_failure (w w1 : World) (req : TxnRequest) (key : bytes)
    (cmps : list Compare) (e : error) :
  validateTxn req = Ok key ->
  resolveComparisons (GetMemberForKey w key) key req [] (tx_Compare req) w
  = (Ok (inr cmps), w1) ->
  fault_at (coordinator w) 0 = Some e ->
  is_ErrKeyNotFound e = false ->
  Txn req w
  = (Err (ErrTickingClock e),
     set_coordinator w1 (called (CallTick MetaKey) (coordinator w))).
Proof.
  intros Hv Hres Hf He.
  assert (Hc1 : coordinator w1 = coordinator w).
  { pose proof (resolveComparisons_coordinator (GetMemberForKey w key) key req
                  (tx_Compare req) [] w) as Hc.
    rewrite Hres in Hc. exact Hc. }
  rewrite (Txn_validated _ _ _ Hv). unfold bind at 1. rewrite Hres.
  unfold bind at 1, tick. rewrite onCoordinator_eq, Hc1. unfold store_Tick.
  rewrite (rpc_fault _ _ _ e Hf). cbn [fst snd]. rewrite He. reflexivity.
Qed.

End ClockFailures.

(** ** The further properties on the sample worlds *)

Lemma reconstituteClock_twice_witness :
  exists kv,
    current spec_MetaKey
      (coordinator (snd (reconstituteClock (scheme := SpecScheme) 1 clock_lost))) = [kv] /\
    fst (reconstituteClock (scheme := SpecScheme) 0
           (snd (reconstituteClock (scheme := SpecScheme) 1 clock_lost)))
    = Ok (spec_ResolveMetaRev kv) /\
    History (coordinator (snd (reconstituteClock (scheme := SpecScheme) 0
                                 (snd (reconstituteClock (scheme := SpecScheme) 1 clock_lost)))))
    = History (coordinator (snd (reconstituteClock (scheme := SpecScheme) 1 clock_lost))) /\
    Rev (coordinator (snd (reconstituteClock (scheme := SpecScheme) 0
                             (snd (reconstituteClock (scheme := SpecScheme) 1 clock_lost)))))
    = Rev (coordinator (snd (reconstituteClock (scheme := SpecScheme) 1 clock_lost))) /\
    members (snd (reconstituteClock (scheme := SpecScheme) 0
                    (snd (reconstituteClock (scheme := SpecScheme) 1 clock_lost))))
    = members (snd (reconstituteClock (scheme := SpecScheme) 1 clock_lost)).
Proof.
  apply (reconstituteClock_twice (scheme := SpecScheme) 1 0 clock_lost); reflexivity.
Defined.

Lemma reconstituteClock_members_unreachable_witness :
  fst (reconstituteClock (scheme := SpecScheme) 1 clock_lost_members_down) = Ok 1 /\
  map Value (current spec_MetaKey
               (coordinator (snd (reconstituteClock (scheme := SpecScheme) 1
                                    clock_lost_members_down))))
  = [PutUint64 (uint64 (1 - 1))].
Proof.
  apply (reconstituteClock_members_unreachable (scheme := SpecScheme) 1
           clock_lost_members_down).
  - reflexivity.
  - reflexivity.
  - reflexivity.
  - repeat constructor. discriminate.
  - unfold in_int64, MinInt64, MaxInt64. lia.
Defined.

Lemma tick_then_now_witness :
  let kv' := mkKeyValue spec_MetaKey 2 (12 + 1) (11 + 1) (PutUint64 11) 0 in
  let w1 := snd (tick (scheme := SpecScheme) txn_world) in
  let w2 := snd (now (scheme := SpecScheme) w1) in
  fst (tick (scheme := SpecScheme) txn_world) = Ok (spec_ResolveMetaRev kv') /\
  fst (now (scheme := SpecScheme) w1) = Ok (spec_ResolveMetaRev kv') /\
  Rev (coordinator w1) = 12 + 1 /\
  History (coordinator w1) = mkEntry kv' false :: History coordinator_at_11 /\
  History (coordinator w2) = History (coordinator w1) /\
  members w2 = members txn_world.
Proof.
  apply (tick_then_now (scheme := SpecScheme) txn_world
           (mkKeyValue spec_MetaKey 2 12 11 (PutUint64 11) 0) []); reflexivity.
Defined.

Lemma Range_reads_only_witness :
  Forall2 reads_only (members two_members)
          (members (snd (Range (scheme := SpecScheme) insertion_sort 5 range_a_z two_members))) /\
  coordinator (snd (Range (scheme := SpecScheme) insertion_sort 5 range_a_z two_members))
  = coordinator two_members.
Proof.
  destruct (Range_reads_only (scheme := SpecScheme) insertion_sort 5 range_a_z two_members)
    as [Hms Hc].
  split; [exact Hms | apply Hc; discriminate].
Defined.

Lemma Range_answer_witness :
  exists metaRev w0,
    (if negb (rr_Revision get_a =? 0) then ret (rr_Revision get_a)
     else now (scheme := SpecScheme)) two_members = (Ok metaRev, w0) /\
    (rr_Revision get_a <> 0 -> metaRev = rr_Revision get_a /\ w0 = two_members) /\
    rs_Header (mkRangeResponse (Some (header_at 8)) [spec_ResolveModRev kv_a] false 1)
    = Some (header_at metaRev) /\
    (rr_CountOnly get_a = true ->
     rs_Kvs (mkRangeResponse (Some (header_at 8)) [spec_ResolveModRev kv_a] false 1) = [] /\
     rs_More (mkRangeResponse (Some (header_at 8)) [spec_ResolveModRev kv_a] false 1) = false).
Proof.
  apply (Range_answer (scheme := SpecScheme) insertion_sort 5 get_a two_members
           (snd (Range (scheme := SpecScheme) insertion_sort 5 get_a two_members))).
  vm_compute. reflexivity.
Defined.

Lemma Range_point_read_witness :
  Range (scheme := SpecScheme) insertion_sort 5 get_a two_members
  = (Ok (mkRangeResponse (Some (header_at 8)) [spec_ResolveModRev kv_a] false (int64 1)),
     set_members two_members
       (<[1%nat := called (CallRange (mkRangeRequest [97] [] 0 3 false false))
                     (called (CallGet spec_MetaKey None) (member_with kv_a))]>
          (members two_members))).
Proof.
  apply (Range_point_read (scheme := SpecScheme) insertion_sort 5 get_a two_members
           two_members 8 (member_with kv_a)
           (called (CallGet spec_MetaKey None) (member_with kv_a)) 3); reflexivity.
Defined.

Lemma Range_point_read_errors_witness :
  Range (scheme := SpecScheme) insertion_sort 5 get_a no_owner_world = (Panic, no_owner_world) /\
  fst (Range (scheme := SpecScheme) insertion_sort 5 get_a down_world) = Err ErrUnavailable /\
  fst (Range (scheme := SpecScheme) insertion_sort 5 get_a range_down_world)
  = Err (ErrRanging 3 ErrUnavailable).
Proof.
  split; [| split].
  - apply (proj1 (Range_point_read_errors (scheme := SpecScheme) insertion_sort 5 get_a
                    no_owner_world no_owner_world 8 eq_refl eq_refl)).
    reflexivity.
  - apply (proj1 (proj2 (Range_point_read_errors (scheme := SpecScheme) insertion_sort 5 get_a
                           down_world down_world 8 eq_refl eq_refl))
             member_down ErrUnavailable (called (CallGet spec_MetaKey None) member_down));
      reflexivity.
  - apply (proj2 (proj2 (Range_point_read_errors (scheme := SpecScheme) insertion_sort 5 get_a
                           range_down_world range_down_world 8 eq_refl eq_refl))
             member_range_down 3 (called (CallGet spec_MetaKey None) member_range_down)
             ErrUnavailable);
      reflexivity.
Defined.

Lemma clock_value_round_trip_witness :
  exists p,
    last (tx_Success (memberTxnRequest (scheme := SpecScheme) [] put_k 11))
    = Some (RequestOp_RequestPut p) /\
    last (tx_Failure (memberTxnRequest (scheme := SpecScheme) [] put_k 11))
    = Some (RequestOp_RequestPut p) /\
    pr_Key p = spec_MetaKey /\ length (pr_Value p) = 8%nat /\
    forall cr mr ver l,
      clock_value (mkEntry (mkKeyValue spec_MetaKey cr mr ver (pr_Value p) l) false) = Some 11.
Proof.
  apply (clock_value_round_trip (scheme := SpecScheme) [] put_k 11).
  unfold in_int64, MinInt64, MaxInt64. lia.
Defined.

Lemma Txn_member_failure_keeps_tick_witness :
  fst (Txn (scheme := SpecScheme) put_k down_world) = Err ErrUnavailable /\
  Rev (coordinator (snd (Txn (scheme := SpecScheme) put_k down_world))) = 12 + 1 /\
  map Value (current spec_MetaKey
               (coordinator (snd (Txn (scheme := SpecScheme) put_k down_world))))
  = [PutUint64 11].
Proof.
  apply (Txn_member_failure_keeps_tick (scheme := SpecScheme) down_world down_world put_k
           [107] [] (mkKeyValue spec_MetaKey 2 12 11 (PutUint64 11) 0) [] member_down
           ErrUnavailable); reflexivity.
Defined.

Lemma Txn_without_owner_witness :
  (fst (Txn (scheme := SpecScheme) put_k no_owner_world) = Panic /\
   Rev (coordinator (snd (Txn (scheme := SpecScheme) put_k no_owner_world))) = 12 + 1) /\
  Txn (scheme := SpecScheme) stale_txn no_owner_world = (Panic, no_owner_world).
Proof.
  split.
  - apply (proj1 (Txn_without_owner (scheme := SpecScheme) no_owner_world put_k [107]
                    (mkKeyValue spec_MetaKey 2 12 11 (PutUint64 11) 0) []
                    eq_refl eq_refl eq_refl eq_refl)).
    constructor.
  - apply (proj2 (Txn_without_owner (scheme := SpecScheme) no_owner_world stale_txn [107]
                    (mkKeyValue spec_MetaKey 2 12 11 (PutUint64 11) 0) []
                    eq_refl eq_refl eq_refl eq_refl)
             [] stale_compare [] 5).
    + reflexivity.
    + constructor.
    + reflexivity.
    + lia.
Defined.

Lemma Txn_comparison_translated_witness :
  let w1 := set_members txn_world
              (<[O := called (CallGet [107] None) member_at_7]> (members txn_world)) in
  let w2 := snd (tick (scheme := SpecScheme) w1) in
  let sent :=
    mkTxnRequest [mkCompare EQUAL MOD [107] [] (Compare_ModRevision 4)]
      [ RequestOp_RequestPut (mkPutRequest [107] ([121] ++ PutUint64 11) 0 false false false);
        RequestOp_RequestPut (mkPutRequest spec_MetaKey (PutUint64 11) 0 false false false) ]
      [ RequestOp_RequestPut (mkPutRequest spec_MetaKey (PutUint64 11) 0 false false false) ] in
  resolveComparisons (scheme := SpecScheme) O [107] fresh_txn [] (tx_Compare fresh_txn) txn_world
  = (Ok (inr [mkCompare EQUAL MOD [107] [] (Compare_ModRevision 4)]), w1) /\
  (exists r,
     Txn (scheme := SpecScheme) fresh_txn txn_world
     = (r, set_members w2
             (<[O := called (CallTxn sent) (called (CallGet [107] None) member_at_7)]>
                (members w2)))) /\
  tx_Compare sent !! O = Some (mkCompare EQUAL MOD [107] [] (Compare_ModRevision 4)).
Proof.
  apply (Txn_comparison_translated (scheme := SpecScheme) txn_world
           (snd (tick (scheme := SpecScheme)
                   (set_members txn_world
                      (<[O := called (CallGet [107] None) member_at_7]> (members txn_world)))))
           fresh_txn [107] [] [] fresh_compare 6 11 member_at_7
           (called (CallGet [107] None) member_at_7) k_on_member []).
  - reflexivity.
  - reflexivity.
  - constructor.
  - constructor.
  - reflexivity.
  - lia.
  - reflexivity.
  - reflexivity.
  - vm_compute. reflexivity.
  - vm_compute. reflexivity.
  - vm_compute. reflexivity.
  - reflexivity.
Defined.

Lemma Txn_answer_witness :
  exists metaRev w2 s,
    tick (scheme := SpecScheme) txn_world = (Ok metaRev, w2) /\
    members w2 !! O = Some s /\
    let reply := TxnReply s (memberTxnRequest (scheme := SpecScheme) [] put_k metaRev) in
    ts_Header (mkTxnResponse (Some (header_at 11)) true []) = Some (header_at metaRev) /\
    ts_Succeeded (mkTxnResponse (Some (header_at 11)) true []) = ts_Succeeded reply /\
    length (ts_Responses (mkTxnResponse (Some (header_at 11)) true []))
    = length (ts_Responses reply) /\
    Forall (fun r => forall p, r = ResponseOp_ResponsePut p ->
                               option_map Revision (ps_Header p) = Some metaRev)
           (ts_Responses (mkTxnResponse (Some (header_at 11)) true [])).
Proof.
  apply (Txn_answer (scheme := SpecScheme) txn_world txn_world
           (snd (Txn (scheme := SpecScheme) put_k txn_world)) put_k [107] []).
  - reflexivity.
  - reflexivity.
  - vm_compute. reflexivity.
Defined.

Lemma LeaseGrant_given_id_witness :
  LeaseGrant grant_7 fresh_world
  = (Ok (mkLeaseGrantResponse (Some (header_at 0)) 7 60 EmptyString),
     set_members fresh_world (map (called (CallLeaseGrant grant_7)) (members fresh_world))).
Proof.
  apply (LeaseGrant_given_id grant_7 fresh_world).
  simpl. lia.
Defined.

Lemma Compact_member_failure_witness :
  (forall resp, fst (Compact (scheme := SpecScheme) 5 compact_6 half_down_world) <> Ok resp) /\
  coordinator (snd (Compact (scheme := SpecScheme) 5 compact_6 half_down_world))
  = coordinator half_down_world.
Proof.
  apply (Compact_member_failure (scheme := SpecScheme) 5 compact_6 half_down_world 1
           member_down).
  - reflexivity.
  - intros u. vm_compute. discriminate.
Defined.

Lemma Compact_success_witness :
  Forall2 (compacted_at (scheme := SpecScheme) 5 6) (members txn_world)
          (members (snd (Compact (scheme := SpecScheme) 5 compact_6 txn_world))) /\
  compacted_at (scheme := SpecScheme) 5 6 (coordinator txn_world)
               (coordinator (snd (Compact (scheme := SpecScheme) 5 compact_6 txn_world))) /\
  mkCompactionResponse None = mkCompactionResponse None.
Proof.
  apply (Compact_success (scheme := SpecScheme) 5 compact_6 txn_world
           (snd (Compact (scheme := SpecScheme) 5 compact_6 txn_world))
           (mkCompactionResponse None)).
  vm_compute. reflexivity.
Defined.

Lemma Range_clock_failure_witness :
  Range (scheme := SpecScheme) insertion_sort 5 get_a_now clock_down_world
  = (Err (ErrGettingClock ErrUnavailable),
     set_coordinator clock_down_world (called (CallGet spec_MetaKey None) coordinator_down)).
Proof.
  apply (Range_clock_failure (scheme := SpecScheme) insertion_sort 5 get_a_now
           clock_down_world ErrUnavailable); reflexivity.
Defined.

Lemma Txn_tick_failure_witness :
  Txn (scheme := SpecScheme) put_k clock_down_world
  = (Err (ErrTickingClock ErrUnavailable),
     set_coordinator clock_down_world (called (CallTick spec_MetaKey) coordinator_down)).
Proof.
  apply (Txn_tick_failure (scheme := SpecScheme) clock_down_world clock_down_world put_k
           [107] [] ErrUnavailable); reflexivity.
Defined.

Lemma Range_merges_witness :
  let merged := fold_left (merge_answer (scheme := SpecScheme) range_a_z_all)
                          (map fst two_answers)
                          (mkRangeResponse (Some (header_at 8)) [] false 0) in
  Range (scheme := SpecScheme) insertion_sort 5 range_a_z_all two_members
  = (Ok merged, set_members two_members (map snd two_answers)) /\
  rs_Header merged = Some (header_at 8) /\
  rs_Kvs merged = [spec_ResolveModRev kv_b; spec_ResolveModRev kv_a] /\
  rs_Count merged = 2.
Proof.
  apply (Range_merges (scheme := SpecScheme) insertion_sort 5 range_a_z_all two_members
           two_members 8 two_answers).
  - discriminate.
  - reflexivity.
  - reflexivity.
  - repeat constructor.
Defined.
